(** * LogsQL block-level filter evaluator: a shallow embedding

    The development follows lib/logstorage of VictoriaLogs: the [apply]
    methods of [filterRange], [filterStringRange], [filterAnyCasePhrase],
    [filterNot] and [filterOr], the [fieldsSet] helper and the
    [count_empty] stats processor; and, of
    lib/protoparser/opentelemetry/stream, the parser of log streams.

    Conventions.
    - A Go [string] is a byte string: Rocq's [string] of 8-bit [ascii].
    - A panic ([logger.Panicf], an index out of range) is the value [None]
      of the option monad; [apply] methods, which mutate a [*bitmap] in
      place, become functions returning the bitmap they leave behind.
    - Helpers of the package that are not among the sources are either
      modelled from the specification, and marked so, or taken as
      parameters of the section that uses them.
    - [uint64] is [Z] with the wrap-around written out ([wrap64]). *)

From Stdlib Require Import ZArith QArith Qround Lia Ascii DecimalString DecimalN.
From stdpp Require Import base option list sorting gmap strings.

Local Open Scope Z_scope.

(** ** Machine integers *)

Definition maxUint64 : Z := 2 ^ 64 - 1.

Definition wrap64 (z : Z) : Z := z mod 2 ^ 64.

Definition byte_to_Z (c : ascii) : Z := Z.of_N (N_of_ascii c).

(** Modelled from the spec: lib/encoding is not among the sources; uintN
    columns hold "exactly N/8 bytes, big-endian unsigned integer". *)
Fixpoint unmarshalBigEndian_acc (acc : Z) (b : string) : Z :=
  match b with
  | EmptyString => acc
  | String c rest => unmarshalBigEndian_acc (Z.lor (Z.shiftl acc 8) (byte_to_Z c)) rest
  end.

Definition unmarshalUint (b : string) : Z := unmarshalBigEndian_acc 0 b.

(** ** float64

    The filters only compare, round and convert floats, so a float64 is
    modelled by the value it denotes: NaN, an infinity, or a finite
    rational (negative zero is the rational 0, which compares and converts
    like positive zero).  Every float64 is such a value; statements
    quantified over [float64] therefore cover every Go float. *)

Inductive float64 : Type :=
  | NaN
  | Inf (negative : bool)
  | Fin (q : Q).

(** Go's [<] on float64: false as soon as one side is NaN. *)
Definition f64_lt (a b : float64) : bool :=
  match a, b with
  | NaN, _ | _, NaN => false
  | Inf true, Inf true => false
  | Inf true, _ => true
  | _, Inf true => false
  | Inf false, _ => false
  | Fin _, Inf false => true
  | Fin x, Fin y => negb (Qle_bool y x)
  end.

(** Go's [<=] on float64. *)
Definition f64_le (a b : float64) : bool :=
  match a, b with
  | NaN, _ | _, NaN => false
  | Inf true, _ => true
  | _, Inf false => true
  | Inf false, _ => false
  | Fin _, Inf true => false
  | Fin x, Fin y => Qle_bool x y
  end.

Definition f64_gt (a b : float64) : bool := f64_lt b a.
Definition f64_ge (a b : float64) : bool := f64_le b a.

Definition f64_of_Z (z : Z) : float64 := Fin (inject_Z z).

(** [math.Ceil] and [math.Floor]: exact on float64. *)
Definition math_Ceil (f : float64) : float64 :=
  match f with
  | Fin q => f64_of_Z (Qceiling q)
  | _ => f
  end.

Definition math_Floor (f : float64) : float64 :=
  match f with
  | Fin q => f64_of_Z (Qfloor q)
  | _ => f
  end.

(** [math.Float64frombits]: IEEE-754 binary64 decoding. *)
Definition math_Float64frombits (n : Z) : float64 :=
  let negative := Z.testbit n 63 in
  let e := Z.land (Z.shiftr n 52) 2047 in
  let m := Z.land n (2 ^ 52 - 1) in
  let sgn (z : Z) := if negative then - z else z in
  if e =? 2047 then (if m =? 0 then Inf negative else NaN)
  else if e =? 0 then Fin (Qmake (sgn m) (Z.to_pos (2 ^ 1074)))
  else if 1075 <=? e then Fin (inject_Z (sgn ((2 ^ 52 + m) * 2 ^ (e - 1075))))
  else Fin (Qmake (sgn (2 ^ 52 + m)) (Z.to_pos (2 ^ (1075 - e)))).

(** The untyped constant [math.MaxUint64] in a float64 comparison is
    rounded to the nearest float64, which is 2^64. *)
Definition math_MaxUint64_f64 : float64 := f64_of_Z (2 ^ 64).

(** Truncation toward zero, the in-range behaviour of [uint64(f)]. *)
Definition Qtrunc (q : Q) : Z :=
  if Qle_bool 0 q then Qfloor q else Qceiling q.

(** ** Bitmap *)

(** Modelled from the spec: bitmap.go is not among the sources.  "Bitmap:
    fixed logical length bitsLen equal to block row count; storage is a
    packed word array": the packed words are abstracted to one [bool] per
    row, and [bitsLen] is the length of the list. *)
Abbreviation bitmap := (list bool).

Definition bitsLen (bm : bitmap) : nat := length bm.

(** Modelled from the spec: "Bitmaps are obtained from and returned to a
    pool"; a bitmap from the pool has [n] cleared bits. *)
Definition getBitmap (n : nat) : bitmap := replicate n false.

(** Modelled from the spec: the operation setBits of the bitmap. *)
Definition setBits (bm : bitmap) : bitmap := replicate (bitsLen bm) true.

(** Modelled from the spec: the operation resetBits of the bitmap. *)
Definition resetBits (bm : bitmap) : bitmap := replicate (bitsLen bm) false.

(** Modelled from the spec: the operation isZero of the bitmap. *)
Definition isZero (bm : bitmap) : bool := forallb negb bm.

(** Modelled from the spec: the operation onesCount of the bitmap. *)
Definition onesCount (bm : bitmap) : nat := length (filter (λ b, b = true) bm).

(** Modelled from the spec: the operation andNot of the bitmap, [bm.andNot(x)];
    bitmaps of distinct lengths are an internal assertion failure. *)
Definition andNot (bm x : bitmap) : option bitmap :=
  if decide (bitsLen bm = bitsLen x)
  then Some (zip_with (λ a b, a && negb b) bm x)
  else None.

(** Modelled from the spec: the operation or of the bitmap, [bm.or(x)];
    bitmaps of distinct lengths are an internal assertion failure. *)
Definition or (bm x : bitmap) : option bitmap :=
  if decide (bitsLen bm = bitsLen x)
  then Some (zip_with orb bm x)
  else None.

(** Modelled from the spec: "forEachSetBit(fn)→bool — the callback returns
    whether the bit remains set (i.e. forEachSetBit simultaneously iterates
    AND updates)"; "row iteration is strictly ascending by row index".  Only
    set bits reach the callback, and a panic inside it aborts the scan. *)
Fixpoint forEachSetBit_from (idx : nat) (f : nat → option bool) (bm : bitmap)
  : option bitmap :=
  match bm with
  | [] => Some []
  | b :: rest =>
      keep ← (if b then f idx else Some false);
      rest' ← forEachSetBit_from (S idx) f rest;
      Some (keep :: rest')
  end.

Definition forEachSetBit (f : nat → option bool) (bm : bitmap) : option bitmap :=
  forEachSetBit_from 0%nat f bm.

(** The rows whose bit is set, in ascending order. *)
Definition setRows (bm : bitmap) : list nat :=
  filter (λ i, bm !! i = Some true) (seq 0 (length bm)).

(** [bm'] has the length of [bm] and no set bit outside the set bits of [bm]. *)
Definition bits_subset (bm' bm : bitmap) : Prop :=
  length bm' = length bm ∧ ∀ i, bm' !! i = Some true → bm !! i = Some true.

(** Intersection of a bitmap with a set of rows given by its indicator. *)
Definition keepRows (P : nat → bool) (bm : bitmap) : bitmap :=
  imap (λ i b, b && P i) bm.

(** ** Blocks *)

(** Modelled from the spec: "valueType ∈ {string, dict, uint8, uint16,
    uint32, uint64, float64, ipv4, iso8601}", under the names the filters
    switch on. *)
Inductive valueType : Type :=
  | valueTypeString
  | valueTypeDict
  | valueTypeUint8
  | valueTypeUint16
  | valueTypeUint32
  | valueTypeUint64
  | valueTypeFloat64
  | valueTypeIPv4
  | valueTypeTimestampISO8601.

(** Modelled from the spec: "ColumnHeader (per block, per column): name,
    valueType, minValue/maxValue (u64 bits; interpretation depends on
    valueType), valuesDict". *)
Record columnHeader : Type := {
  ch_name : string;
  ch_valueType : valueType;
  ch_minValue : Z;
  ch_maxValue : Z;
  ch_valuesDict : list string
}.

(** Modelled from the spec: block_search.go and the column headers are not
    among the sources.  "Block: row count, per-column encoded-value buffer,
    optional const-column values": a block is seen through the three
    accessors the filters call, the const-column value of a field (the
    empty string when there is none), the column header of a field (nil
    when there is none) and the encoded per-row values of a column. *)
Record blockSearch : Type := {
  getConstColumnValue : string → string;
  getColumnHeader : string → option columnHeader;
  getValuesForColumn : columnHeader → list string
}.

(** The [filter] interface, seen through its [apply] method. *)
Definition filter_apply : Type := blockSearch → bitmap → option bitmap.

(** Modelled from the spec: visitValues is not among the sources.  "Typed
    scan: iterate the set bits of the bitmap and decode each encoded value
    using the per-valueType rule; forEachSetBit clears bits whose predicate
    returns false."  A row without an encoded value is an index out of
    range. *)
Definition visitValues (bs : blockSearch) (ch : columnHeader) (bm : bitmap)
    (f : string → option bool) : option bitmap :=
  let values := getValuesForColumn bs ch in
  forEachSetBit (λ idx, v ← values !! idx; f v) bm.

(** [bytes.IndexByte(encodedValues, c) >= 0] *)
Definition containsByte (encodedValues : list ascii) (c : ascii) : bool :=
  bool_decide (c ∈ encodedValues).

(** Modelled from the spec: matchEncodedValuesDict is not among the
    sources.  "Dict pre-match: ... producing a byte set of surviving
    indices; then a single pass over encoded values keeps only rows whose
    byte is in that set."  An encoded dict value is one byte. *)
Definition matchEncodedValuesDict (bs : blockSearch) (ch : columnHeader)
    (bm : bitmap) (encodedValues : list ascii) : option bitmap :=
  match encodedValues with
  | [] => Some (resetBits bm)
  | _ =>
      visitValues bs ch bm (λ v,
        match v with
        | String c EmptyString => Some (containsByte encodedValues c)
        | _ => None
        end)
  end.

(** [for i, v := range ch.valuesDict.values { if match(v) { bb.B = append(bb.B, byte(i)) } }] *)
Definition dictMatches (match_ : string → bool) (values : list string) : list ascii :=
  omap (λ iv : nat * string,
          if match_ iv.2 then Some (ascii_of_nat (iv.1 mod 256)) else None)
       (imap (λ i v, (i, v)) values).

(** Go's comparison operators on strings: byte-wise lexicographic. *)
Definition str_lt (a b : string) : bool := String.ltb a b.
Definition str_le (a b : string) : bool := String.leb a b.
Definition str_gt (a b : string) : bool := String.ltb b a.
Definition str_ge (a b : string) : bool := String.leb b a.

Definition str_nonempty (s : string) : bool :=
  match s with EmptyString => false | String _ _ => true end.

(** Byte-wise lexicographic order, stated as a relation. *)
Inductive bytes_lt : string → string → Prop :=
  | bytes_lt_prefix c t : bytes_lt EmptyString (String c t)
  | bytes_lt_head c d s t :
      (N_of_ascii c < N_of_ascii d)%N → bytes_lt (String c s) (String d t)
  | bytes_lt_tail c s t : bytes_lt s t → bytes_lt (String c s) (String c t).

Definition bytes_le (s t : string) : Prop := s = t ∨ bytes_lt s t.

(** ** Canonical string forms *)

(** "the decimal representation for integers" *)
Definition formatUint (n : Z) : string :=
  NilZero.string_of_uint (N.to_uint (Z.to_N n)).

(** Modelled from the spec: toUint8String ... toUint64String are not among
    the sources.  "Canonical string form (of a typed value): the decimal
    representation for integers"; "a typed column slice has wrong length"
    is the fatal CorruptBlock. *)
Definition toUintString (width : nat) (v : string) : option string :=
  if decide (String.length v = width) then Some (formatUint (unmarshalUint v)) else None.

Definition toUint8String : string → option string := toUintString 1.
Definition toUint16String : string → option string := toUintString 2.
Definition toUint32String : string → option string := toUintString 4.
Definition toUint64String : string → option string := toUintString 8.

(** Modelled from the spec: toIPv4StringExt is not among the sources.
    "Canonical string form (of a typed value): ... dotted quad for ipv4";
    an encoded address has four bytes. *)
Definition toIPv4StringExt (v : string) : option string :=
  match v with
  | String a (String b (String c (String d EmptyString))) =>
      Some (formatUint (byte_to_Z a) +:+ "." +:+ formatUint (byte_to_Z b) +:+ "."
            +:+ formatUint (byte_to_Z c) +:+ "." +:+ formatUint (byte_to_Z d))
  | _ => None
  end.

(** ** The filters *)

Record filterRange : Type := {
  fr_fieldName : string;
  fr_minValue : float64;
  fr_maxValue : float64;
  fr_stringRepr : string
}.

Record filterStringRange : Type := {
  fsr_fieldName : string;
  fsr_minValue : string;
  fsr_maxValue : string
}.

Record filterAnyCasePhrase : Type := {
  fp_fieldName : string;
  fp_phrase : string
}.

(** [c >= utf8.RuneSelf || (c >= 'A' && c <= 'Z')] never holds in [s]. *)
Fixpoint isASCIILowercase (s : string) : bool :=
  match s with
  | EmptyString => true
  | String c rest =>
      let n := byte_to_Z c in
      if (128 <=? n) || ((65 <=? n) && (n <=? 90)) then false
      else isASCIILowercase rest
  end.

Definition matchStringRange (s minValue maxValue : string) : bool :=
  str_ge s minValue && str_lt s maxValue.

(** ** fieldsSet

    [type fieldsSet map[string]struct{}]: a finite set of field names. *)

Module FieldsSet.

Abbreviation fieldsSet := (gset string).

Definition newFieldsSet : fieldsSet := ∅.

Definition reset (fs : fieldsSet) : fieldsSet := ∅.

Definition sortsBefore (a b : string) : Prop := str_le a b = true.

#[local] Instance sortsBefore_dec a b : Decision (sortsBefore a b).
Proof. unfold sortsBefore. apply _. Defined.

(** [sort.Strings] of the keys. *)
Definition getAll (fs : fieldsSet) : list string :=
  merge_sort sortsBefore (elements fs).

Definition contains (fs : fieldsSet) (field : string) : bool :=
  let ok := bool_decide (field ∈ fs) in
  if negb ok then bool_decide ("*" ∈ fs) else ok.

Definition remove (fs : fieldsSet) (field : string) : fieldsSet :=
  if bool_decide (field = "*") then reset fs
  else if negb (contains fs "*") then fs ∖ {[field]}
  else fs.

Definition removeAll (fs : fieldsSet) (fields : list string) : fieldsSet :=
  foldl remove fs fields.

Definition add (fs : fieldsSet) (field : string) : fieldsSet :=
  if contains fs "*" then fs
  else if bool_decide (field = "*") then {["*"]} ∪ reset fs
  else {[field]} ∪ fs.

Definition addAll (fs : fieldsSet) (fields : list string) : fieldsSet :=
  foldl add fs fields.

Definition clone (fs : fieldsSet) : fieldsSet :=
  foldl add newFieldsSet (getAll fs).

(** The sets a program obtains from [newFieldsSet] through the methods. *)
Inductive built : fieldsSet → Prop :=
  | built_new : built newFieldsSet
  | built_reset fs : built fs → built (reset fs)
  | built_add fs f : built fs → built (add fs f)
  | built_remove fs f : built fs → built (remove fs f)
  | built_clone fs : built fs → built (clone fs).

(** The invariant of the sets built through the methods: a set that holds
    the star holds nothing else. *)
Definition star_alone (fs : fieldsSet) : Prop := "*" ∈ fs → fs = {["*"]}.

End FieldsSet.

(** ** count_empty *)

Module CountEmpty.

Record statsCountEmpty : Type := {
  sc_fields : list string;
  sc_containsStar : bool
}.

(** Modelled from the spec: block_result.go is not among the sources.  A
    result column has the fields the processor reads: "Const column: a
    column whose value is identical for every row in a block, stored
    once", the [_time] column, and for the other columns the value type,
    the encoded values and the dictionary. *)
Record blockResultColumn : Type := {
  c_name : string;
  c_isConst : bool;
  c_isTime : bool;
  c_valueType : valueType;
  c_encodedValues : list string;
  c_dictValues : list string
}.

(** Modelled from the spec: a block result has one timestamp per row and
    its columns. *)
Record blockResult : Type := {
  br_timestamps : list Z;
  br_columns : list blockResultColumn
}.

Definition isEmptyString (s : string) : bool := negb (str_nonempty s).

(** [v[0]] as an index. *)
Definition firstByte (v : string) : option nat :=
  match v with
  | EmptyString => None
  | String c _ => Some (nat_of_ascii c)
  end.

Section Processor.

(** String form of a timestamp and of an encoded value of a numeric,
    ipv4 or iso8601 column. *)
Context (formatTimestamp : Z → string).
Context (formatTyped : valueType → string → option string).

Definition getColumns (br : blockResult) : list blockResultColumn := br_columns br.

(** Modelled from the spec: getColumnByName is not among the sources.  An
    absent field reads as the empty string ("If the column is absent, the
    filter acts as if every row's value were the empty string";
    "NULL/absent fields sort as empty strings"): a field without a column
    is served as a const column holding the empty string. *)
Definition getColumnByName (br : blockResult) (columnName : string) : blockResultColumn :=
  match List.find (λ c, String.eqb (c_name c) columnName) (getColumns br) with
  | Some c => c
  | None =>
      {| c_name := columnName; c_isConst := true; c_isTime := false;
         c_valueType := valueTypeString; c_encodedValues := [EmptyString];
         c_dictValues := [] |}
  end.

(** Modelled from the spec: getValueAtRow and getValues are not among the
    sources.  The string value of a column at a row: the constant of a
    const column, the formatted timestamp of the [_time] column, the stored
    string, the dictionary entry of the encoded index ("every encoded byte
    is a valid index into valuesDict"), or the canonical string form of a
    typed value. *)
Definition getValueAtRow (c : blockResultColumn) (br : blockResult) (rowIdx : nat)
  : option string :=
  if c_isConst c then c_encodedValues c !! 0%nat
  else if c_isTime c then formatTimestamp <$> br_timestamps br !! rowIdx
  else
    match c_valueType c with
    | valueTypeString => c_encodedValues c !! rowIdx
    | valueTypeDict =>
        v ← c_encodedValues c !! rowIdx;
        dictIdx ← firstByte v;
        c_dictValues c !! dictIdx
    | vt => v ← c_encodedValues c !! rowIdx; formatTyped vt v
    end.

Definition getValues (c : blockResultColumn) (br : blockResult) : option (list string) :=
  mapM (getValueAtRow c br) (seq 0 (length (br_timestamps br))).

(** [slices.Index(values, "")] *)
Fixpoint indexOfEmpty (i : nat) (values : list string) : option nat :=
  match values with
  | [] => None
  | v :: rest => if isEmptyString v then Some i else indexOfEmpty (S i) rest
  end.

(** The loop of the star path: every column narrows the bitmap to the
    rows where its value is empty. *)
Fixpoint starLoop (cs : list blockResultColumn) (br : blockResult) (bm : bitmap)
  : option bitmap :=
  match cs with
  | [] => Some bm
  | c :: rest =>
      values ← getValues c br;
      bm ← forEachSetBit (λ idx, v ← values !! idx; Some (isEmptyString v)) bm;
      starLoop rest br bm
  end.

(** The loop of the slow path; a [return 0] inside it ends the update. *)
Fixpoint slowLoop (fields : list string) (br : blockResult) (rowsCount : Z)
    (bm : bitmap) : option Z :=
  match fields with
  | [] => Some (wrap64 (rowsCount + Z.of_nat (onesCount bm)))
  | f :: rest =>
      let c := getColumnByName br f in
      if c_isConst c then
        v0 ← c_encodedValues c !! 0%nat;
        if isEmptyString v0
        then Some (wrap64 (rowsCount + Z.of_nat (length (br_timestamps br))))
        else slowLoop rest br rowsCount bm
      else if c_isTime c then Some rowsCount
      else
        match c_valueType c with
        | valueTypeString =>
            bm ← forEachSetBit
                   (λ i, v ← c_encodedValues c !! i; Some (isEmptyString v)) bm;
            slowLoop rest br rowsCount bm
        | valueTypeDict =>
            if negb (bool_decide (EmptyString ∈ c_dictValues c)) then Some rowsCount
            else
              bm ← forEachSetBit
                     (λ i, v ← c_encodedValues c !! i;
                           dictIdx ← firstByte v;
                           d ← c_dictValues c !! dictIdx;
                           Some (isEmptyString d)) bm;
              slowLoop rest br rowsCount bm
        | _ => Some rowsCount
        end
  end.

(** [for _, v := range c.encodedValues { if v == "" { scp.rowsCount++ } }] *)
Definition countEmptyValues (rowsCount : Z) (values : list string) : Z :=
  foldl (λ n v, if isEmptyString v then wrap64 (n + 1) else n) rowsCount values.

Definition countDictIndex (zeroDictIdx : nat) (rowsCount : Z) (values : list string)
  : option Z :=
  foldl (λ acc v,
           n ← acc;
           i ← firstByte v;
           Some (if decide (i = zeroDictIdx) then wrap64 (n + 1) else n))
        (Some rowsCount) values.

(** The processor's state is its [rowsCount]; the methods return the
    new count. *)
Definition updateStatsForAllRows (sc : statsCountEmpty) (rowsCount : Z)
    (br : blockResult) : option Z :=
  let fields := sc_fields sc in
  if sc_containsStar sc then
    let bm := setBits (getBitmap (length (br_timestamps br))) in
    bm ← starLoop (getColumns br) br bm;
    Some (wrap64 (rowsCount + Z.of_nat (onesCount bm)))
  else
    match fields with
    | [f] =>
        let c := getColumnByName br f in
        if c_isConst c then
          v0 ← c_encodedValues c !! 0%nat;
          if isEmptyString v0
          then Some (wrap64 (rowsCount + Z.of_nat (length (br_timestamps br))))
          else Some rowsCount
        else if c_isTime c then Some rowsCount
        else
          match c_valueType c with
          | valueTypeString => Some (countEmptyValues rowsCount (c_encodedValues c))
          | valueTypeDict =>
              match indexOfEmpty 0 (c_dictValues c) with
              | None => Some rowsCount
              | Some zeroDictIdx =>
                  countDictIndex zeroDictIdx rowsCount (c_encodedValues c)
              end
          | _ => Some rowsCount
          end
    | _ =>
        let bm := setBits (getBitmap (length (br_timestamps br))) in
        slowLoop fields br rowsCount bm
    end.

(** [for ... { if v := c.getValueAtRow(br, rowIdx); v != "" { return 0 } }]:
    [Some true] when every value is empty. *)
Fixpoint allEmptyAtRow (cs : list blockResultColumn) (br : blockResult) (rowIdx : nat)
  : option bool :=
  match cs with
  | [] => Some true
  | c :: rest =>
      v ← getValueAtRow c br rowIdx;
      if str_nonempty v then Some false else allEmptyAtRow rest br rowIdx
  end.

Definition updateStatsForRow (sc : statsCountEmpty) (rowsCount : Z)
    (br : blockResult) (rowIdx : nat) : option Z :=
  let fields := sc_fields sc in
  if sc_containsStar sc then
    ok ← allEmptyAtRow (getColumns br) br rowIdx;
    Some (if (ok : bool) then wrap64 (rowsCount + 1) else rowsCount)
  else
    match fields with
    | [f] =>
        let c := getColumnByName br f in
        if c_isConst c then
          v0 ← c_encodedValues c !! 0%nat;
          Some (if isEmptyString v0 then wrap64 (rowsCount + 1) else rowsCount)
        else if c_isTime c then Some rowsCount
        else
          match c_valueType c with
          | valueTypeString =>
              v ← c_encodedValues c !! rowIdx;
              Some (if isEmptyString v then wrap64 (rowsCount + 1) else rowsCount)
          | valueTypeDict =>
              e ← c_encodedValues c !! rowIdx;
              dictIdx ← firstByte e;
              v ← c_dictValues c !! dictIdx;
              Some (if isEmptyString v then wrap64 (rowsCount + 1) else rowsCount)
          | _ => Some rowsCount
          end
    | _ =>
        ok ← allEmptyAtRow (map (getColumnByName br) fields) br rowIdx;
        Some (if (ok : bool) then wrap64 (rowsCount + 1) else rowsCount)
    end.

(** The aggregate as the specification words it: "count rows where ALL
    listed fields are empty". *)
Definition rowHasAllEmpty (fields : list string) (br : blockResult) (rowIdx : nat) : bool :=
  forallb (λ f, bool_decide (getValueAtRow (getColumnByName br f) br rowIdx = Some EmptyString))
          fields.

Definition countEmptyRows (fields : list string) (br : blockResult) : nat :=
  length (filter (λ i, rowHasAllEmpty fields br i = true)
                 (seq 0 (length (br_timestamps br)))).

(** "`*` means any column": every column of the block is empty at the row. *)
Definition rowHasAllColumnsEmpty (br : blockResult) (rowIdx : nat) : bool :=
  forallb (λ c, bool_decide (getValueAtRow c br rowIdx = Some EmptyString))
          (getColumns br).

(** The columns count_empty reads: all of them for [*], else the columns
    of the listed fields. *)
Definition countedColumns (sc : statsCountEmpty) (br : blockResult) : list blockResultColumn :=
  if sc_containsStar sc then getColumns br else map (getColumnByName br) (sc_fields sc).

(** [updateStatsForRow] called for every row of the block in turn. *)
Definition updateStatsForEachRow (sc : statsCountEmpty) (rowsCount : Z)
    (br : blockResult) : option Z :=
  foldl (λ acc i, n ← acc; updateStatsForRow sc n br i)
        (Some rowsCount) (seq 0 (length (br_timestamps br))).

End Processor.

End CountEmpty.

(** ** Example blocks *)

(** A block with one column: no const columns, the header [ch] under its
    name, and the given encoded values. *)
Definition singleColumnBlock (ch : columnHeader) (values : list string) : blockSearch :=
  {| getConstColumnValue := λ _, EmptyString;
     getColumnHeader := λ name, if String.eqb name (ch_name ch) then Some ch else None;
     getValuesForColumn := λ _, values |}.

Definition stringColumnHeader (name : string) : columnHeader :=
  {| ch_name := name; ch_valueType := valueTypeString;
     ch_minValue := 0; ch_maxValue := 0; ch_valuesDict := [] |}.

(** The column of the string-range scenario. *)
Definition fruitBlock : blockSearch :=
  singleColumnBlock (stringColumnHeader "foo")
    ["alpha"; "mango"; "oregano"; "pear"; "m"]%string.

(** The rows of [fruitBlock] whose value lies in [minValue, maxValue). *)
Definition fruitRows (minValue maxValue : string) (i : nat) : bool :=
  default false
    ((λ v, matchStringRange v minValue maxValue)
       <$> getValuesForColumn fruitBlock (stringColumnHeader "foo") !! i).

(** One-byte and multi-byte encoded values. *)
Definition byteString (bytes : list nat) : string :=
  foldr (λ n s, String (ascii_of_nat n) s) EmptyString bytes.

Definition uintColumnHeader (name : string) (vt : valueType) (lo hi : Z) : columnHeader :=
  {| ch_name := name; ch_valueType := vt;
     ch_minValue := lo; ch_maxValue := hi; ch_valuesDict := [] |}.

(** A uint8 column holding 5, 200 and 17. *)
Definition sizeBlock : blockSearch :=
  singleColumnBlock (uintColumnHeader "size" valueTypeUint8 5 200)
    [byteString [5]; byteString [200]; byteString [17]]%nat.

(** A uint64 column holding the single value 2^64-1. *)
Definition maxUint64Block : blockSearch :=
  singleColumnBlock (uintColumnHeader "n" valueTypeUint64 maxUint64 maxUint64)
    [byteString [255; 255; 255; 255; 255; 255; 255; 255]]%nat.

(** An ipv4 column holding the single address 9.0.0.1, and a string column
    holding the same address as text. *)
Definition ipBlock : blockSearch :=
  singleColumnBlock (uintColumnHeader "ip" valueTypeIPv4 150994945 150994945)
    [byteString [9; 0; 0; 1]]%nat.

Definition ipTextBlock : blockSearch :=
  singleColumnBlock (stringColumnHeader "ip") ["9.0.0.1"]%string.

(** ** An instance of the absent helpers

    Simple stand-ins, used only to run the filters on the example blocks:
    unsigned decimal integers for [tryParseFloat64], ASCII case mapping,
    substring search for [matchPhrase], decimal forms for the formatters. *)

Module Example.

Fixpoint parseDigits (acc : Z) (s : string) : option Z :=
  match s with
  | EmptyString => Some acc
  | String c rest =>
      let d := byte_to_Z c - 48 in
      if (0 <=? d) && (d <=? 9) then parseDigits (acc * 10 + d) rest else None
  end.

Definition tryParseFloat64 (s : string) : option float64 :=
  if str_nonempty s then f64_of_Z <$> parseDigits 0 s else None.

(** What the amd64 compiler yields for the conversions Go leaves open. *)
Definition uint64_unrepresentable (f : float64) : Z := 2 ^ 63.

Fixpoint mapBytes (g : Z → Z) (s : string) : string :=
  match s with
  | EmptyString => EmptyString
  | String c rest => String (ascii_of_N (Z.to_N (g (byte_to_Z c)))) (mapBytes g rest)
  end.

Definition toLower (s : string) : string :=
  mapBytes (λ n, if (65 <=? n) && (n <=? 90) then n + 32 else n) s.

Definition toUpper (s : string) : string :=
  mapBytes (λ n, if (97 <=? n) && (n <=? 122) then n - 32 else n) s.

Definition matchPhrase (s phrase : string) : bool :=
  match String.index 0 phrase s with Some _ => true | None => false end.

Definition tokenizeStrings (a : list string) : list string := a.

Definition formatBits (n : Z) : string := formatUint n.

Definition typedPrescan (vt : valueType) (bs : blockSearch) (ch : columnHeader)
    (phrase : string) (tokens : list string) : bool := true.

Definition typedMatch (vt : valueType) (phrase v : string) : bool :=
  String.eqb (formatUint (unmarshalUint v)) phrase.

Definition formatTimestamp (ts : Z) : string := formatUint ts.

Definition formatTyped (vt : valueType) (v : string) : option string :=
  Some (formatUint (unmarshalUint v)).

End Example.

(** Blocks of the count_empty examples: field [a] is a const column, field
    [b] a string column over two rows. *)
Definition constColumn (name value : string) : CountEmpty.blockResultColumn :=
  {| CountEmpty.c_name := name; CountEmpty.c_isConst := true;
     CountEmpty.c_isTime := false; CountEmpty.c_valueType := valueTypeString;
     CountEmpty.c_encodedValues := [value]; CountEmpty.c_dictValues := [] |}.

Definition stringColumn (name : string) (values : list string) : CountEmpty.blockResultColumn :=
  {| CountEmpty.c_name := name; CountEmpty.c_isConst := false;
     CountEmpty.c_isTime := false; CountEmpty.c_valueType := valueTypeString;
     CountEmpty.c_encodedValues := values; CountEmpty.c_dictValues := [] |}.

Definition emptyConstResult : CountEmpty.blockResult :=
  {| CountEmpty.br_timestamps := [1; 2];
     CountEmpty.br_columns := [constColumn "a" ""; stringColumn "b" ["x"; ""]%string] |}.

Definition nonEmptyConstResult : CountEmpty.blockResult :=
  {| CountEmpty.br_timestamps := [1; 2];
     CountEmpty.br_columns := [constColumn "a" "x"; stringColumn "b" [""; ""]%string] |}.

Definition countEmpty_a_b : CountEmpty.statsCountEmpty :=
  {| CountEmpty.sc_fields := ["a"; "b"]%string; CountEmpty.sc_containsStar := false |}.

(** ** Further example data and decoders *)

(** The string a dict column holds at a row: the dictionary entry of the
    encoded index byte. *)
Definition dictValueAt (bs : blockSearch) (ch : columnHeader) (i : nat) : option string :=
  v ← getValuesForColumn bs ch !! i;
  dictIdx ← CountEmpty.firstByte v;
  ch_valuesDict ch !! dictIdx.

(** The float a float64 column holds at a row. *)
Definition floatAtRow (bs : blockSearch) (ch : columnHeader) (i : nat) : option float64 :=
  (λ v, math_Float64frombits (unmarshalUint v)) <$> getValuesForColumn bs ch !! i.

(** A block whose only field is the const column [level] with value "Error". *)
Definition levelBlock : blockSearch :=
  {| getConstColumnValue := λ name, if String.eqb name "level" then "Error"%string else EmptyString;
     getColumnHeader := λ _, None;
     getValuesForColumn := λ _, [] |}.

(** A dict column over the dictionary ["", "10", "abc"], rows 1, 0, 2, 1. *)
Definition dictHeader : columnHeader :=
  {| ch_name := "code"; ch_valueType := valueTypeDict;
     ch_minValue := 0; ch_maxValue := 0;
     ch_valuesDict := [""; "10"; "abc"]%string |}.

Definition dictBlock : blockSearch :=
  singleColumnBlock dictHeader
    [byteString [1]; byteString [0]; byteString [2]; byteString [1]]%nat.

(** A float64 column holding 1.0 and -1.5, with these as header bounds. *)
Definition floatHeader : columnHeader :=
  {| ch_name := "ratio"; ch_valueType := valueTypeFloat64;
     ch_minValue := 13832806255468478464; ch_maxValue := 4607182418800017408;
     ch_valuesDict := [] |}.

Definition floatBlock : blockSearch :=
  singleColumnBlock floatHeader
    [byteString [63; 240; 0; 0; 0; 0; 0; 0]; byteString [191; 248; 0; 0; 0; 0; 0; 0]]%nat.

(** ** The state of the count_empty processor between blocks *)

Module CountEmptyProcessor.

(** [newStatsProcessor]: a fresh processor has counted no row. *)
Definition newStatsProcessor : Z := 0.

(** [scp.rowsCount += src.rowsCount], on uint64. *)
Definition mergeState (rowsCount src : Z) : Z := wrap64 (rowsCount + src).

(** [strconv.FormatUint(scp.rowsCount, 10)] *)
Definition finalizeStats (rowsCount : Z) : string := formatUint rowsCount.

(** The rows below [n] that satisfy [P], counted. *)
Definition countRows (P : nat → bool) (n : nat) : nat :=
  length (filter (λ i, P i = true) (seq 0 n)).

(** The column holds the empty string at the row. *)
Definition emptyAt (formatTimestamp : Z → string)
    (formatTyped : valueType → string → option string)
    (br : CountEmpty.blockResult) (rowIdx : nat) (c : CountEmpty.blockResultColumn) : bool :=
  bool_decide (CountEmpty.getValueAtRow formatTimestamp formatTyped c br rowIdx
               = Some EmptyString).

(** The rows count_empty is to count: those where every counted column
    holds the empty string. *)
Definition emptyRow (formatTimestamp : Z → string)
    (formatTyped : valueType → string → option string)
    (sc : CountEmpty.statsCountEmpty) (br : CountEmpty.blockResult) (rowIdx : nat) : bool :=
  if CountEmpty.sc_containsStar sc
  then CountEmpty.rowHasAllColumnsEmpty formatTimestamp formatTyped br rowIdx
  else CountEmpty.rowHasAllEmpty formatTimestamp formatTyped (CountEmpty.sc_fields sc) br rowIdx.

(** The data-model invariants of a result column over the rows of the
    block: a value can be read at every row, a const column stores its one
    value, a stored column has one encoded value per row, and a dictionary
    lists no value twice. *)
Definition column_wf (formatTimestamp : Z → string)
    (formatTyped : valueType → string → option string)
    (br : CountEmpty.blockResult) (c : CountEmpty.blockResultColumn) : Prop :=
  (∀ i, (i < length (CountEmpty.br_timestamps br))%nat →
        is_Some (CountEmpty.getValueAtRow formatTimestamp formatTyped c br i)) ∧
  (CountEmpty.c_isConst c = true → length (CountEmpty.c_encodedValues c) = 1%nat) ∧
  (CountEmpty.c_isConst c = false → CountEmpty.c_isTime c = false →
   length (CountEmpty.c_encodedValues c) = length (CountEmpty.br_timestamps br)) ∧
  NoDup (CountEmpty.c_dictValues c).

End CountEmptyProcessor.

(** A block of four rows with a string column, a dict column and the
    [_time] column. *)
Definition dictColumn (name : string) (dict : list string) (idxs : list nat)
  : CountEmpty.blockResultColumn :=
  {| CountEmpty.c_name := name; CountEmpty.c_isConst := false;
     CountEmpty.c_isTime := false; CountEmpty.c_valueType := valueTypeDict;
     CountEmpty.c_encodedValues := map (λ i, byteString [i]) idxs;
     CountEmpty.c_dictValues := dict |}.

Definition timeColumn : CountEmpty.blockResultColumn :=
  {| CountEmpty.c_name := "_time"; CountEmpty.c_isConst := false;
     CountEmpty.c_isTime := true; CountEmpty.c_valueType := valueTypeString;
     CountEmpty.c_encodedValues := []; CountEmpty.c_dictValues := [] |}.

Definition mixedResult : CountEmpty.blockResult :=
  {| CountEmpty.br_timestamps := [10; 20; 30; 40];
     CountEmpty.br_columns :=
       [stringColumn "msg" [""; "x"; ""; ""]%string;
        dictColumn "level" ["info"; ""]%string [1; 1; 0; 1]%nat;
        timeColumn] |}.

Definition countEmpty_msg_level : CountEmpty.statsCountEmpty :=
  {| CountEmpty.sc_fields := ["msg"; "level"]%string; CountEmpty.sc_containsStar := false |}.

(** ** The OpenTelemetry logs stream parser

    [lib/protoparser/opentelemetry/stream].  The structs of package [pb]
    are records with the fields the parser reads; a pointer that may be nil
    is an [option], and reading through a nil pointer is a panic.  The
    functions that [getStream] returns are seen through the calls made to
    them: the parser appends one [event] per call, with the arguments as
    they are when the call is made. *)

Module OtelStream.

(** [logstorage.Field] *)
Record Field : Type := { f_Name : string; f_Value : string }.

(** [pb.KeyValue]; [AnyValue] is the type of [at.Value]. *)
Record KeyValue (AnyValue : Type) : Type := {
  kv_Key : string;
  kv_Value : AnyValue
}.
Arguments kv_Key {AnyValue} _.
Arguments kv_Value {AnyValue} _.

(** [pb.LogRecord]: [Attributes] is a [[]*pb.KeyValue]. *)
Record LogRecord (AnyValue : Type) : Type := {
  lr_Timestamp : Z;
  lr_Severity : string;
  lr_Body : AnyValue;
  lr_Attributes : list (option (KeyValue AnyValue))
}.
Arguments lr_Timestamp {AnyValue} _.
Arguments lr_Severity {AnyValue} _.
Arguments lr_Body {AnyValue} _.
Arguments lr_Attributes {AnyValue} _.

(** [pb.ScopeLogs]; the parser ranges over [LogRecords] and reads the
    fields of each entry. *)
Record ScopeLogs (AnyValue : Type) : Type := {
  sc_LogRecords : list (LogRecord AnyValue)
}.
Arguments sc_LogRecords {AnyValue} _.

(** [pb.Resource] *)
Record Resource (AnyValue : Type) : Type := {
  res_Attributes : list (option (KeyValue AnyValue))
}.
Arguments res_Attributes {AnyValue} _.

(** [pb.ResourceLogs]: [Resource] is a pointer the parser tests for nil,
    [ScopeLogs] holds pointers, which it passes on as they are. *)
Record ResourceLogs (AnyValue : Type) : Type := {
  rl_Resource : option (Resource AnyValue);
  rl_ScopeLogs : list (option (ScopeLogs AnyValue))
}.
Arguments rl_Resource {AnyValue} _.
Arguments rl_ScopeLogs {AnyValue} _.

(** [pb.ExportLogsServiceRequest] *)
Record ExportLogsServiceRequest (AnyValue : Type) : Type := {
  req_ResourceLogs : list (ResourceLogs AnyValue)
}.
Arguments req_ResourceLogs {AnyValue} _.

(** The calls made through [getStream]: [getStream(streamFields)] itself,
    [processFn(timestamp, fields)] and [pushFn()]. *)
Inductive event : Type :=
  | GetStream (streamFields : list string)
  | Process (timestamp : Z) (fields : list Field)
  | Push.

Record writeLogsContext : Type := {
  wr_bb : string;
  wr_fields : list Field;
  wr_baseFields : list Field
}.

Definition reset (wr : writeLogsContext) : writeLogsContext :=
  {| wr_bb := EmptyString; wr_fields := []; wr_baseFields := [] |}.

(** [v] is what [wrLogsPool.Get()] returned: nil, or a context put back
    earlier. *)
Definition getWriteLogsContext (v : option writeLogsContext) : writeLogsContext :=
  match v with
  | None => {| wr_bb := EmptyString; wr_fields := []; wr_baseFields := [] |}
  | Some wr => wr
  end.

(** The context handed to [wrLogsPool.Put]. *)
Definition putWriteLogsContext (wr : writeLogsContext) : writeLogsContext := reset wr.

(** [int64(x)] of a uint64. *)
Definition int64_of_uint64 (z : Z) : Z := if z <? 2 ^ 63 then z else z - 2 ^ 64.

(** The errors of [ParseLogsStream], by the message that wraps the cause. *)
Inductive unpackError (error : Type) : Type :=
  | cannotReadRequest (err : error)
  | cannotUnmarshal (n : nat) (err : error).
Arguments cannotReadRequest {error} _.
Arguments cannotUnmarshal {error} _ _.

Inductive parseError (error : Type) : Type :=
  | cannotReadGzip (err : error)
  | cannotUnpack (err : unpackError error).
Arguments cannotReadGzip {error} _.
Arguments cannotUnpack {error} _.

(** What [ParseLogsStream] leaves behind: the count and the error it
    returns, the calls it made, and the context it put back into the
    pool, if it took one. *)
Record outcome (error : Type) : Type := {
  o_count : nat;
  o_err : option (parseError error);
  o_trace : list event;
  o_put : option writeLogsContext
}.
Arguments o_count {error} _.
Arguments o_err {error} _.
Arguments o_trace {error} _.
Arguments o_put {error} _.

Section Stream.

Context {AnyValue : Type}.
(** [at.Value.FormatString()] and [lr.Body.FormatString()] *)
Context (FormatString : AnyValue → string).

Definition attrField (at_ : KeyValue AnyValue) : Field :=
  {| f_Name := kv_Key at_; f_Value := FormatString (kv_Value at_) |}.

(** [for i, at := range attributes { ... }] from index [i] on. *)
Fixpoint appendAttributes_loop (i : nat) (attributes : list (option (KeyValue AnyValue)))
    (useForStream : bool) (dst : list Field) (streamFields : list string)
  : option (list Field * list string) :=
  match attributes with
  | [] => Some (dst, streamFields)
  | at_ :: rest =>
      at_ ← at_;
      let dst := dst ++ [attrField at_] in
      let streamFields :=
        if useForStream then <[i := kv_Key at_]> streamFields else streamFields in
      appendAttributes_loop (S i) rest useForStream dst streamFields
  end.

Definition appendAttributesToFields (dst : list Field)
    (attributes : list (option (KeyValue AnyValue))) (useForStream : bool)
  : option (list Field * list string) :=
  let streamFields :=
    if useForStream then replicate (length attributes) EmptyString else [] in
  appendAttributes_loop 0 attributes useForStream dst streamFields.

(** [for _, lr := range sc.LogRecords { ... }] *)
Fixpoint pushRecords (records : list (LogRecord AnyValue)) (wr : writeLogsContext)
    (trace : list event) : option (writeLogsContext * list event) :=
  match records with
  | [] => Some (wr, trace)
  | lr :: rest =>
      '(fields, _) ← appendAttributesToFields (wr_fields wr) (lr_Attributes lr) false;
      let fields :=
        if str_nonempty (lr_Severity lr)
        then fields ++ [{| f_Name := "severity"; f_Value := lr_Severity lr |}]
        else fields in
      let fields := fields ++ [{| f_Name := "_msg"; f_Value := FormatString (lr_Body lr) |}] in
      let wr := {| wr_bb := wr_bb wr; wr_fields := fields;
                   wr_baseFields := wr_baseFields wr |} in
      let trace :=
        trace ++ [Process (int64_of_uint64 (lr_Timestamp lr))
                          (wr_fields wr ++ wr_baseFields wr)] in
      pushRecords rest wr trace
  end.

Definition pushFieldsFromScopeLogs (wr : writeLogsContext) (trace : list event)
    (sc : option (ScopeLogs AnyValue)) : option (writeLogsContext * list event * nat) :=
  sc ← sc;
  '(wr, trace) ← pushRecords (sc_LogRecords sc) wr trace;
  Some (wr, trace, length (sc_LogRecords sc)).

(** [for _, sc := range rl.ScopeLogs { count += wr.pushFieldsFromScopeLogs(sc, processFn) }] *)
Fixpoint pushScopes (scopes : list (option (ScopeLogs AnyValue))) (wr : writeLogsContext)
    (trace : list event) (count : nat) : option (writeLogsContext * list event * nat) :=
  match scopes with
  | [] => Some (wr, trace, count)
  | sc :: rest =>
      '(wr, trace, n) ← pushFieldsFromScopeLogs wr trace sc;
      pushScopes rest wr trace (count + n)%nat
  end.

(** [for _, rl := range req.ResourceLogs { ... }] *)
Fixpoint parseResources (resourceLogs : list (ResourceLogs AnyValue))
    (wr : writeLogsContext) (trace : list event) (count : nat)
  : option (writeLogsContext * list event * nat) :=
  match resourceLogs with
  | [] => Some (wr, trace, count)
  | rl :: rest =>
      let attributes :=
        match rl_Resource rl with
        | Some res => res_Attributes res
        | None => []
        end in
      '(baseFields, streamFields) ← appendAttributesToFields [] attributes true;
      let wr := {| wr_bb := wr_bb wr; wr_fields := wr_fields wr;
                   wr_baseFields := baseFields |} in
      let trace := trace ++ [GetStream streamFields] in
      '(wr, trace, count) ← pushScopes (rl_ScopeLogs rl) wr trace count;
      let trace := trace ++ [Push] in
      parseResources rest wr trace count
  end.

Definition parseLogsRequest (wr : writeLogsContext)
    (req : ExportLogsServiceRequest AnyValue)
  : option (writeLogsContext * list event * nat) :=
  parseResources (req_ResourceLogs req) wr [] 0%nat.

(** The reader and the decoders: [common.GetGzipReader], the bytes
    [wr.bb.ReadFrom] appends together with its error, [json.Unmarshal] and
    [req.UnmarshalProtobuf]. *)
Context {reader error : Type}.
Context (GetGzipReader : reader → reader + error).
Context (ReadFrom : reader → string * option error).
Context (json_Unmarshal UnmarshalProtobuf : string → ExportLogsServiceRequest AnyValue + error).

Definition readAndUnpackLogsRequest (wr : writeLogsContext) (r : reader)
    (contentType : string)
  : writeLogsContext * (ExportLogsServiceRequest AnyValue + unpackError error) :=
  let '(data, err) := ReadFrom r in
  let wr := {| wr_bb := wr_bb wr +:+ data; wr_fields := wr_fields wr;
               wr_baseFields := wr_baseFields wr |} in
  match err with
  | Some err => (wr, inr (cannotReadRequest err))
  | None =>
      let decoded :=
        if String.eqb contentType "application/json"
        then json_Unmarshal (wr_bb wr)
        else UnmarshalProtobuf (wr_bb wr) in
      match decoded with
      | inl req => (wr, inl req)
      | inr err => (wr, inr (cannotUnmarshal (String.length (wr_bb wr)) err))
      end
  end.

(** [v] is what [wrLogsPool.Get()] returns if the parser asks. *)
Definition ParseLogsStream (v : option writeLogsContext) (r : reader)
    (contentType : string) (isGzipped : bool) : option (outcome error) :=
  match (if isGzipped then GetGzipReader r else inl r) with
  | inr err =>
      Some {| o_count := 0; o_err := Some (cannotReadGzip err);
              o_trace := []; o_put := None |}
  | inl r =>
      let wr := getWriteLogsContext v in
      let '(wr, req) := readAndUnpackLogsRequest wr r contentType in
      match req with
      | inr err =>
          Some {| o_count := 0; o_err := Some (cannotUnpack err);
                  o_trace := []; o_put := Some (putWriteLogsContext wr) |}
      | inl req =>
          '(wr, trace, count) ← parseLogsRequest wr req;
          Some {| o_count := count; o_err := None;
                  o_trace := trace; o_put := Some (putWriteLogsContext wr) |}
      end
  end.

(** *** What the calls are to carry *)

(** The entries of a slice of pointers none of which is nil. *)
Definition nonNil {A} (l : list (option A)) : list A := omap id l.

(** The fields one log record contributes. *)
Definition recordFields (lr : LogRecord AnyValue) : list Field :=
  map attrField (nonNil (lr_Attributes lr))
  ++ (if str_nonempty (lr_Severity lr)
      then [{| f_Name := "severity"; f_Value := lr_Severity lr |}] else [])
  ++ [{| f_Name := "_msg"; f_Value := FormatString (lr_Body lr) |}].

Definition recordsOf (rl : ResourceLogs AnyValue) : list (LogRecord AnyValue) :=
  concat (map sc_LogRecords (nonNil (rl_ScopeLogs rl))).

Definition allRecords (req : ExportLogsServiceRequest AnyValue) : list (LogRecord AnyValue) :=
  concat (map recordsOf (req_ResourceLogs req)).

Definition resourceAttrs (rl : ResourceLogs AnyValue) : list (KeyValue AnyValue) :=
  match rl_Resource rl with
  | Some res => nonNil (res_Attributes res)
  | None => []
  end.

(** A request none of whose pointers is nil. *)
Definition wf_resource (rl : ResourceLogs AnyValue) : Prop :=
  (∀ res, rl_Resource rl = Some res → Forall is_Some (res_Attributes res)) ∧
  Forall is_Some (rl_ScopeLogs rl) ∧
  Forall (λ lr, Forall is_Some (lr_Attributes lr)) (recordsOf rl).

Definition wf_request (req : ExportLogsServiceRequest AnyValue) : Prop :=
  Forall wf_resource (req_ResourceLogs req).

(** The [processFn] calls for the records [recs], made with the fields
    [fields] already in [wr.fields] and the base fields [base]. *)
Definition processEvents (fields base : list Field) (recs : list (LogRecord AnyValue))
  : list event :=
  imap (λ k lr, Process (int64_of_uint64 (lr_Timestamp lr))
                  (fields ++ concat (map recordFields (take (S k) recs)) ++ base))
       recs.

(** The calls for the resources [resourceLogs], made with the fields
    [fields] already in [wr.fields]: for each resource [getStream] with the
    keys of its attributes, the [processFn] calls of its records, then
    [pushFn]. *)
Definition resourceEvents (fields : list Field)
    (resourceLogs : list (ResourceLogs AnyValue)) : list event :=
  concat
    (imap (λ j rl,
             GetStream (map kv_Key (resourceAttrs rl))
             :: processEvents
                  (fields
                   ++ concat (map recordFields
                                (concat (map recordsOf (take j resourceLogs)))))
                  (map attrField (resourceAttrs rl)) (recordsOf rl)
             ++ [Push])
          resourceLogs).

End Stream.

Definition isGetStream (e : event) : bool :=
  match e with GetStream _ => true | _ => false end.

Definition isProcess (e : event) : bool :=
  match e with Process _ _ => true | _ => false end.

Definition isPush (e : event) : bool :=
  match e with Push => true | _ => false end.

(** The number of calls of one kind in a trace. *)
Definition countEvents (kind : event → bool) (trace : list event) : nat :=
  length (filter (λ e, kind e = true) trace).

End OtelStream.

(** A request with one resource (attribute [host]) and two records. *)
Definition exampleRequest : OtelStream.ExportLogsServiceRequest string :=
  {| OtelStream.req_ResourceLogs :=
       [{| OtelStream.rl_Resource :=
             Some {| OtelStream.res_Attributes :=
                       [Some {| OtelStream.kv_Key := "host"; OtelStream.kv_Value := "a1" |}] |};
           OtelStream.rl_ScopeLogs :=
             [Some {| OtelStream.sc_LogRecords :=
                        [{| OtelStream.lr_Timestamp := 1; OtelStream.lr_Severity := "warn";
                            OtelStream.lr_Body := "first";
                            OtelStream.lr_Attributes :=
                              [Some {| OtelStream.kv_Key := "k";
                                       OtelStream.kv_Value := "v" |}] |};
                         {| OtelStream.lr_Timestamp := 2; OtelStream.lr_Severity := "";
                            OtelStream.lr_Body := "second";
                            OtelStream.lr_Attributes := [] |}] |}] |}] |}%string.

(** Stand-ins for the reader and the decoders, used only to run the stream
    parser on [exampleRequest]: the reader is the body it yields, no body
    is gzip data, the JSON decoder yields [exampleRequest] and the protobuf
    decoder fails. *)
Definition exampleGetGzipReader (r : string) : string + string := inr "gzip: invalid header"%string.

Definition exampleReadFrom (r : string) : string * option string := (r, None).

Definition exampleJsonUnmarshal (data : string)
  : OtelStream.ExportLogsServiceRequest string + string := inl exampleRequest.

Definition exampleUnmarshalProtobuf (data : string)
  : OtelStream.ExportLogsServiceRequest string + string := inr "proto: cannot parse"%string.

(** ** The evaluator *)

Section Evaluator.

Local Set Default Proof Using "Type".

(** Helpers of the package and of Go's library that are not among the
    sources and whose results the filters only pass along. *)

(** [tryParseFloat64(s)]: the parsed float, or [None] for [ok = false]. *)
Context (tryParseFloat64 : string → option float64).
(** [uint64(f)] where [f] is NaN or outside of the uint64 range: Go leaves
    the result to the implementation. *)
Context (uint64_unrepresentable : float64 → Z).
Context (matchPhrase : string → string → bool).
Context (strings_ToLower strings_ToUpper : string → string).
(** [stringsutil.AppendLowercase(nil, s)] *)
Context (stringsutil_AppendLowercase : string → string).
(** [tokenizeStrings(nil, []string{phrase})] *)
Context (tokenizeStrings : list string → list string).
(** Shortest round-trip form of the float64 with the given bits, and
    RFC3339 form of the timestamp with the given nanoseconds. *)
Context (formatFloat64 formatTimestampISO8601 : Z → string).
(** The pre-scan and the per-value predicate of the typed phrase
    matchers, for a column type, a phrase and its tokens. *)
Context (typedPrescan : valueType → blockSearch → columnHeader → string → list string → bool).
Context (typedMatch : valueType → string → string → bool).

(** Modelled from the spec: toFloat64StringExt is not among the sources.
    "For float64, 8 bytes of IEEE-754 bit pattern"; the canonical form is
    the "shortest round-trip for floats", the parameter [formatFloat64]. *)
Definition toFloat64StringExt (v : string) : option string :=
  if decide (String.length v = 8%nat) then Some (formatFloat64 (unmarshalUint v)) else None.

(** Modelled from the spec: toTimestampISO8601StringExt is not among the
    sources.  An encoded timestamp has 8 bytes; the canonical form is
    "RFC3339 with nanosecond precision for iso8601", the parameter
    [formatTimestampISO8601]. *)
Definition toTimestampISO8601StringExt (v : string) : option string :=
  if decide (String.length v = 8%nat) then Some (formatTimestampISO8601 (unmarshalUint v)) else None.

(** *** filterRange *)

Definition matchRange (s : string) (minValue maxValue : float64) : bool :=
  match tryParseFloat64 s with
  | None => false
  | Some f => f64_ge f minValue && f64_le f maxValue
  end.

Definition uint64_of_float64 (f : float64) : Z :=
  match f with
  | Fin q =>
      let z := Qtrunc q in
      if (0 <=? z) && (z <=? maxUint64) then z
      else wrap64 (uint64_unrepresentable f)
  | _ => wrap64 (uint64_unrepresentable f)
  end.

Definition toUint64Clamp (f : float64) : Z :=
  if f64_lt f (f64_of_Z 0) then 0
  else if f64_gt f math_MaxUint64_f64 then maxUint64
  else uint64_of_float64 f.

Definition toUint64Range (minValue maxValue : float64) : Z * Z :=
  let minValue := math_Ceil minValue in
  let maxValue := math_Floor maxValue in
  (toUint64Clamp minValue, toUint64Clamp maxValue).

Definition matchFloat64ByRange (bs : blockSearch) (ch : columnHeader) (bm : bitmap)
    (minValue maxValue : float64) : option bitmap :=
  if f64_gt minValue (math_Float64frombits (ch_maxValue ch))
     || f64_lt maxValue (math_Float64frombits (ch_minValue ch))
  then Some (resetBits bm)
  else
    visitValues bs ch bm (λ v,
      if decide (String.length v ≠ 8%nat) then None
      else
        let n := unmarshalUint v in
        let f := math_Float64frombits n in
        Some (f64_ge f minValue && f64_le f maxValue)).

Definition matchValuesDictByRange (bs : blockSearch) (ch : columnHeader) (bm : bitmap)
    (minValue maxValue : float64) : option bitmap :=
  let bb := dictMatches (λ v, matchRange v minValue maxValue) (ch_valuesDict ch) in
  matchEncodedValuesDict bs ch bm bb.

Definition matchStringByRange (bs : blockSearch) (ch : columnHeader) (bm : bitmap)
    (minValue maxValue : float64) : option bitmap :=
  visitValues bs ch bm (λ v, Some (matchRange v minValue maxValue)).

(** The four uintN matchers differ only in the width they check. *)
Definition matchUintByRange (width : nat) (bs : blockSearch) (ch : columnHeader)
    (bm : bitmap) (minValue maxValue : float64) : option bitmap :=
  let '(minValueUint, maxValueUint) := toUint64Range minValue maxValue in
  if f64_lt maxValue (f64_of_Z 0)
     || (minValueUint >? ch_maxValue ch) || (maxValueUint <? ch_minValue ch)
  then Some (resetBits bm)
  else
    visitValues bs ch bm (λ v,
      if decide (String.length v ≠ width) then None
      else
        let n := unmarshalUint v in
        Some ((n >=? minValueUint) && (n <=? maxValueUint))).

Definition matchUint8ByRange := matchUintByRange 1.
Definition matchUint16ByRange := matchUintByRange 2.
Definition matchUint32ByRange := matchUintByRange 4.
Definition matchUint64ByRange := matchUintByRange 8.

Definition filterRange_apply (fr : filterRange) : filter_apply := λ bs bm,
  let fieldName := fr_fieldName fr in
  let minValue := fr_minValue fr in
  let maxValue := fr_maxValue fr in
  if f64_gt minValue maxValue then Some (resetBits bm)
  else
    let v := getConstColumnValue bs fieldName in
    if str_nonempty v then
      (if negb (matchRange v minValue maxValue) then Some (resetBits bm) else Some bm)
    else
      match getColumnHeader bs fieldName with
      | None => Some (resetBits bm)
      | Some ch =>
          match ch_valueType ch with
          | valueTypeString => matchStringByRange bs ch bm minValue maxValue
          | valueTypeDict => matchValuesDictByRange bs ch bm minValue maxValue
          | valueTypeUint8 => matchUint8ByRange bs ch bm minValue maxValue
          | valueTypeUint16 => matchUint16ByRange bs ch bm minValue maxValue
          | valueTypeUint32 => matchUint32ByRange bs ch bm minValue maxValue
          | valueTypeUint64 => matchUint64ByRange bs ch bm minValue maxValue
          | valueTypeFloat64 => matchFloat64ByRange bs ch bm minValue maxValue
          | valueTypeIPv4 => Some (resetBits bm)
          | valueTypeTimestampISO8601 => Some (resetBits bm)
          end
      end.

(** *** filterStringRange *)

(** The header pre-check shared by the numeric matchers: the bounds are
    compared with the strings ["9"] and [lowest]. *)
Definition stringRangeScan (lowest : string) (toString : string → option string)
    (bs : blockSearch) (ch : columnHeader) (bm : bitmap)
    (minValue maxValue : string) : option bitmap :=
  if str_gt minValue "9" || str_lt maxValue lowest then Some (resetBits bm)
  else
    visitValues bs ch bm (λ v,
      s ← toString v;
      Some (matchStringRange s minValue maxValue)).

Definition matchTimestampISO8601ByStringRange :=
  stringRangeScan "0" toTimestampISO8601StringExt.
Definition matchIPv4ByStringRange := stringRangeScan "0" toIPv4StringExt.
Definition matchFloat64ByStringRange := stringRangeScan "+" toFloat64StringExt.
Definition matchUint8ByStringRange := stringRangeScan "0" toUint8String.
Definition matchUint16ByStringRange := stringRangeScan "0" toUint16String.
Definition matchUint32ByStringRange := stringRangeScan "0" toUint32String.
Definition matchUint64ByStringRange := stringRangeScan "0" toUint64String.

Definition matchValuesDictByStringRange (bs : blockSearch) (ch : columnHeader)
    (bm : bitmap) (minValue maxValue : string) : option bitmap :=
  let bb := dictMatches (λ v, matchStringRange v minValue maxValue) (ch_valuesDict ch) in
  matchEncodedValuesDict bs ch bm bb.

Definition matchStringByStringRange (bs : blockSearch) (ch : columnHeader)
    (bm : bitmap) (minValue maxValue : string) : option bitmap :=
  visitValues bs ch bm (λ v, Some (matchStringRange v minValue maxValue)).

Definition filterStringRange_apply (fr : filterStringRange) : filter_apply := λ bs bm,
  let fieldName := fsr_fieldName fr in
  let minValue := fsr_minValue fr in
  let maxValue := fsr_maxValue fr in
  if str_gt minValue maxValue then Some (resetBits bm)
  else
    let v := getConstColumnValue bs fieldName in
    if str_nonempty v then
      (if negb (matchStringRange v minValue maxValue) then Some (resetBits bm) else Some bm)
    else
      match getColumnHeader bs fieldName with
      | None =>
          if negb (matchStringRange "" minValue maxValue) then Some (resetBits bm)
          else Some bm
      | Some ch =>
          match ch_valueType ch with
          | valueTypeString => matchStringByStringRange bs ch bm minValue maxValue
          | valueTypeDict => matchValuesDictByStringRange bs ch bm minValue maxValue
          | valueTypeUint8 => matchUint8ByStringRange bs ch bm minValue maxValue
          | valueTypeUint16 => matchUint16ByStringRange bs ch bm minValue maxValue
          | valueTypeUint32 => matchUint32ByStringRange bs ch bm minValue maxValue
          | valueTypeUint64 => matchUint64ByStringRange bs ch bm minValue maxValue
          | valueTypeFloat64 => matchFloat64ByStringRange bs ch bm minValue maxValue
          | valueTypeIPv4 => matchIPv4ByStringRange bs ch bm minValue maxValue
          | valueTypeTimestampISO8601 =>
              matchTimestampISO8601ByStringRange bs ch bm minValue maxValue
          end
      end.

(** *** filterAnyCasePhrase *)

(** The [sync.Once] fields memoise pure functions of the phrase. *)
Definition getTokens (fp : filterAnyCasePhrase) : list string :=
  tokenizeStrings [fp_phrase fp].

Definition getPhraseLowercase (fp : filterAnyCasePhrase) : string :=
  strings_ToLower (fp_phrase fp).

Definition matchAnyCasePhrase (s phraseLowercase : string) : bool :=
  if decide (String.length phraseLowercase = 0%nat) then
    bool_decide (String.length s = 0%nat)
  else if (String.length s <? String.length phraseLowercase)%nat then false
  else if isASCIILowercase s then matchPhrase s phraseLowercase
  else
    let sLowercase := stringsutil_AppendLowercase s in
    matchPhrase sLowercase phraseLowercase.

Definition matchValuesDictByAnyCasePhrase (bs : blockSearch) (ch : columnHeader)
    (bm : bitmap) (phraseLowercase : string) : option bitmap :=
  let bb := dictMatches (λ v, matchAnyCasePhrase v phraseLowercase) (ch_valuesDict ch) in
  matchEncodedValuesDict bs ch bm bb.

Definition matchStringByAnyCasePhrase (bs : blockSearch) (ch : columnHeader)
    (bm : bitmap) (phraseLowercase : string) : option bitmap :=
  visitValues bs ch bm (λ v, Some (matchAnyCasePhrase v phraseLowercase)).

(** Byte width of an encoded value of a fixed-width column type. *)
Definition encodedWidth (vt : valueType) : option nat :=
  match vt with
  | valueTypeString => None
  | valueTypeDict => Some 1%nat
  | valueTypeUint8 => Some 1%nat
  | valueTypeUint16 => Some 2%nat
  | valueTypeUint32 => Some 4%nat
  | valueTypeUint64 => Some 8%nat
  | valueTypeFloat64 => Some 8%nat
  | valueTypeIPv4 => Some 4%nat
  | valueTypeTimestampISO8601 => Some 8%nat
  end.

(** Modelled from the spec: matchUint8ByExactValue ...
    matchTimestampISO8601ByPhrase are not among the sources.  A typed
    matcher follows the evaluator's steps: a pre-scan of the header and
    of the phrase tokens that may clear the whole bitmap ("resetBits and
    return without scanning"), then the typed scan, where "forEachSetBit
    clears bits whose predicate returns false" and a value of the wrong
    length is fatal. *)
Definition typedPhraseScan (vt : valueType) (bs : blockSearch) (ch : columnHeader)
    (bm : bitmap) (phrase : string) (tokens : list string) : option bitmap :=
  if negb (typedPrescan vt bs ch phrase tokens) then Some (resetBits bm)
  else
    visitValues bs ch bm (λ v,
      if decide (Some (String.length v) = encodedWidth vt)
      then Some (typedMatch vt phrase v)
      else None).

Definition matchUint8ByExactValue := typedPhraseScan valueTypeUint8.
Definition matchUint16ByExactValue := typedPhraseScan valueTypeUint16.
Definition matchUint32ByExactValue := typedPhraseScan valueTypeUint32.
Definition matchUint64ByExactValue := typedPhraseScan valueTypeUint64.
Definition matchFloat64ByPhrase := typedPhraseScan valueTypeFloat64.
Definition matchIPv4ByPhrase := typedPhraseScan valueTypeIPv4.
Definition matchTimestampISO8601ByPhrase := typedPhraseScan valueTypeTimestampISO8601.

Definition filterAnyCasePhrase_apply (fp : filterAnyCasePhrase) : filter_apply := λ bs bm,
  let fieldName := fp_fieldName fp in
  let phraseLowercase := getPhraseLowercase fp in
  let v := getConstColumnValue bs fieldName in
  if str_nonempty v then
    (if negb (matchAnyCasePhrase v phraseLowercase) then Some (resetBits bm) else Some bm)
  else
    match getColumnHeader bs fieldName with
    | None =>
        if (0 <? String.length phraseLowercase)%nat then Some (resetBits bm)
        else Some bm
    | Some ch =>
        let tokens := getTokens fp in
        match ch_valueType ch with
        | valueTypeString => matchStringByAnyCasePhrase bs ch bm phraseLowercase
        | valueTypeDict => matchValuesDictByAnyCasePhrase bs ch bm phraseLowercase
        | valueTypeUint8 => matchUint8ByExactValue bs ch bm phraseLowercase tokens
        | valueTypeUint16 => matchUint16ByExactValue bs ch bm phraseLowercase tokens
        | valueTypeUint32 => matchUint32ByExactValue bs ch bm phraseLowercase tokens
        | valueTypeUint64 => matchUint64ByExactValue bs ch bm phraseLowercase tokens
        | valueTypeFloat64 => matchFloat64ByPhrase bs ch bm phraseLowercase tokens
        | valueTypeIPv4 => matchIPv4ByPhrase bs ch bm phraseLowercase tokens
        | valueTypeTimestampISO8601 =>
            let phraseUppercase := strings_ToUpper (fp_phrase fp) in
            matchTimestampISO8601ByPhrase bs ch bm phraseUppercase tokens
        end
    end.

(** *** filterNot and filterOr

    [getBitmap]/[putBitmap] borrow zeroed scratch bitmaps from a pool;
    [bmTmp.copyFrom(bm)] makes [bmTmp] a private copy of [bm]. *)

(** Modelled from the spec: the operation copyFrom of the bitmap. *)
Definition copyFrom (src : bitmap) : bitmap := src.

Definition filterNot_apply (f : filter_apply) : filter_apply := λ bs bm,
  let bmTmp := copyFrom bm in
  bmTmp ← f bs bmTmp;
  andNot bm bmTmp.

Fixpoint filterOr_loop (filters : list filter_apply) (bs : blockSearch)
    (bm bmResult : bitmap) : option bitmap :=
  match filters with
  | [] => Some bmResult
  | f :: rest =>
      let bmTmp := copyFrom bm in
      bmTmp ← andNot bmTmp bmResult;
      if isZero bmTmp then Some bmResult
      else
        bmTmp ← f bs bmTmp;
        bmResult ← or bmResult bmTmp;
        filterOr_loop rest bs bm bmResult
  end.

Definition filterOr_apply (filters : list filter_apply) : filter_apply := λ bs bm,
  let bmResult := getBitmap (bitsLen bm) in
  bmResult ← filterOr_loop filters bs bm bmResult;
  Some (copyFrom bmResult).

(** The scheme the incremental loop is compared with: every branch gets a
    full private copy of [bm] and the results are united. *)
Fixpoint filterOr_full (filters : list filter_apply) (bs : blockSearch)
    (bm bmResult : bitmap) : option bitmap :=
  match filters with
  | [] => Some bmResult
  | f :: rest =>
      bmTmp ← f bs (copyFrom bm);
      bmResult ← or bmResult bmTmp;
      filterOr_full rest bs bm bmResult
  end.


(** *** Contracts *)

(** "The filter must CLEAR bits for non-matching rows and MUST NOT set
    previously-cleared bits." *)
Definition only_clears (f : filter_apply) : Prop :=
  ∀ bs bm bm', f bs bm = Some bm' → bits_subset bm' bm.

(** The data-model invariants of a column over [n] rows: one encoded value
    per row, of the width of the column type. *)
Definition column_ok (bs : blockSearch) (ch : columnHeader) (n : nat) : Prop :=
  length (getValuesForColumn bs ch) = n ∧
  ∀ v w, v ∈ getValuesForColumn bs ch →
         encodedWidth (ch_valueType ch) = Some w → String.length v = w.

Definition field_ok (bs : blockSearch) (fieldName : string) (n : nat) : Prop :=
  ∀ ch, getColumnHeader bs fieldName = Some ch → column_ok bs ch n.

(** [f] returns (does not panic) on every bitmap of [n] rows of the block. *)
Definition returns_on (f : filter_apply) (bs : blockSearch) (n : nat) : Prop :=
  ∀ bm, length bm = n → is_Some (f bs bm).

(** [f] acts on the bitmaps of the block ([n] rows) as intersection with a
    fixed set of matching rows, given by its indicator [P]. *)
Definition acts_as_intersection (f : filter_apply) (bs : blockSearch) (n : nat)
    (P : nat → bool) : Prop :=
  ∀ bm, length bm = n → f bs bm = Some (keepRows P bm).

(** Indicator of the union of the sets [Ps]. *)
Definition unionRows (Ps : list (nat → bool)) (i : nat) : bool :=
  existsb (λ P : nat → bool, P i) Ps.

(** *** Integer range of the numeric filter, as the specification words it *)

(** "clamped to [0, 2⁶⁴−1]" *)
Definition clampUint64 (z : Z) : Z := Z.max 0 (Z.min z maxUint64).

(** clamp(ceil(f)) and clamp(floor(f)); an infinite bound clamps to the
    end of the range on its side, and NaN, which has no ceiling, is given 0. *)
Definition clampCeil (f : float64) : Z :=
  match f with
  | Fin q => clampUint64 (Qceiling q)
  | Inf true => 0
  | Inf false => maxUint64
  | NaN => 0
  end.

Definition clampFloor (f : float64) : Z :=
  match f with
  | Fin q => clampUint64 (Qfloor q)
  | Inf true => 0
  | Inf false => maxUint64
  | NaN => 0
  end.

(** "maxValue ≥ 0 and clamp(ceil(minValue)) ≤ n ≤ clamp(floor(maxValue))" *)
Definition inUintRange (minValue maxValue : float64) (n : Z) : bool :=
  f64_ge maxValue (f64_of_Z 0)
  && (clampCeil minValue <=? n) && (n <=? clampFloor maxValue).

Definition isUintType (vt : valueType) : bool :=
  match vt with
  | valueTypeUint8 | valueTypeUint16 | valueTypeUint32 | valueTypeUint64 => true
  | _ => false
  end.

(** The decoded values of a uintN column, row by row. *)
Definition uintAtRow (bs : blockSearch) (ch : columnHeader) (i : nat) : option Z :=
  unmarshalUint <$> getValuesForColumn bs ch !! i.

(** ** Bitmap lemmas *)

Lemma length_resetBits bm : length (resetBits bm) = length bm.
Proof. unfold resetBits, bitsLen. by rewrite length_replicate. Qed.

Lemma lookup_resetBits_true bm i : resetBits bm !! i = Some true → False.
Proof.
  unfold resetBits. intros H. apply lookup_replicate in H as [? _]. done.
Qed.

Lemma bits_subset_refl bm : bits_subset bm bm.
Proof. by split. Qed.

Lemma bits_subset_trans a b c : bits_subset a b → bits_subset b c → bits_subset a c.
Proof. intros [? ?] [? ?]. split; [congruence | eauto]. Qed.

Lemma bits_subset_resetBits bm : bits_subset (resetBits bm) bm.
Proof.
  split; [apply length_resetBits |].
  intros i H. by apply lookup_resetBits_true in H.
Qed.

Lemma forEachSetBit_from_lookup f bm : ∀ idx bm',
  forEachSetBit_from idx f bm = Some bm' →
  length bm' = length bm ∧
  ∀ j, bm' !! j = match bm !! j with
                  | Some true => f (idx + j)%nat
                  | Some false => Some false
                  | None => None
                  end.
Proof.
  induction bm as [| b rest IH]; intros idx bm' H; simpl in H.
  - simplify_eq. split; [done |]. by intros [|?].
  - destruct (if b then f idx else Some false) as [keep |] eqn:Hk; simpl in H; [| done].
    destruct (forEachSetBit_from (S idx) f rest) as [rest' |] eqn:Hr; simpl in H; [| done].
    simplify_eq. destruct (IH _ _ Hr) as [Hlen Hj]. split; [simpl; lia |].
    intros [| j]; simpl.
    + destruct b; [by rewrite Nat.add_0_r | done].
    + rewrite Hj. by replace (S idx + j)%nat with (idx + S j)%nat by lia.
Qed.

Lemma forEachSetBit_from_is_Some f bm : ∀ idx,
  (∀ j, bm !! j = Some true → is_Some (f (idx + j)%nat)) →
  is_Some (forEachSetBit_from idx f bm).
Proof.
  induction bm as [| b rest IH]; intros idx H; simpl; [done |].
  assert (is_Some (if b then f idx else Some false)) as [keep ->].
  { destruct b; [| done]. specialize (H 0%nat eq_refl). by rewrite Nat.add_0_r in H. }
  simpl. destruct (IH (S idx)) as [rest' ->]; [| done].
  intros j Hj. specialize (H (S j) Hj).
  by replace (S idx + j)%nat with (idx + S j)%nat by lia.
Qed.

Lemma forEachSetBit_subset f bm bm' :
  forEachSetBit f bm = Some bm' → bits_subset bm' bm.
Proof.
  intros H. apply forEachSetBit_from_lookup in H as [Hlen Hj].
  split; [done |]. intros j. rewrite Hj.
  destruct (bm !! j) as [[|] |]; done.
Qed.

Lemma lookup_keepRows P bm i :
  keepRows P bm !! i = (λ b, b && P i) <$> bm !! i.
Proof. unfold keepRows. by rewrite list_lookup_imap. Qed.

Lemma length_keepRows P bm : length (keepRows P bm) = length bm.
Proof. unfold keepRows. by rewrite length_imap. Qed.

Lemma bits_subset_keepRows P bm : bits_subset (keepRows P bm) bm.
Proof.
  split; [apply length_keepRows |].
  intros i. rewrite lookup_keepRows.
  destruct (bm !! i) as [[|] |]; simpl; [| done | done].
  destruct (P i); done.
Qed.

(** A scan whose callback never panics keeps exactly the rows it accepts. *)
Lemma forEachSetBit_pure (P : nat → bool) bm :
  forEachSetBit (λ i, Some (P i)) bm = Some (keepRows P bm).
Proof.
  destruct (forEachSetBit_from_is_Some (λ i, Some (P i)) bm 0) as [bm' H]; [done |].
  unfold forEachSetBit. rewrite H. f_equal.
  apply forEachSetBit_from_lookup in H as [Hlen Hj].
  apply list_eq. intros j. rewrite Hj, lookup_keepRows.
  destruct (bm !! j) as [[|] |]; done.
Qed.

Lemma andNot_Some bm x :
  length bm = length x →
  andNot bm x = Some (zip_with (λ a b, a && negb b) bm x).
Proof. intros H. unfold andNot, bitsLen. by rewrite decide_True. Qed.

Lemma or_Some bm x :
  length bm = length x → or bm x = Some (zip_with orb bm x).
Proof. intros H. unfold or, bitsLen. by rewrite decide_True. Qed.

Lemma andNot_inv bm x r :
  andNot bm x = Some r →
  length bm = length x ∧ r = zip_with (λ a b, a && negb b) bm x.
Proof. unfold andNot, bitsLen. case_decide; [by intros [= <-] | done]. Qed.

Lemma or_inv bm x r :
  or bm x = Some r → length bm = length x ∧ r = zip_with orb bm x.
Proof. unfold or, bitsLen. case_decide; [by intros [= <-] | done]. Qed.

Lemma bits_subset_andNot bm x r : andNot bm x = Some r → bits_subset r bm.
Proof.
  intros [Hlen ->]%andNot_inv. split.
  - rewrite length_zip_with. lia.
  - intros i. rewrite lookup_zip_with.
    destruct (bm !! i) as [[|] |], (x !! i) as [[|] |]; done.
Qed.

Lemma bits_subset_or a b bm r :
  bits_subset a bm → bits_subset b bm → or a b = Some r → bits_subset r bm.
Proof.
  intros [Ha Ha'] [Hb Hb'] [Hlen ->]%or_inv. split.
  - rewrite length_zip_with. lia.
  - intros i. rewrite lookup_zip_with. specialize (Ha' i). specialize (Hb' i).
    destruct (a !! i) as [[|] |], (b !! i) as [[|] |]; simpl; try done;
      intros _; first [by apply Ha' | by apply Hb'].
Qed.

Lemma bits_subset_getBitmap bm : bits_subset (getBitmap (bitsLen bm)) bm.
Proof. apply bits_subset_resetBits. Qed.

(** ** Scans only clear bits *)

Lemma visitValues_subset bs ch bm f bm' :
  visitValues bs ch bm f = Some bm' → bits_subset bm' bm.
Proof. apply forEachSetBit_subset. Qed.

Lemma matchEncodedValuesDict_subset bs ch bm bb bm' :
  matchEncodedValuesDict bs ch bm bb = Some bm' → bits_subset bm' bm.
Proof.
  unfold matchEncodedValuesDict. destruct bb.
  - intros [= <-]. apply bits_subset_resetBits.
  - apply visitValues_subset.
Qed.

Lemma visitValues_is_Some bs ch bm f :
  length (getValuesForColumn bs ch) = length bm →
  (∀ v, v ∈ getValuesForColumn bs ch → is_Some (f v)) →
  is_Some (visitValues bs ch bm f).
Proof.
  intros Hlen Hf. apply forEachSetBit_from_is_Some. intros j Hj. simpl.
  destruct (lookup_lt_is_Some_2 (getValuesForColumn bs ch) j) as [v Hv].
  { rewrite Hlen. by apply lookup_lt_Some in Hj. }
  rewrite Hv. simpl. apply Hf. by eapply list_elem_of_lookup_2.
Qed.

Lemma length_one_inv v : String.length v = 1%nat → ∃ c, v = String c EmptyString.
Proof. destruct v as [| c [| ? ?]]; [done | by exists c | done]. Qed.

Lemma matchEncodedValuesDict_is_Some bs ch bm bb :
  column_ok bs ch (length bm) → ch_valueType ch = valueTypeDict →
  is_Some (matchEncodedValuesDict bs ch bm bb).
Proof.
  intros [Hlen Hw] Hvt. unfold matchEncodedValuesDict. destruct bb; [done |].
  apply visitValues_is_Some; [done |]. intros v Hv.
  destruct (length_one_inv v) as [c ->]; [| done].
  apply Hw; [done |]. by rewrite Hvt.
Qed.

Lemma matchUintByRange_subset width bs ch bm minValue maxValue bm' :
  matchUintByRange width bs ch bm minValue maxValue = Some bm' → bits_subset bm' bm.
Proof.
  unfold matchUintByRange. destruct (toUint64Range _ _). case_match.
  - intros [= <-]. apply bits_subset_resetBits.
  - apply visitValues_subset.
Qed.

Lemma matchFloat64ByRange_subset bs ch bm minValue maxValue bm' :
  matchFloat64ByRange bs ch bm minValue maxValue = Some bm' → bits_subset bm' bm.
Proof.
  unfold matchFloat64ByRange. case_match.
  - intros [= <-]. apply bits_subset_resetBits.
  - apply visitValues_subset.
Qed.

Lemma stringRangeScan_subset lowest toString bs ch bm minValue maxValue bm' :
  stringRangeScan lowest toString bs ch bm minValue maxValue = Some bm' →
  bits_subset bm' bm.
Proof.
  unfold stringRangeScan. case_match.
  - intros [= <-]. apply bits_subset_resetBits.
  - apply visitValues_subset.
Qed.

Lemma typedPhraseScan_subset vt bs ch bm phrase tokens bm' :
  typedPhraseScan vt bs ch bm phrase tokens = Some bm' → bits_subset bm' bm.
Proof.
  unfold typedPhraseScan. case_match.
  - intros [= <-]. apply bits_subset_resetBits.
  - apply visitValues_subset.
Qed.

Lemma const_path_subset (ok : bool) bm bm' :
  (if negb ok then Some (resetBits bm) else Some bm) = Some bm' → bits_subset bm' bm.
Proof.
  destruct ok; intros [= <-]; [apply bits_subset_refl | apply bits_subset_resetBits].
Qed.

Create HintDb clears.

#[local] Hint Resolve bits_subset_resetBits bits_subset_refl visitValues_subset
  matchEncodedValuesDict_subset matchUintByRange_subset matchFloat64ByRange_subset
  stringRangeScan_subset typedPhraseScan_subset const_path_subset : clears.

Lemma filterRange_only_clears fr : only_clears (filterRange_apply fr).
Proof.
  intros bs bm bm'. unfold filterRange_apply.
  destruct (f64_gt _ _); [intros [= <-]; auto with clears |].
  destruct (str_nonempty _); [eauto with clears |].
  destruct (getColumnHeader _ _) as [ch |]; [| intros [= <-]; auto with clears].
  destruct (ch_valueType ch);
    unfold matchStringByRange, matchValuesDictByRange, matchUint8ByRange,
      matchUint16ByRange, matchUint32ByRange, matchUint64ByRange;
    try (intros [= <-]); eauto with clears.
Qed.

Lemma filterStringRange_only_clears fr : only_clears (filterStringRange_apply fr).
Proof.
  intros bs bm bm'. unfold filterStringRange_apply.
  destruct (str_gt _ _); [intros [= <-]; auto with clears |].
  destruct (str_nonempty _); [eauto with clears |].
  destruct (getColumnHeader _ _) as [ch |]; [| eauto with clears].
  destruct (ch_valueType ch);
    unfold matchStringByStringRange, matchValuesDictByStringRange,
      matchUint8ByStringRange, matchUint16ByStringRange, matchUint32ByStringRange,
      matchUint64ByStringRange, matchFloat64ByStringRange, matchIPv4ByStringRange,
      matchTimestampISO8601ByStringRange;
    eauto with clears.
Qed.

Lemma filterAnyCasePhrase_only_clears fp : only_clears (filterAnyCasePhrase_apply fp).
Proof.
  intros bs bm bm'. unfold filterAnyCasePhrase_apply.
  destruct (str_nonempty _); [eauto with clears |].
  destruct (getColumnHeader _ _) as [ch |].
  - destruct (ch_valueType ch);
      unfold matchStringByAnyCasePhrase, matchValuesDictByAnyCasePhrase,
        matchUint8ByExactValue, matchUint16ByExactValue, matchUint32ByExactValue,
        matchUint64ByExactValue, matchFloat64ByPhrase, matchIPv4ByPhrase,
        matchTimestampISO8601ByPhrase;
      eauto with clears.
  - case_match; intros [= <-]; auto with clears.
Qed.

Lemma filterNot_only_clears f : only_clears (filterNot_apply f).
Proof.
  intros bs bm bm'. unfold filterNot_apply, copyFrom.
  destruct (f bs bm) as [bmTmp |]; simpl; [| done].
  apply bits_subset_andNot.
Qed.

Lemma filterOr_loop_subset filters bs bm :
  Forall only_clears filters →
  ∀ bmResult bm', bits_subset bmResult bm →
    filterOr_loop filters bs bm bmResult = Some bm' → bits_subset bm' bm.
Proof.
  induction 1 as [| f rest Hf _ IH]; intros bmResult bm' Hres; simpl.
  - by intros [= <-].
  - unfold copyFrom.
    destruct (andNot bm bmResult) as [bmTmp |] eqn:Hand; simpl; [| done].
    destruct (isZero bmTmp); [by intros [= <-] |].
    destruct (f bs bmTmp) as [bmTmp' |] eqn:Happ; simpl; [| done].
    destruct (or bmResult bmTmp') as [bmResult' |] eqn:Hor; simpl; [| done].
    apply IH. eapply bits_subset_or; [done | | done].
    eapply bits_subset_trans; [by eapply Hf | by eapply bits_subset_andNot].
Qed.

Lemma filterOr_only_clears filters :
  Forall only_clears filters → only_clears (filterOr_apply filters).
Proof.
  intros Hfs bs bm bm'. unfold filterOr_apply, copyFrom.
  destruct (filterOr_loop _ _ _ _) as [r |] eqn:Hloop; simpl; [| done].
  intros [= <-]. eapply filterOr_loop_subset; [done | | done].
  apply bits_subset_getBitmap.
Qed.

(** ** Scans return on well-formed columns *)

Lemma scan_is_Some bs ch bm f :
  column_ok bs ch (length bm) →
  (∀ v, (∀ w, encodedWidth (ch_valueType ch) = Some w → String.length v = w) →
        is_Some (f v)) →
  is_Some (visitValues bs ch bm f).
Proof.
  intros [Hlen Hw] Hf. apply visitValues_is_Some; [done |].
  intros v Hv. apply Hf. intros w. by apply Hw.
Qed.

Lemma toIPv4StringExt_is_Some v : String.length v = 4%nat → is_Some (toIPv4StringExt v).
Proof. destruct v as [| a [| b [| c [| d [| ? ?]]]]]; done. Qed.

Lemma matchUintByRange_is_Some width bs ch bm minValue maxValue :
  column_ok bs ch (length bm) → encodedWidth (ch_valueType ch) = Some width →
  is_Some (matchUintByRange width bs ch bm minValue maxValue).
Proof.
  intros Hok Hw. unfold matchUintByRange. destruct (toUint64Range _ _).
  case_match; [done |]. apply scan_is_Some; [done |].
  intros v Hv. rewrite decide_False; [done |]. intros Hne. by apply Hne, Hv.
Qed.

Lemma stringRangeScan_is_Some w lowest toString bs ch bm minValue maxValue :
  column_ok bs ch (length bm) → encodedWidth (ch_valueType ch) = Some w →
  (∀ v, String.length v = w → is_Some (toString v)) →
  is_Some (stringRangeScan lowest toString bs ch bm minValue maxValue).
Proof.
  intros Hok Hw Hts. unfold stringRangeScan. case_match; [done |].
  apply scan_is_Some; [done |]. intros v Hv.
  destruct (Hts v (Hv w Hw)) as [s ->]. done.
Qed.

Lemma toUintString_is_Some width v : String.length v = width → is_Some (toUintString width v).
Proof. intros H. unfold toUintString. by rewrite decide_True. Qed.

Lemma typedPhraseScan_is_Some w bs ch bm phrase tokens :
  column_ok bs ch (length bm) → encodedWidth (ch_valueType ch) = Some w →
  is_Some (typedPhraseScan (ch_valueType ch) bs ch bm phrase tokens).
Proof.
  intros Hok Hw. unfold typedPhraseScan. case_match; [done |].
  apply scan_is_Some; [done |]. intros v Hv.
  rewrite decide_True; [done |]. rewrite Hw. f_equal. by apply Hv.
Qed.

Lemma filterRange_returns fr bs n :
  field_ok bs (fr_fieldName fr) n → returns_on (filterRange_apply fr) bs n.
Proof.
  intros Hok bm Hn. unfold filterRange_apply.
  destruct (f64_gt _ _); [done |].
  destruct (str_nonempty _); [by destruct (negb _) |].
  destruct (getColumnHeader _ _) as [ch |] eqn:Hch; [| done].
  specialize (Hok ch Hch). rewrite <- Hn in Hok.
  destruct (ch_valueType ch) eqn:Hvt; try done.
  - apply scan_is_Some; [done |]. done.
  - by apply matchEncodedValuesDict_is_Some.
  - apply matchUintByRange_is_Some; [done | by rewrite Hvt].
  - apply matchUintByRange_is_Some; [done | by rewrite Hvt].
  - apply matchUintByRange_is_Some; [done | by rewrite Hvt].
  - apply matchUintByRange_is_Some; [done | by rewrite Hvt].
  - unfold matchFloat64ByRange. case_match; [done |].
    apply scan_is_Some; [done |]. intros v Hv.
    rewrite decide_False; [done |]. intros Hne. apply Hne, Hv. by rewrite Hvt.
Qed.

Lemma filterStringRange_returns fr bs n :
  field_ok bs (fsr_fieldName fr) n → returns_on (filterStringRange_apply fr) bs n.
Proof.
  intros Hok bm Hn. unfold filterStringRange_apply.
  destruct (str_gt _ _); [done |].
  destruct (str_nonempty _); [by destruct (negb _) |].
  destruct (getColumnHeader _ _) as [ch |] eqn:Hch; [| by destruct (negb _)].
  specialize (Hok ch Hch). rewrite <- Hn in Hok.
  destruct (ch_valueType ch) eqn:Hvt.
  - apply scan_is_Some; [done |]. done.
  - by apply matchEncodedValuesDict_is_Some.
  - eapply stringRangeScan_is_Some; [done | by rewrite Hvt | apply toUintString_is_Some].
  - eapply stringRangeScan_is_Some; [done | by rewrite Hvt | apply toUintString_is_Some].
  - eapply stringRangeScan_is_Some; [done | by rewrite Hvt | apply toUintString_is_Some].
  - eapply stringRangeScan_is_Some; [done | by rewrite Hvt | apply toUintString_is_Some].
  - eapply stringRangeScan_is_Some; [done | by rewrite Hvt |].
    intros v Hv. unfold toFloat64StringExt. by rewrite decide_True.
  - eapply stringRangeScan_is_Some; [done | by rewrite Hvt | apply toIPv4StringExt_is_Some].
  - eapply stringRangeScan_is_Some; [done | by rewrite Hvt |].
    intros v Hv. unfold toTimestampISO8601StringExt. by rewrite decide_True.
Qed.

Lemma filterAnyCasePhrase_returns fp bs n :
  field_ok bs (fp_fieldName fp) n → returns_on (filterAnyCasePhrase_apply fp) bs n.
Proof.
  intros Hok bm Hn. unfold filterAnyCasePhrase_apply.
  destruct (str_nonempty _); [by destruct (negb _) |].
  destruct (getColumnHeader _ _) as [ch |] eqn:Hch; [| by case_match].
  specialize (Hok ch Hch). rewrite <- Hn in Hok.
  destruct (ch_valueType ch) eqn:Hvt.
  - apply scan_is_Some; [done |]. done.
  - by apply matchEncodedValuesDict_is_Some.
  - unfold matchUint8ByExactValue. rewrite <- Hvt.
    eapply typedPhraseScan_is_Some; [done | by rewrite Hvt].
  - unfold matchUint16ByExactValue. rewrite <- Hvt.
    eapply typedPhraseScan_is_Some; [done | by rewrite Hvt].
  - unfold matchUint32ByExactValue. rewrite <- Hvt.
    eapply typedPhraseScan_is_Some; [done | by rewrite Hvt].
  - unfold matchUint64ByExactValue. rewrite <- Hvt.
    eapply typedPhraseScan_is_Some; [done | by rewrite Hvt].
  - unfold matchFloat64ByPhrase. rewrite <- Hvt.
    eapply typedPhraseScan_is_Some; [done | by rewrite Hvt].
  - unfold matchIPv4ByPhrase. rewrite <- Hvt.
    eapply typedPhraseScan_is_Some; [done | by rewrite Hvt].
  - unfold matchTimestampISO8601ByPhrase. rewrite <- Hvt.
    eapply typedPhraseScan_is_Some; [done | by rewrite Hvt].
Qed.

Lemma filterNot_returns f bs n :
  only_clears f → returns_on f bs n → returns_on (filterNot_apply f) bs n.
Proof.
  intros Hf Hret bm Hn. unfold filterNot_apply, copyFrom.
  destruct (Hret bm Hn) as [bmTmp Happ]. rewrite Happ. simpl.
  destruct (Hf _ _ _ Happ) as [Hlen _]. by rewrite andNot_Some.
Qed.

Lemma filterOr_loop_returns filters bs bm :
  Forall only_clears filters →
  Forall (λ f, returns_on f bs (length bm)) filters →
  ∀ bmResult, length bmResult = length bm →
    is_Some (filterOr_loop filters bs bm bmResult).
Proof.
  induction 1 as [| f rest Hf _ IH]; intros Hret bmResult Hlen; simpl; [done |].
  apply Forall_cons in Hret as [Hret Hrest]. unfold copyFrom.
  rewrite andNot_Some by done. simpl.
  destruct (isZero _); [done |].
  destruct (Hret (zip_with (λ a b, a && negb b) bm bmResult)) as [bmTmp Happ].
  { rewrite length_zip_with. lia. }
  rewrite Happ. simpl. destruct (Hf _ _ _ Happ) as [Hlen' _].
  rewrite length_zip_with in Hlen'.
  rewrite or_Some by lia. simpl. apply IH; [done |].
  rewrite length_zip_with. lia.
Qed.

Lemma filterOr_returns filters bs n :
  Forall only_clears filters →
  Forall (λ f, returns_on f bs n) filters →
  returns_on (filterOr_apply filters) bs n.
Proof.
  intros Hfs Hret bm Hn. unfold filterOr_apply. subst n.
  destruct (filterOr_loop_returns filters bs bm Hfs Hret (getBitmap (bitsLen bm)))
    as [r ->]; [| done].
  unfold getBitmap, bitsLen. by rewrite length_replicate.
Qed.

(** ** filterNot and filterOr as set operations *)

Lemma keepRows_ext P Q bm :
  (∀ i, bm !! i = Some true → P i = Q i) → keepRows P bm = keepRows Q bm.
Proof.
  intros H. apply list_eq. intros i. rewrite !lookup_keepRows.
  destruct (bm !! i) as [[|] |] eqn:Hi; simpl; [| done | done].
  by rewrite H.
Qed.

Lemma keepRows_keepRows P Q bm :
  keepRows P (keepRows Q bm) = keepRows (λ i, Q i && P i) bm.
Proof.
  apply list_eq. intros i. rewrite !lookup_keepRows.
  destruct (bm !! i) as [b |]; simpl; [| done]. by rewrite andb_assoc.
Qed.

Lemma andNot_keepRows Q bm :
  andNot bm (keepRows Q bm) = Some (keepRows (λ i, negb (Q i)) bm).
Proof.
  rewrite andNot_Some by (by rewrite length_keepRows). f_equal.
  apply list_eq. intros i. rewrite lookup_zip_with, !lookup_keepRows.
  destruct (bm !! i) as [[|] |]; simpl; [| done | done].
  by destruct (Q i).
Qed.

Lemma andNot_keepRows_keepRows P Q bm :
  andNot (keepRows P bm) (keepRows Q bm) = Some (keepRows (λ i, P i && negb (Q i)) bm).
Proof.
  rewrite andNot_Some by (by rewrite !length_keepRows). f_equal.
  apply list_eq. intros i. rewrite lookup_zip_with, !lookup_keepRows.
  destruct (bm !! i) as [[|] |]; simpl; [| done | done].
  by destruct (P i), (Q i).
Qed.

Lemma or_keepRows P Q bm :
  or (keepRows P bm) (keepRows Q bm) = Some (keepRows (λ i, P i || Q i) bm).
Proof.
  rewrite or_Some by (by rewrite !length_keepRows). f_equal.
  apply list_eq. intros i. rewrite lookup_zip_with, !lookup_keepRows.
  destruct (bm !! i) as [[|] |]; simpl; done.
Qed.

Lemma isZero_lookup bm : isZero bm = true ↔ ∀ i, bm !! i ≠ Some true.
Proof.
  unfold isZero. rewrite forallb_forall. split.
  - intros H i Hi. apply list_elem_of_lookup_2, list_elem_of_In, H in Hi. done.
  - intros H b Hb. apply list_elem_of_In, list_elem_of_lookup_1 in Hb as [i Hi].
    destruct b; [by apply H in Hi | done].
Qed.

Lemma isZero_keepRows P bm :
  isZero (keepRows P bm) = true → ∀ i, bm !! i = Some true → P i = false.
Proof.
  rewrite isZero_lookup. intros H i Hi. specialize (H i).
  rewrite lookup_keepRows, Hi in H. simpl in H. by destruct (P i).
Qed.

Lemma getBitmap_keepRows bm : getBitmap (bitsLen bm) = keepRows (λ _, false) bm.
Proof.
  apply list_eq. intros i. rewrite lookup_keepRows. unfold getBitmap, bitsLen.
  destruct (bm !! i) as [b |] eqn:Hi; simpl.
  - rewrite andb_false_r. apply lookup_replicate_2. by apply lookup_lt_Some in Hi.
  - apply lookup_ge_None. rewrite length_replicate. by apply lookup_ge_None in Hi.
Qed.

Lemma keepRows_true bm : keepRows (λ _, true) bm = bm.
Proof.
  apply list_eq. intros i. rewrite lookup_keepRows.
  destruct (bm !! i) as [b |]; simpl; [| done]. by rewrite andb_true_r.
Qed.

Lemma filterNot_acts_as f bs n P :
  acts_as_intersection f bs n P →
  acts_as_intersection (filterNot_apply f) bs n (λ i, negb (P i)).
Proof.
  intros Hf bm Hn. unfold filterNot_apply, copyFrom. rewrite Hf by done. simpl.
  apply andNot_keepRows.
Qed.

Lemma filterOr_loop_acts_as bs bm filters Ps :
  Forall2 (λ f P, acts_as_intersection f bs (length bm) P) filters Ps →
  ∀ Q, filterOr_loop filters bs bm (keepRows Q bm)
       = Some (keepRows (λ i, Q i || unionRows Ps i) bm).
Proof.
  induction 1 as [| f P rest Ps' Hf _ IH]; intros Q; simpl.
  - f_equal. apply keepRows_ext. intros i _. by rewrite orb_false_r.
  - unfold copyFrom. rewrite andNot_keepRows. simpl.
    destruct (isZero _) eqn:Hz.
    + f_equal. apply keepRows_ext. intros i Hi.
      apply isZero_keepRows with (i := i) in Hz; [| done].
      apply negb_false_iff in Hz. by rewrite Hz.
    + rewrite Hf by apply length_keepRows. simpl.
      rewrite keepRows_keepRows, or_keepRows. simpl.
      rewrite IH. f_equal. apply keepRows_ext. intros i _.
      unfold unionRows. simpl. destruct (Q i), (P i); done.
Qed.

Lemma filterOr_full_acts_as bs bm filters Ps :
  Forall2 (λ f P, acts_as_intersection f bs (length bm) P) filters Ps →
  ∀ Q, filterOr_full filters bs bm (keepRows Q bm)
       = Some (keepRows (λ i, Q i || unionRows Ps i) bm).
Proof.
  induction 1 as [| f P rest Ps' Hf _ IH]; intros Q; simpl.
  - f_equal. apply keepRows_ext. intros i _. by rewrite orb_false_r.
  - unfold copyFrom. rewrite Hf by done. simpl. rewrite or_keepRows. simpl.
    rewrite IH. f_equal. apply keepRows_ext. intros i _.
    unfold unionRows. simpl. destruct (Q i), (P i); done.
Qed.

(** A scan whose per-value predicate never panics on the column keeps the
    rows whose value it accepts. *)
Lemma visitValues_keepRows bs ch bm f (g : string → bool) :
  length (getValuesForColumn bs ch) = length bm →
  (∀ v, v ∈ getValuesForColumn bs ch → f v = Some (g v)) →
  visitValues bs ch bm f
  = Some (keepRows (λ i, default false (g <$> getValuesForColumn bs ch !! i)) bm).
Proof.
  intros Hlen Hf.
  destruct (visitValues_is_Some bs ch bm f) as [bm' H]; [done | |].
  { intros v Hv. by rewrite Hf. }
  rewrite H. f_equal. apply forEachSetBit_from_lookup in H as [Hl Hj].
  apply list_eq. intros j. rewrite Hj, lookup_keepRows. simpl.
  destruct (bm !! j) as [[|] |] eqn:Hbj; simpl; [| done | done].
  destruct (lookup_lt_is_Some_2 (getValuesForColumn bs ch) j) as [v Hv].
  { rewrite Hlen. by apply lookup_lt_Some in Hbj. }
  rewrite Hv. simpl. rewrite Hf; [done |]. by eapply list_elem_of_lookup_2.
Qed.

Lemma resetBits_keepRows bm : resetBits bm = keepRows (λ _, false) bm.
Proof. apply getBitmap_keepRows. Qed.

(** ** String ranges *)

Lemma ascii_compare_Lt c d : Ascii.compare c d = Lt ↔ (N_of_ascii c < N_of_ascii d)%N.
Proof. unfold Ascii.compare. by rewrite N.compare_lt_iff. Qed.

Lemma ascii_compare_refl c : Ascii.compare c c = Eq.
Proof. unfold Ascii.compare. apply N.compare_refl. Qed.

Lemma string_compare_Lt s : ∀ t, String.compare s t = Lt ↔ bytes_lt s t.
Proof.
  induction s as [| c s IH]; intros [| d t]; simpl.
  - split; [done | inversion 1].
  - split; [constructor | done].
  - split; [done | inversion 1].
  - destruct (Ascii.compare c d) eqn:Hcd.
    + apply Ascii.compare_eq_iff in Hcd as ->. rewrite IH. split.
      * by constructor.
      * inversion 1 as [| ? ? ? ? Hlt | ? ? ? Htl]; subst; [lia | done].
    + split; [| done]. intros _. constructor. by apply ascii_compare_Lt.
    + split; [done |]. inversion 1 as [| ? ? ? ? Hlt | ? ? ? Htl]; subst.
      * apply ascii_compare_Lt in Hlt. congruence.
      * rewrite ascii_compare_refl in Hcd. done.
Qed.

Lemma str_lt_spec s t : str_lt s t = true ↔ bytes_lt s t.
Proof.
  unfold str_lt, String.ltb. rewrite <- string_compare_Lt.
  destruct (String.compare s t); split; done.
Qed.

Lemma string_compare_refl s : String.compare s s = Eq.
Proof. induction s as [| c s IH]; simpl; [done |]. by rewrite ascii_compare_refl. Qed.

Lemma str_le_spec s t : str_le s t = true ↔ bytes_le s t.
Proof.
  unfold str_le, String.leb, bytes_le. rewrite <- string_compare_Lt.
  destruct (String.compare s t) eqn:Hc.
  - apply String.compare_eq_iff in Hc. split; [by left | done].
  - split; [by right | done].
  - split; [done |]. intros [-> | ?]; [| done].
    by rewrite string_compare_refl in Hc.
Qed.

Lemma matchStringRange_spec s minValue maxValue :
  matchStringRange s minValue maxValue = true ↔ bytes_le minValue s ∧ bytes_lt s maxValue.
Proof.
  unfold matchStringRange, str_ge. fold (str_le minValue s).
  by rewrite andb_true_iff, str_le_spec, str_lt_spec.
Qed.

(** C9: [matchStringRange] is membership in the half-open interval
    [minValue, maxValue) of the byte-wise lexicographic order, and
    string_range("m", "p") over the string column
    ["alpha","mango","oregano","pear","m"] keeps exactly rows 1, 2 and 4. *)
Theorem matchStringRange_half_open :
  (∀ s minValue maxValue,
     matchStringRange s minValue maxValue = true
     ↔ bytes_le minValue s ∧ bytes_lt s maxValue) ∧
  filterStringRange_apply
    {| fsr_fieldName := "foo"; fsr_minValue := "m"; fsr_maxValue := "p" |}
    fruitBlock (setBits (getBitmap 5))
  = Some [false; true; true; false; true] ∧
  setRows [false; true; true; false; true] = [1; 2; 4]%nat.
Proof.
  split; [apply matchStringRange_spec |]. split; reflexivity.
Qed.

(** ** The evaluator's contract *)

(** C1: the leaf filters of the sources only clear bits of the bitmap they
    are given, on every block; [filterNot] and [filterOr] only clear bits
    whenever their children do.  On a block that satisfies the invariants
    of the data model the leaf filters return a bitmap, and so do
    [filterNot] and [filterOr] over children that return one. *)
Theorem filters_only_clear_bits :
  (∀ fr, only_clears (filterRange_apply fr)) ∧
  (∀ fr, only_clears (filterStringRange_apply fr)) ∧
  (∀ fp, only_clears (filterAnyCasePhrase_apply fp)) ∧
  (∀ f, only_clears f → only_clears (filterNot_apply f)) ∧
  (∀ filters, Forall only_clears filters → only_clears (filterOr_apply filters)) ∧
  (∀ fr bs n, field_ok bs (fr_fieldName fr) n → returns_on (filterRange_apply fr) bs n) ∧
  (∀ fr bs n, field_ok bs (fsr_fieldName fr) n →
              returns_on (filterStringRange_apply fr) bs n) ∧
  (∀ fp bs n, field_ok bs (fp_fieldName fp) n →
              returns_on (filterAnyCasePhrase_apply fp) bs n) ∧
  (∀ f bs n, only_clears f → returns_on f bs n → returns_on (filterNot_apply f) bs n) ∧
  (∀ filters bs n, Forall only_clears filters →
                   Forall (λ f, returns_on f bs n) filters →
                   returns_on (filterOr_apply filters) bs n).
Proof.
  split; [apply filterRange_only_clears |].
  split; [apply filterStringRange_only_clears |].
  split; [apply filterAnyCasePhrase_only_clears |].
  split; [intros f _; apply filterNot_only_clears |].
  split; [apply filterOr_only_clears |].
  split; [apply filterRange_returns |].
  split; [apply filterStringRange_returns |].
  split; [apply filterAnyCasePhrase_returns |].
  split; [apply filterNot_returns | apply filterOr_returns].
Qed.

(** C3: over branches that act as intersection with fixed sets of rows
    P1..Pn, [filterOr] leaves the bitmap intersected with the union of the
    Pi, and the incremental loop with its early break computes the same
    bitmap as the scheme that applies every branch to a full private copy
    and unites the results. *)
Theorem filterOr_is_union filters Ps bs bm :
  Forall2 (λ f P, acts_as_intersection f bs (length bm) P) filters Ps →
  filterOr_apply filters bs bm = Some (keepRows (unionRows Ps) bm) ∧
  filterOr_apply filters bs bm = filterOr_full filters bs bm (getBitmap (bitsLen bm)).
Proof.
  intros H. unfold filterOr_apply, copyFrom.
  rewrite getBitmap_keepRows.
  rewrite (filterOr_loop_acts_as _ _ _ _ H), (filterOr_full_acts_as _ _ _ _ H).
  simpl. done.
Qed.

(** C7: [filterNot] leaves the set bits of the bitmap minus the bits that
    survive the inner filter on a copy of it; over an inner filter that acts
    as intersection with a fixed set of rows, negating twice gives the
    bitmap of the inner filter. *)
Theorem filterNot_subtracts_and_is_involutive :
  (∀ (f : filter_apply) bs bm bmTmp,
     f bs (copyFrom bm) = Some bmTmp → length bmTmp = length bm →
     ∃ bm', filterNot_apply f bs bm = Some bm' ∧ length bm' = length bm ∧
            ∀ i, bm' !! i = Some true ↔ bm !! i = Some true ∧ bmTmp !! i ≠ Some true) ∧
  (∀ (f : filter_apply) bs P bm,
     acts_as_intersection f bs (length bm) P →
     filterNot_apply (filterNot_apply f) bs bm = f bs bm).
Proof.
  split.
  - intros f bs bm bmTmp Hf Hlen. unfold filterNot_apply. rewrite Hf. simpl.
    rewrite andNot_Some by done. eexists. split; [done |]. split.
    + rewrite length_zip_with. lia.
    + intros i. rewrite lookup_zip_with.
      destruct (bm !! i) as [b |] eqn:Hb; simpl; [| intuition congruence].
      destruct (lookup_lt_is_Some_2 bmTmp i) as [t Ht].
      { rewrite Hlen. by eapply lookup_lt_Some. }
      rewrite Ht. simpl. destruct b, t; simpl; intuition congruence.
  - intros f bs P bm Hf.
    pose proof (filterNot_acts_as _ _ _ _ (filterNot_acts_as _ _ _ _ Hf)) as Hnn.
    rewrite Hnn, Hf by done. f_equal. apply keepRows_ext.
    intros i _. apply negb_involutive.
Qed.

(** ** Absent columns *)

Lemma str_le_empty_r s : str_le s EmptyString = true → s = EmptyString.
Proof. by destruct s. Qed.

Lemma str_gt_matchStringRange_empty minValue maxValue :
  str_gt minValue maxValue = true → matchStringRange EmptyString minValue maxValue = false.
Proof.
  unfold matchStringRange, str_gt, str_ge. intros Hgt.
  destruct (String.leb minValue "") eqn:Hle; [| done].
  apply str_le_empty_r in Hle as ->. by destruct maxValue.
Qed.

Lemma keepRows_const (b : bool) bm :
  keepRows (λ _, b) bm = if b then bm else resetBits bm.
Proof. destruct b; [apply keepRows_true | by rewrite resetBits_keepRows]. Qed.

Lemma string_length_zero s : String.length s = 0%nat ↔ s = EmptyString.
Proof. by destruct s. Qed.

Lemma matchAnyCasePhrase_empty_value phraseLowercase :
  matchAnyCasePhrase EmptyString phraseLowercase
  = bool_decide (phraseLowercase = EmptyString).
Proof.
  unfold matchAnyCasePhrase. destruct phraseLowercase; [done |].
  rewrite decide_False by done. by rewrite bool_decide_eq_false_2.
Qed.

(** C4: when the block has neither a const value nor a column header for
    the field, each of the three filters leaves the bitmap that a scan
    finding the empty string in every row would leave: the any-case phrase
    filter keeps the bitmap iff its phrase is empty, the string range filter
    keeps it iff minValue ≤ "" < maxValue, the numeric range filter clears
    it. *)
Theorem absent_column_is_empty_string bs bm fieldName :
  (∀ s, strings_ToLower s = EmptyString ↔ s = EmptyString) →
  tryParseFloat64 EmptyString = None →
  getConstColumnValue bs fieldName = EmptyString →
  getColumnHeader bs fieldName = None →
  (∀ fp, fp_fieldName fp = fieldName →
     filterAnyCasePhrase_apply fp bs bm
     = Some (keepRows (λ _, matchAnyCasePhrase EmptyString (getPhraseLowercase fp)) bm) ∧
     filterAnyCasePhrase_apply fp bs bm
     = Some (if bool_decide (fp_phrase fp = EmptyString) then bm else resetBits bm)) ∧
  (∀ fr, fsr_fieldName fr = fieldName →
     filterStringRange_apply fr bs bm
     = Some (keepRows (λ _, matchStringRange EmptyString (fsr_minValue fr) (fsr_maxValue fr)) bm) ∧
     (bytes_le (fsr_minValue fr) EmptyString ∧ bytes_lt EmptyString (fsr_maxValue fr) →
      filterStringRange_apply fr bs bm = Some bm) ∧
     (¬ (bytes_le (fsr_minValue fr) EmptyString ∧ bytes_lt EmptyString (fsr_maxValue fr)) →
      filterStringRange_apply fr bs bm = Some (resetBits bm))) ∧
  (∀ fr, fr_fieldName fr = fieldName →
     filterRange_apply fr bs bm
     = Some (keepRows (λ _, matchRange EmptyString (fr_minValue fr) (fr_maxValue fr)) bm) ∧
     filterRange_apply fr bs bm = Some (resetBits bm)).
Proof.
  intros Hlower Hparse Hconst Hch. split; [| split].
  - intros fp <-. unfold filterAnyCasePhrase_apply. rewrite Hconst, Hch. simpl.
    rewrite matchAnyCasePhrase_empty_value, keepRows_const.
    unfold getPhraseLowercase.
    destruct (bool_decide_reflect (fp_phrase fp = "")) as [Hp | Hp].
    + apply Hlower in Hp. rewrite Hp. done.
    + assert (strings_ToLower (fp_phrase fp) ≠ "") as Hl by (by rewrite Hlower).
      rewrite bool_decide_eq_false_2 by done.
      destruct (strings_ToLower (fp_phrase fp)); done.
  - intros fr <-.
    assert (filterStringRange_apply fr bs bm
            = Some (keepRows (λ _, matchStringRange "" (fsr_minValue fr) (fsr_maxValue fr)) bm))
      as Heq.
    { unfold filterStringRange_apply. rewrite Hconst, Hch. simpl.
      rewrite keepRows_const.
      destruct (str_gt _ _) eqn:Hgt.
      - by rewrite str_gt_matchStringRange_empty.
      - by destruct (matchStringRange _ _ _). }
    split; [done |]. rewrite Heq, keepRows_const.
    split; intros H.
    + apply matchStringRange_spec in H. by rewrite H.
    + rewrite <- matchStringRange_spec in H. by apply not_true_is_false in H as ->.
  - intros fr <-. unfold filterRange_apply, matchRange.
    rewrite Hconst, Hch, Hparse. simpl. rewrite keepRows_const.
    by destruct (f64_gt _ _).
Qed.

(** ** The numeric range on uintN columns *)

Lemma Qle_bool_inject_Z a b : Qle_bool (inject_Z a) (inject_Z b) = (a <=? b).
Proof. unfold Qle_bool. simpl. by rewrite !Z.mul_1_r. Qed.

Lemma Qtrunc_inject_Z z : Qtrunc (inject_Z z) = z.
Proof. unfold Qtrunc. rewrite Qfloor_Z, Qceiling_Z. by destruct (Qle_bool _ _). Qed.

Lemma toUint64Clamp_of_Z z :
  z ≠ 2 ^ 64 → toUint64Clamp (f64_of_Z z) = clampUint64 z.
Proof.
  intros Hz. unfold toUint64Clamp, f64_gt, math_MaxUint64_f64, f64_of_Z, f64_lt,
    uint64_of_float64, clampUint64, maxUint64.
  rewrite !Qle_bool_inject_Z, Qtrunc_inject_Z.
  destruct (Z.leb_spec 0 z); simpl; [| lia].
  destruct (Z.leb_spec z (2 ^ 64)); simpl; [| lia].
  destruct (Z.leb_spec z (2 ^ 64 - 1)); simpl; lia.
Qed.

Lemma f64_of_Z_inj a b : f64_of_Z a = f64_of_Z b → a = b.
Proof. by intros [=]. Qed.

Lemma toUint64Clamp_Ceil f :
  f ≠ NaN → math_Ceil f ≠ math_MaxUint64_f64 →
  toUint64Clamp (math_Ceil f) = clampCeil f.
Proof.
  intros Hnan Hrep. destruct f as [| [|] | q]; [done | done | done |].
  simpl. apply toUint64Clamp_of_Z. intros Heq. apply Hrep. simpl.
  unfold math_MaxUint64_f64. by rewrite Heq.
Qed.

Lemma toUint64Clamp_Floor f :
  f ≠ NaN → math_Floor f ≠ math_MaxUint64_f64 →
  toUint64Clamp (math_Floor f) = clampFloor f.
Proof.
  intros Hnan Hrep. destruct f as [| [|] | q]; [done | done | done |].
  simpl. apply toUint64Clamp_of_Z. intros Heq. apply Hrep. simpl.
  unfold math_MaxUint64_f64. by rewrite Heq.
Qed.

Lemma f64_le_not_nan a b : f64_le a b = true → a ≠ NaN ∧ b ≠ NaN.
Proof. destruct a as [| [|] |], b as [| [|] |]; done. Qed.

Lemma f64_le_not_gt a b : f64_le a b = true → f64_gt a b = false.
Proof.
  unfold f64_gt. destruct a as [| [|] | x], b as [| [|] | y]; simpl; try done.
  by intros ->.
Qed.

Lemma f64_lt_zero_ge f :
  f ≠ NaN → f64_lt f (f64_of_Z 0) = negb (f64_ge f (f64_of_Z 0)).
Proof. destruct f as [| [|] | q]; done. Qed.

Lemma clampUint64_range z : 0 ≤ clampUint64 z ≤ maxUint64.
Proof. unfold clampUint64, maxUint64. lia. Qed.

Lemma matchUintByRange_spec width bs ch bm minValue maxValue :
  column_ok bs ch (length bm) →
  encodedWidth (ch_valueType ch) = Some width →
  (∀ v, v ∈ getValuesForColumn bs ch →
        ch_minValue ch ≤ unmarshalUint v ≤ ch_maxValue ch) →
  f64_le minValue maxValue = true →
  math_Ceil minValue ≠ math_MaxUint64_f64 →
  math_Floor maxValue ≠ math_MaxUint64_f64 →
  matchUintByRange width bs ch bm minValue maxValue
  = Some (keepRows (λ i, default false (inUintRange minValue maxValue <$> uintAtRow bs ch i)) bm).
Proof.
  intros [Hlen Hw] Hwidth Hbounds Hle Hcmin Hfmax.
  destruct (f64_le_not_nan _ _ Hle) as [Hnmin Hnmax].
  unfold matchUintByRange, toUint64Range.
  rewrite toUint64Clamp_Ceil, toUint64Clamp_Floor by done.
  rewrite f64_lt_zero_ge by done.
  destruct (_ || _ || _) eqn:Hskip.
  - rewrite resetBits_keepRows. f_equal. apply keepRows_ext. intros i Hi.
    destruct (lookup_lt_is_Some_2 (getValuesForColumn bs ch) i) as [v Hv].
    { rewrite Hlen. by apply lookup_lt_Some in Hi. }
    unfold uintAtRow. rewrite Hv. simpl.
    specialize (Hbounds v (list_elem_of_lookup_2 _ _ _ Hv)).
    unfold inUintRange. symmetry.
    rewrite Z.gtb_ltb in Hskip.
    destruct (f64_ge maxValue (f64_of_Z 0)); [| done]. simpl in *.
    destruct (Z.ltb_spec (ch_maxValue ch) (clampCeil minValue)); simpl in *.
    + apply andb_false_intro1. apply Z.leb_gt. lia.
    + apply Z.ltb_lt in Hskip. apply andb_false_intro2. apply Z.leb_gt. lia.
  - rewrite (visitValues_keepRows _ _ _ _
               (λ v, (unmarshalUint v >=? clampCeil minValue)
                     && (unmarshalUint v <=? clampFloor maxValue))).
    + f_equal. apply keepRows_ext. intros i _. unfold uintAtRow.
      destruct (getValuesForColumn bs ch !! i) as [v |]; simpl; [| done].
      unfold inUintRange. rewrite Z.geb_leb.
      apply orb_false_elim in Hskip as [[Hneg _]%orb_false_elim _].
      apply negb_false_iff in Hneg. by rewrite Hneg.
    + done.
    + intros v Hv. rewrite decide_False; [done |].
      intros Hne. apply Hne. by apply Hw.
Qed.

Lemma isUintType_width vt :
  isUintType vt = true → ∃ w, encodedWidth vt = Some w.
Proof. destruct vt; try done; intros _; by eexists. Qed.

Lemma filterRange_on_uint fr bs ch :
  getConstColumnValue bs (fr_fieldName fr) = EmptyString →
  getColumnHeader bs (fr_fieldName fr) = Some ch →
  isUintType (ch_valueType ch) = true →
  f64_gt (fr_minValue fr) (fr_maxValue fr) = false →
  ∃ width, encodedWidth (ch_valueType ch) = Some width ∧
    ∀ bm, filterRange_apply fr bs bm
          = matchUintByRange width bs ch bm (fr_minValue fr) (fr_maxValue fr).
Proof.
  intros Hconst Hch Hvt Hgt.
  destruct (ch_valueType ch) eqn:Ht; try done; eexists; (split; [done |]);
    intros bm; unfold filterRange_apply; rewrite Hgt, Hconst, Hch, Ht; done.
Qed.

(** C8 as amended: on a uintN column (a field with a header of type uintN
    and no const value) whose header bounds cover the stored values,
    [filterRange] clears the bitmap when maxValue < 0 and when
    minValue > maxValue; for minValue ≤ maxValue whose rounded bounds are
    not exactly 2^64 it keeps a row holding n iff maxValue ≥ 0 and
    clamp(ceil(minValue)) ≤ n ≤ clamp(floor(maxValue)). *)
Theorem filterRange_uint_range fr bs ch bm :
  getConstColumnValue bs (fr_fieldName fr) = EmptyString →
  getColumnHeader bs (fr_fieldName fr) = Some ch →
  isUintType (ch_valueType ch) = true →
  column_ok bs ch (length bm) →
  (∀ v, v ∈ getValuesForColumn bs ch →
        ch_minValue ch ≤ unmarshalUint v ≤ ch_maxValue ch) →
  (f64_lt (fr_maxValue fr) (f64_of_Z 0) = true →
   filterRange_apply fr bs bm = Some (resetBits bm)) ∧
  (f64_gt (fr_minValue fr) (fr_maxValue fr) = true →
   filterRange_apply fr bs bm = Some (resetBits bm)) ∧
  (f64_le (fr_minValue fr) (fr_maxValue fr) = true →
   math_Ceil (fr_minValue fr) ≠ math_MaxUint64_f64 →
   math_Floor (fr_maxValue fr) ≠ math_MaxUint64_f64 →
   filterRange_apply fr bs bm
   = Some (keepRows
             (λ i, default false
                     (inUintRange (fr_minValue fr) (fr_maxValue fr) <$> uintAtRow bs ch i))
             bm)).
Proof.
  intros Hconst Hch Hvt Hok Hbounds. split; [| split].
  - intros Hneg. destruct (f64_gt (fr_minValue fr) (fr_maxValue fr)) eqn:Hgt.
    + unfold filterRange_apply. by rewrite Hgt.
    + destruct (filterRange_on_uint fr bs ch Hconst Hch Hvt Hgt) as (w & _ & ->).
      unfold matchUintByRange. destruct (toUint64Range _ _). by rewrite Hneg.
  - intros Hgt. unfold filterRange_apply. by rewrite Hgt.
  - intros Hle Hcmin Hfmax.
    destruct (filterRange_on_uint fr bs ch Hconst Hch Hvt (f64_le_not_gt _ _ Hle))
      as (w & Hw & ->).
    by apply matchUintByRange_spec.
Qed.

(** String columns: the string range filter acts as intersection with the
    rows whose value lies in the range. *)
Lemma filterStringRange_string_column fr bs ch n :
  getConstColumnValue bs (fsr_fieldName fr) = EmptyString →
  getColumnHeader bs (fsr_fieldName fr) = Some ch →
  ch_valueType ch = valueTypeString →
  length (getValuesForColumn bs ch) = n →
  str_gt (fsr_minValue fr) (fsr_maxValue fr) = false →
  acts_as_intersection (filterStringRange_apply fr) bs n
    (λ i, default false
            ((λ v, matchStringRange v (fsr_minValue fr) (fsr_maxValue fr))
               <$> getValuesForColumn bs ch !! i)).
Proof.
  intros Hconst Hch Hvt Hlen Hgt bm Hn.
  unfold filterStringRange_apply. rewrite Hgt, Hconst, Hch, Hvt. simpl.
  unfold matchStringByStringRange.
  apply visitValues_keepRows; [congruence | done].
Qed.

(** X1: on an ipv4 or iso8601 column the numeric range filter clears the
    bitmap, whatever its interval. *)
Lemma filterRange_clears_ipv4_iso8601 fr bs ch bm :
  getConstColumnValue bs (fr_fieldName fr) = EmptyString →
  getColumnHeader bs (fr_fieldName fr) = Some ch →
  ch_valueType ch = valueTypeIPv4 ∨ ch_valueType ch = valueTypeTimestampISO8601 →
  filterRange_apply fr bs bm = Some (resetBits bm).
Proof.
  intros Hconst Hch Hvt. unfold filterRange_apply. rewrite Hconst, Hch. simpl.
  destruct (f64_gt _ _); [done |]. by destruct Hvt as [-> | ->].
Qed.

(** X2: on an ipv4 column, for bounds that pass the pre-check, the string
    range filter keeps the rows whose dotted-quad form lies in the range. *)
Lemma filterStringRange_ipv4_column fr bs ch bm :
  getConstColumnValue bs (fsr_fieldName fr) = EmptyString →
  getColumnHeader bs (fsr_fieldName fr) = Some ch →
  ch_valueType ch = valueTypeIPv4 →
  column_ok bs ch (length bm) →
  str_gt (fsr_minValue fr) (fsr_maxValue fr) = false →
  str_gt (fsr_minValue fr) "9" = false →
  str_lt (fsr_maxValue fr) "0" = false →
  filterStringRange_apply fr bs bm
  = Some (keepRows
            (λ i, default false
                    ((λ v, default false
                             ((λ s, matchStringRange s (fsr_minValue fr) (fsr_maxValue fr))
                                <$> toIPv4StringExt v))
                       <$> getValuesForColumn bs ch !! i))
            bm).
Proof.
  intros Hconst Hch Hvt [Hlen Hw] Hgt Hhi Hlo.
  unfold filterStringRange_apply. rewrite Hgt, Hconst, Hch, Hvt. simpl.
  unfold matchIPv4ByStringRange, stringRangeScan. rewrite Hhi, Hlo. simpl.
  apply visitValues_keepRows; [done |]. intros v Hv.
  destruct (toIPv4StringExt_is_Some v) as [s ->]; [| done].
  apply Hw; [done |]. by rewrite Hvt.
Qed.

(** ** Order lemmas *)

Lemma bytes_lt_irrefl s : ¬ bytes_lt s s.
Proof.
  induction s as [| c s IH]; inversion 1 as [| ? ? ? ? Hlt | ? ? ? Htl]; subst;
    [lia | by apply IH].
Qed.

Lemma bytes_lt_trans s t u : bytes_lt s t → bytes_lt t u → bytes_lt s u.
Proof.
  intros Hst. revert u.
  induction Hst as [c t | c d s t Hcd | c s t Hst IH]; intros u Htu.
  - inversion Htu; subst; constructor.
  - inversion Htu as [| ? e ? u' Hde | ? ? u' Htl]; subst.
    + apply bytes_lt_head. lia.
    + by apply bytes_lt_head.
  - inversion Htu as [| ? e ? u' Hde | ? ? u' Htl]; subst.
    + by apply bytes_lt_head.
    + apply bytes_lt_tail. by apply IH.
Qed.

Lemma bytes_le_lt_trans s t u : bytes_le s t → bytes_lt t u → bytes_lt s u.
Proof. intros [-> | Hst] Htu; [done | by eapply bytes_lt_trans]. Qed.

Lemma bytes_le_trans s t u : bytes_le s t → bytes_le t u → bytes_le s u.
Proof.
  intros Hst [<- | Htu]; [done |]. right. by eapply bytes_le_lt_trans.
Qed.

(** A string range with minValue > maxValue holds no string. *)
Lemma matchStringRange_empty_interval s minValue maxValue :
  str_gt minValue maxValue = true → matchStringRange s minValue maxValue = false.
Proof.
  intros Hgt. apply not_true_is_false. intros [Hle Hlt]%matchStringRange_spec.
  apply str_lt_spec in Hgt.
  apply (bytes_lt_irrefl maxValue).
  eapply bytes_lt_trans; [exact Hgt |]. by eapply bytes_le_lt_trans.
Qed.

Lemma f64_lt_le_false a b f :
  f64_lt b a = true → f64_le a f = true → f64_le f b = true → False.
Proof.
  destruct a as [| [|] | x], b as [| [|] | y], f as [| [|] | z]; simpl; try done.
  intros Hlt Hxz Hzy. apply negb_true_iff in Hlt.
  apply Qle_bool_iff in Hxz, Hzy.
  assert (Qle_bool x y = true) as Hxy by (apply Qle_bool_iff; by apply (Qle_trans x z y)).
  congruence.
Qed.

(** A numeric range with minValue > maxValue holds no value. *)
Lemma matchRange_empty_interval s minValue maxValue :
  f64_gt minValue maxValue = true → matchRange s minValue maxValue = false.
Proof.
  intros Hgt. unfold matchRange. destruct (tryParseFloat64 s) as [f |]; [| done].
  apply not_true_is_false. intros [Hge Hle]%andb_true_iff.
  by eapply f64_lt_le_false.
Qed.

(** ** The column paths of the filters *)

(** X4: the const-column path.  When the block reports a non-empty constant
    value for the field, each of the three filters leaves the bitmap
    untouched if the value matches and clears it otherwise; no row is
    visited. *)
Theorem const_column_is_one_match bs bm fieldName :
  str_nonempty (getConstColumnValue bs fieldName) = true →
  (∀ fr, fr_fieldName fr = fieldName →
     filterRange_apply fr bs bm
     = Some (if matchRange (getConstColumnValue bs fieldName) (fr_minValue fr) (fr_maxValue fr)
             then bm else resetBits bm)) ∧
  (∀ fr, fsr_fieldName fr = fieldName →
     filterStringRange_apply fr bs bm
     = Some (if matchStringRange (getConstColumnValue bs fieldName)
                  (fsr_minValue fr) (fsr_maxValue fr)
             then bm else resetBits bm)) ∧
  (∀ fp, fp_fieldName fp = fieldName →
     filterAnyCasePhrase_apply fp bs bm
     = Some (if matchAnyCasePhrase (getConstColumnValue bs fieldName) (getPhraseLowercase fp)
             then bm else resetBits bm)).
Proof.
  intros Hv. split; [| split].
  - intros fr <-. unfold filterRange_apply. rewrite Hv.
    destruct (f64_gt _ _) eqn:Hgt.
    + by rewrite matchRange_empty_interval.
    + by destruct (matchRange _ _ _).
  - intros fr <-. unfold filterStringRange_apply. rewrite Hv.
    destruct (str_gt _ _) eqn:Hgt.
    + by rewrite matchStringRange_empty_interval.
    + by destruct (matchStringRange _ _ _).
  - intros fp <-. unfold filterAnyCasePhrase_apply. rewrite Hv.
    by destruct (matchAnyCasePhrase _ _).
Qed.

(** X5: string columns.  On a column of type string with one value per row,
    each of the three filters keeps exactly the set rows whose value
    satisfies its predicate. *)
Theorem string_column_is_typed_scan bs ch bm fieldName :
  getConstColumnValue bs fieldName = EmptyString →
  getColumnHeader bs fieldName = Some ch →
  ch_valueType ch = valueTypeString →
  length (getValuesForColumn bs ch) = length bm →
  (∀ fr, fr_fieldName fr = fieldName →
     filterRange_apply fr bs bm
     = Some (keepRows
               (λ i, default false
                       ((λ v, matchRange v (fr_minValue fr) (fr_maxValue fr))
                          <$> getValuesForColumn bs ch !! i)) bm)) ∧
  (∀ fr, fsr_fieldName fr = fieldName →
     filterStringRange_apply fr bs bm
     = Some (keepRows
               (λ i, default false
                       ((λ v, matchStringRange v (fsr_minValue fr) (fsr_maxValue fr))
                          <$> getValuesForColumn bs ch !! i)) bm)) ∧
  (∀ fp, fp_fieldName fp = fieldName →
     filterAnyCasePhrase_apply fp bs bm
     = Some (keepRows
               (λ i, default false
                       ((λ v, matchAnyCasePhrase v (getPhraseLowercase fp))
                          <$> getValuesForColumn bs ch !! i)) bm)).
Proof.
  intros Hconst Hch Hvt Hlen. split; [| split].
  - intros fr <-. unfold filterRange_apply. rewrite Hconst, Hch, Hvt. simpl.
    destruct (f64_gt _ _) eqn:Hgt.
    + rewrite resetBits_keepRows. f_equal. apply keepRows_ext. intros i _.
      destruct (getValuesForColumn bs ch !! i); simpl; [| done].
      by rewrite matchRange_empty_interval.
    + by apply visitValues_keepRows.
  - intros fr <-. unfold filterStringRange_apply. rewrite Hconst, Hch, Hvt. simpl.
    destruct (str_gt _ _) eqn:Hgt.
    + rewrite resetBits_keepRows. f_equal. apply keepRows_ext. intros i _.
      destruct (getValuesForColumn bs ch !! i); simpl; [| done].
      by rewrite matchStringRange_empty_interval.
    + by apply visitValues_keepRows.
  - intros fp <-. unfold filterAnyCasePhrase_apply. rewrite Hconst, Hch, Hvt. simpl.
    by apply visitValues_keepRows.
Qed.

Lemma elem_of_dictMatches (match_ : string → bool) values c :
  c ∈ dictMatches match_ values
  ↔ ∃ i v, values !! i = Some v ∧ match_ v = true ∧ c = ascii_of_nat (i mod 256).
Proof.
  unfold dictMatches. rewrite list_elem_of_omap. split.
  - intros [[i v] [Hin Hc]]. apply elem_of_lookup_imap in Hin as (j & w & [= -> ->] & Hw).
    simpl in Hc. destruct (match_ w) eqn:Hm; [| done].
    exists j, w. by simplify_eq.
  - intros (i & v & Hv & Hm & ->). exists (i, v). split.
    + by apply (elem_of_lookup_imap_2 (λ i v, (i, v))).
    + simpl. by rewrite Hm.
Qed.

(** The dictionary pre-match: matching the dictionary entries first and then
    the encoded bytes keeps the rows whose dictionary entry matches. *)
Lemma dict_prematch_is_per_row (match_ : string → bool) bs ch bm :
  ch_valueType ch = valueTypeDict →
  column_ok bs ch (length bm) →
  (length (ch_valuesDict ch) ≤ 256)%nat →
  (∀ i, bm !! i = Some true → is_Some (dictValueAt bs ch i)) →
  matchEncodedValuesDict bs ch bm (dictMatches match_ (ch_valuesDict ch))
  = Some (keepRows (λ i, default false (match_ <$> dictValueAt bs ch i)) bm).
Proof.
  intros Hvt [Hlen Hw] Hdict Hidx.
  assert (∀ i c, bm !! i = Some true →
                 getValuesForColumn bs ch !! i = Some (String c EmptyString) →
                 bool_decide (c ∈ dictMatches match_ (ch_valuesDict ch))
                 = default false (match_ <$> dictValueAt bs ch i)) as Hrow.
  { intros i c Hi Hv. destruct (Hidx i Hi) as [d Hd].
    rewrite Hd. simpl. unfold dictValueAt in Hd. rewrite Hv in Hd. simpl in Hd.
    pose proof (lookup_lt_Some _ _ _ Hd) as Hk.
    destruct (match_ d) eqn:Hm.
    - apply bool_decide_eq_true_2, elem_of_dictMatches.
      exists (nat_of_ascii c), d. split; [done |]. split; [done |].
      rewrite Nat.mod_small by lia. by rewrite ascii_nat_embedding.
    - apply bool_decide_eq_false_2. intros (j & w & Hj & Hmw & ->)%elem_of_dictMatches.
      pose proof (lookup_lt_Some _ _ _ Hj) as Hjlt.
      rewrite Nat.mod_small in Hd by lia.
      rewrite nat_ascii_embedding in Hd by lia. congruence. }
  unfold matchEncodedValuesDict.
  destruct (dictMatches match_ (ch_valuesDict ch)) as [| b bb] eqn:Hbb.
  - rewrite resetBits_keepRows. f_equal. apply keepRows_ext. intros i Hi.
    destruct (lookup_lt_is_Some_2 (getValuesForColumn bs ch) i) as [v Hv].
    { rewrite Hlen. by apply lookup_lt_Some in Hi. }
    destruct (length_one_inv v) as [c ->].
    { apply Hw; [by eapply list_elem_of_lookup_2 | by rewrite Hvt]. }
    rewrite <- (Hrow i c Hi Hv). symmetry. apply bool_decide_eq_false_2.
    by apply not_elem_of_nil.
  - rewrite (visitValues_keepRows _ _ _ _
               (λ v, match v with
                     | String c EmptyString => containsByte (b :: bb) c
                     | _ => false
                     end)).
    + f_equal. apply keepRows_ext. intros i Hi.
      destruct (lookup_lt_is_Some_2 (getValuesForColumn bs ch) i) as [v Hv].
      { rewrite Hlen. by apply lookup_lt_Some in Hi. }
      destruct (length_one_inv v) as [c ->].
      { apply Hw; [by eapply list_elem_of_lookup_2 | by rewrite Hvt]. }
      rewrite Hv. simpl. by apply Hrow.
    + done.
    + intros v Hv. destruct (length_one_inv v) as [c ->]; [| done].
      apply Hw; [done | by rewrite Hvt].
Qed.

(** X6: dict columns.  On a dict column whose dictionary has at most 256
    entries and whose index bytes point into it, each of the three filters
    keeps exactly the set rows whose dictionary entry satisfies its
    predicate: matching the dictionary once and then the index bytes loses
    and adds nothing. *)
Theorem dict_column_matches_entries bs ch bm fieldName :
  getConstColumnValue bs fieldName = EmptyString →
  getColumnHeader bs fieldName = Some ch →
  ch_valueType ch = valueTypeDict →
  column_ok bs ch (length bm) →
  (length (ch_valuesDict ch) ≤ 256)%nat →
  (∀ i, bm !! i = Some true → is_Some (dictValueAt bs ch i)) →
  (∀ fr, fr_fieldName fr = fieldName →
     filterRange_apply fr bs bm
     = Some (keepRows
               (λ i, default false
                       ((λ v, matchRange v (fr_minValue fr) (fr_maxValue fr))
                          <$> dictValueAt bs ch i)) bm)) ∧
  (∀ fr, fsr_fieldName fr = fieldName →
     filterStringRange_apply fr bs bm
     = Some (keepRows
               (λ i, default false
                       ((λ v, matchStringRange v (fsr_minValue fr) (fsr_maxValue fr))
                          <$> dictValueAt bs ch i)) bm)) ∧
  (∀ fp, fp_fieldName fp = fieldName →
     filterAnyCasePhrase_apply fp bs bm
     = Some (keepRows
               (λ i, default false
                       ((λ v, matchAnyCasePhrase v (getPhraseLowercase fp))
                          <$> dictValueAt bs ch i)) bm)).
Proof.
  intros Hconst Hch Hvt Hok Hdict Hidx. split; [| split].
  - intros fr <-. unfold filterRange_apply. rewrite Hconst, Hch, Hvt. simpl.
    destruct (f64_gt _ _) eqn:Hgt.
    + rewrite resetBits_keepRows. f_equal. apply keepRows_ext. intros i _.
      destruct (dictValueAt bs ch i); simpl; [| done].
      by rewrite matchRange_empty_interval.
    + by apply dict_prematch_is_per_row.
  - intros fr <-. unfold filterStringRange_apply. rewrite Hconst, Hch, Hvt. simpl.
    destruct (str_gt _ _) eqn:Hgt.
    + rewrite resetBits_keepRows. f_equal. apply keepRows_ext. intros i _.
      destruct (dictValueAt bs ch i); simpl; [| done].
      by rewrite matchStringRange_empty_interval.
    + by apply dict_prematch_is_per_row.
  - intros fp <-. unfold filterAnyCasePhrase_apply. rewrite Hconst, Hch, Hvt. simpl.
    by apply dict_prematch_is_per_row.
Qed.

(** X7: float64 columns.  When the header bounds are bounds of the column's
    values, the numeric range filter keeps exactly the set rows whose float
    lies in the closed interval: the header pre-check drops no match. *)
Theorem filterRange_float64_column fr bs ch bm :
  getConstColumnValue bs (fr_fieldName fr) = EmptyString →
  getColumnHeader bs (fr_fieldName fr) = Some ch →
  ch_valueType ch = valueTypeFloat64 →
  column_ok bs ch (length bm) →
  (∀ i f, floatAtRow bs ch i = Some f →
     f64_le (math_Float64frombits (ch_minValue ch)) f = true ∧
     f64_le f (math_Float64frombits (ch_maxValue ch)) = true) →
  filterRange_apply fr bs bm
  = Some (keepRows
            (λ i, default false
                    ((λ f, f64_ge f (fr_minValue fr) && f64_le f (fr_maxValue fr))
                       <$> floatAtRow bs ch i)) bm).
Proof.
  intros Hconst Hch Hvt [Hlen Hw] Hbounds.
  assert (∀ i, default false
                 ((λ f, f64_ge f (fr_minValue fr) && f64_le f (fr_maxValue fr))
                    <$> floatAtRow bs ch i)
               = default false
                   ((λ v, f64_ge (math_Float64frombits (unmarshalUint v)) (fr_minValue fr)
                          && f64_le (math_Float64frombits (unmarshalUint v)) (fr_maxValue fr))
                      <$> getValuesForColumn bs ch !! i)) as Hrow.
  { intros i. unfold floatAtRow. by destruct (getValuesForColumn bs ch !! i). }
  unfold filterRange_apply. rewrite Hconst, Hch, Hvt.
  cbv beta iota zeta delta [str_nonempty].
  destruct (f64_gt (fr_minValue fr) (fr_maxValue fr)) eqn:Hgt.
  { rewrite resetBits_keepRows. f_equal. apply keepRows_ext. intros i _.
    destruct (floatAtRow bs ch i) as [f |] eqn:Hf; simpl; [| done].
    destruct (f64_ge f (fr_minValue fr)) eqn:H1; [| done].
    destruct (f64_le f (fr_maxValue fr)) eqn:H2; [| done].
    exfalso. by eapply (f64_lt_le_false (fr_minValue fr) (fr_maxValue fr) f). }
  unfold matchFloat64ByRange.
  destruct (f64_gt (fr_minValue fr) (math_Float64frombits (ch_maxValue ch))) eqn:Hhi; cbv beta iota zeta delta [orb].
  { rewrite resetBits_keepRows. f_equal. apply keepRows_ext. intros i _.
    destruct (floatAtRow bs ch i) as [f |] eqn:Hf; simpl; [| done].
    destruct (Hbounds i f Hf) as [_ Hmax].
    destruct (f64_ge f (fr_minValue fr)) eqn:H1; [| done].
    exfalso. by eapply (f64_lt_le_false (fr_minValue fr) (math_Float64frombits (ch_maxValue ch)) f). }
  destruct (f64_lt (fr_maxValue fr) (math_Float64frombits (ch_minValue ch))) eqn:Hlo.
  { rewrite resetBits_keepRows. f_equal. apply keepRows_ext. intros i _.
    destruct (floatAtRow bs ch i) as [f |] eqn:Hf; simpl; [| done].
    destruct (Hbounds i f Hf) as [Hmin _].
    destruct (f64_le f (fr_maxValue fr)) eqn:H2; [| by rewrite andb_false_r].
    exfalso. by eapply (f64_lt_le_false (math_Float64frombits (ch_minValue ch)) (fr_maxValue fr) f). }
  rewrite (keepRows_ext _ _ _ (λ i _, Hrow i)).
  apply visitValues_keepRows; [done |]. intros v Hv.
  rewrite decide_False; [done |]. intros Hne. apply Hne.
  apply Hw; [done |]. by rewrite Hvt.
Qed.

(** The decimal form of an integer starts with a digit. *)
Lemma formatUint_head n :
  ∃ c rest, formatUint n = String c rest ∧ (N_of_ascii "0" ≤ N_of_ascii c)%N.
Proof.
  unfold formatUint. destruct (N.to_uint (Z.to_N n)); simpl; eexists _, _; (split; [done |]); done.
Qed.

(** No decimal form sorts below a bound that sorts below "0". *)
Lemma matchStringRange_below_zero n minValue maxValue :
  str_lt maxValue "0" = true → matchStringRange (formatUint n) minValue maxValue = false.
Proof.
  intros Hlo%str_lt_spec. apply not_true_is_false. intros [_ Hlt]%matchStringRange_spec.
  destruct (formatUint_head n) as (c & rest & Heq & Hc). rewrite Heq in Hlt.
  inversion Hlo as [| c0 d0 s0 t0 Hd | c0 s0 t0 Ht]; subst.
  - inversion Hlt.
  - inversion Hlt; subst; lia.
  - inversion Ht.
Qed.

(** X8: uintN columns under the string range filter.  For a lower bound
    that passes the pre-check against "9", the filter keeps exactly the set
    rows whose decimal form lies in the half-open range; the pre-check of
    the upper bound against "0" drops no match. *)
Theorem filterStringRange_uint_column fr bs ch bm :
  getConstColumnValue bs (fsr_fieldName fr) = EmptyString →
  getColumnHeader bs (fsr_fieldName fr) = Some ch →
  isUintType (ch_valueType ch) = true →
  column_ok bs ch (length bm) →
  str_gt (fsr_minValue fr) "9" = false →
  filterStringRange_apply fr bs bm
  = Some (keepRows
            (λ i, default false
                    ((λ n, matchStringRange (formatUint n) (fsr_minValue fr) (fsr_maxValue fr))
                       <$> uintAtRow bs ch i)) bm).
Proof.
  intros Hconst Hch Hvt [Hlen Hw] Hhi.
  assert (∀ i, default false
                 ((λ n, matchStringRange (formatUint n) (fsr_minValue fr) (fsr_maxValue fr))
                    <$> uintAtRow bs ch i)
               = default false
                   ((λ v, matchStringRange (formatUint (unmarshalUint v))
                            (fsr_minValue fr) (fsr_maxValue fr))
                      <$> getValuesForColumn bs ch !! i)) as Hrow.
  { intros i. unfold uintAtRow. by destruct (getValuesForColumn bs ch !! i). }
  assert (∀ w, encodedWidth (ch_valueType ch) = Some w →
            stringRangeScan "0" (toUintString w) bs ch bm (fsr_minValue fr) (fsr_maxValue fr)
            = Some (keepRows
                      (λ i, default false
                              ((λ n, matchStringRange (formatUint n)
                                       (fsr_minValue fr) (fsr_maxValue fr))
                                 <$> uintAtRow bs ch i)) bm)) as Hscan.
  { intros w Hwidth. unfold stringRangeScan. rewrite Hhi. simpl.
    destruct (str_lt (fsr_maxValue fr) "0") eqn:Hlo.
    - rewrite resetBits_keepRows. f_equal. apply keepRows_ext. intros i _.
      destruct (uintAtRow bs ch i); simpl; [| done].
      by rewrite matchStringRange_below_zero.
    - rewrite (keepRows_ext _ _ _ (λ i _, Hrow i)).
      apply visitValues_keepRows; [done |]. intros v Hv.
      unfold toUintString. rewrite decide_True by by apply Hw. done. }
  unfold filterStringRange_apply. rewrite Hconst, Hch. simpl.
  destruct (str_gt (fsr_minValue fr) (fsr_maxValue fr)) eqn:Hgt.
  { rewrite resetBits_keepRows. f_equal. apply keepRows_ext. intros i _.
    destruct (uintAtRow bs ch i); simpl; [| done].
    by rewrite matchStringRange_empty_interval. }
  destruct (ch_valueType ch) eqn:Het; try done; by apply Hscan.
Qed.

(** ** Composition of [filterOr] and [filterNot] *)

Lemma filterOr_acts_as filters Ps bs n :
  Forall2 (λ f P, acts_as_intersection f bs n P) filters Ps →
  acts_as_intersection (filterOr_apply filters) bs n (unionRows Ps).
Proof.
  intros H bm <-. unfold filterOr_apply, copyFrom.
  rewrite getBitmap_keepRows, (filterOr_loop_acts_as _ _ _ _ H). done.
Qed.

Lemma unionRows_app Ps Qs i : unionRows (Ps ++ Qs) i = unionRows Ps i || unionRows Qs i.
Proof. unfold unionRows. apply existsb_app. Qed.

Lemma acts_as_exists_rows (filters : list filter_apply) bs n :
  Forall (λ f, ∃ P, acts_as_intersection f bs n P) filters →
  ∃ Ps, Forall2 (λ f P, acts_as_intersection f bs n P) filters Ps.
Proof.
  induction 1 as [| f filters [P HP] _ [Ps IH]].
  - exists []. constructor.
  - exists (P :: Ps). by constructor.
Qed.

(** A row is in the union of the branches' sets iff some branch, applied to
    the bitmap, leaves its bit set. *)
Lemma unionRows_survivors bs bm filters Ps :
  Forall2 (λ f P, acts_as_intersection f bs (length bm) P) filters Ps →
  ∀ i, keepRows (unionRows Ps) bm !! i = Some true
       ↔ ∃ (f : filter_apply) bmf, f ∈ filters ∧ f bs bm = Some bmf ∧ bmf !! i = Some true.
Proof.
  induction 1 as [| f P filters Ps Hf _ IH]; intros i.
  - rewrite lookup_keepRows. split.
    + destruct (bm !! i); simpl; [| done]. rewrite andb_false_r. done.
    + intros (f & bmf & Hin & _). by apply elem_of_nil in Hin.
  - specialize (IH i). rewrite lookup_keepRows in IH |- *. split.
    + intros Hi. destruct (bm !! i) as [b |] eqn:Hb; simpl in *; [| done].
      injection Hi as Hi. apply andb_true_iff in Hi as [-> Hi].
      change (unionRows (P :: Ps) i) with (P i || unionRows Ps i) in Hi.
      apply orb_true_iff in Hi as [HP | Hrest].
      * exists f, (keepRows P bm). split; [by left |]. split; [by apply Hf |].
        by rewrite lookup_keepRows, Hb, HP.
      * destruct (proj1 IH) as (g & bmg & Hin & Hg & Hgi); [by rewrite Hrest |].
        exists g, bmg. split; [by right | done].
    + intros (g & bmg & Hin & Hg & Hgi). apply elem_of_cons in Hin as [-> | Hin].
      * rewrite Hf in Hg by done. injection Hg as <-.
        rewrite lookup_keepRows in Hgi.
        destruct (bm !! i) as [b |]; simpl in *; [| done].
        injection Hgi as Hgi. apply andb_true_iff in Hgi as [-> Hgi].
        change (unionRows (P :: Ps) i) with (P i || unionRows Ps i). by rewrite Hgi.
      * assert ((λ b : bool, b && unionRows Ps i) <$> bm !! i = Some true) as Hx
          by (apply IH; by exists g, bmg).
        destruct (bm !! i) as [b |]; simpl in *; [| done].
        injection Hx as Hx. apply andb_true_iff in Hx as [-> Hx].
        change (unionRows (P :: Ps) i) with (P i || unionRows Ps i).
        by rewrite Hx, orb_true_r.
Qed.

Lemma unionRows_Permutation bs bm (filters filters' : list filter_apply) Ps Ps' :
  Forall2 (λ f P, acts_as_intersection f bs (length bm) P) filters Ps →
  Forall2 (λ f P, acts_as_intersection f bs (length bm) P) filters' Ps' →
  (∀ f, f ∈ filters ↔ f ∈ filters') →
  keepRows (unionRows Ps) bm = keepRows (unionRows Ps') bm.
Proof.
  intros H H' Hperm. apply keepRows_ext. intros i Hi. apply eq_true_iff_eq.
  pose proof (unionRows_survivors _ _ _ _ H i) as Hs.
  pose proof (unionRows_survivors _ _ _ _ H' i) as Hs'.
  rewrite lookup_keepRows, Hi in Hs, Hs'. simpl in Hs, Hs'.
  assert (∀ b : bool, Some b = Some true ↔ b = true) as Hsome
    by (intros b; split; [by intros [= ->] | by intros ->]).
  rewrite Hsome in Hs, Hs'. rewrite Hs, Hs'.
  split; intros (f & bmf & Hin & Hrest); exists f, bmf; (split; [by apply Hperm | done]).
Qed.

(** X9: a row survives [filterOr] iff it survives some branch applied to
    the bitmap; with no branches at all the bitmap is cleared. *)
Theorem filterOr_keeps_rows_of_some_branch (filters : list filter_apply) bs bm :
  Forall (λ f, ∃ P, acts_as_intersection f bs (length bm) P) filters →
  ∃ bm', filterOr_apply filters bs bm = Some bm' ∧ length bm' = length bm ∧
    (filters = [] → bm' = resetBits bm) ∧
    ∀ i, bm' !! i = Some true
         ↔ ∃ (f : filter_apply) bmf,
             f ∈ filters ∧ f bs bm = Some bmf ∧ bmf !! i = Some true.
Proof.
  intros [Ps H]%acts_as_exists_rows.
  exists (keepRows (unionRows Ps) bm). split; [by apply (filterOr_acts_as _ _ _ _ H) |].
  split; [apply length_keepRows |]. split.
  - intros ->. inversion H; subst. by rewrite resetBits_keepRows.
  - by apply unionRows_survivors.
Qed.

(** X10: [filterOr] does not depend on the order of its branches, a branch
    listed twice counts once, and an OR nested as a branch may be
    flattened. *)
Theorem filterOr_order_and_nesting (filters : list filter_apply) bs bm :
  Forall (λ f, ∃ P, acts_as_intersection f bs (length bm) P) filters →
  (∀ filters', filters ≡ₚ filters' →
     filterOr_apply filters bs bm = filterOr_apply filters' bs bm) ∧
  (∀ f, f ∈ filters →
     filterOr_apply (f :: filters) bs bm = filterOr_apply filters bs bm) ∧
  (∀ inner outer, filters = inner ++ outer →
     filterOr_apply (filterOr_apply inner :: outer) bs bm
     = filterOr_apply (inner ++ outer) bs bm).
Proof.
  intros Hall. split; [| split].
  - intros filters' Hperm.
    assert (Forall (λ f, ∃ P, acts_as_intersection f bs (length bm) P) filters') as Hall'
      by (by rewrite <- Hperm).
    apply acts_as_exists_rows in Hall as [Ps H], Hall' as [Ps' H'].
    rewrite (filterOr_acts_as _ _ _ _ H), (filterOr_acts_as _ _ _ _ H') by done.
    f_equal. apply (unionRows_Permutation bs bm filters filters'); [done | done |].
    intros f. by rewrite Hperm.
  - intros f Hin.
    assert (∃ P, acts_as_intersection f bs (length bm) P) as [P HP]
      by (by eapply (proj1 (Forall_forall _ _) Hall)).
    apply acts_as_exists_rows in Hall as [Ps H].
    assert (Forall2 (λ f P, acts_as_intersection f bs (length bm) P) (f :: filters) (P :: Ps))
      as H' by (by constructor).
    rewrite (filterOr_acts_as _ _ _ _ H), (filterOr_acts_as _ _ _ _ H') by done.
    f_equal. apply (unionRows_Permutation bs bm (f :: filters) filters); [done | done |].
    intros g. rewrite elem_of_cons. split; [by intros [-> | ?] | by right].
  - intros inner outer ->. apply Forall_app in Hall as [Hin Hout].
    apply acts_as_exists_rows in Hin as [Ps Hin], Hout as [Qs Hout].
    assert (Forall2 (λ f P, acts_as_intersection f bs (length bm) P)
              (filterOr_apply inner :: outer) (unionRows Ps :: Qs)) as Hnest.
    { constructor; [by apply filterOr_acts_as | done]. }
    rewrite (filterOr_acts_as _ _ _ _ Hnest) by done.
    rewrite (filterOr_acts_as _ _ _ _ (Forall2_app Hin Hout)) by done.
    f_equal. apply keepRows_ext. intros i _. by rewrite unionRows_app.
Qed.

(** X11: [filterNot] against [filterOr].  A filter OR its negation keeps
    the bitmap; the negation of an OR keeps the rows no branch keeps; and
    the negation of the OR of two negations is the two filters applied one
    after the other. *)
Theorem filterNot_filterOr_laws (f g : filter_apply) P Q bs bm :
  acts_as_intersection f bs (length bm) P →
  acts_as_intersection g bs (length bm) Q →
  filterOr_apply [f; filterNot_apply f] bs bm = Some bm ∧
  filterNot_apply (filterOr_apply [f; g]) bs bm
  = Some (keepRows (λ i, negb (P i) && negb (Q i)) bm) ∧
  filterNot_apply (filterOr_apply [filterNot_apply f; filterNot_apply g]) bs bm
  = (bmf ← f bs bm; g bs bmf).
Proof.
  intros Hf Hg.
  pose proof (filterNot_acts_as _ _ _ _ Hf) as Hnf.
  pose proof (filterNot_acts_as _ _ _ _ Hg) as Hng.
  split; [| split].
  - rewrite (filterOr_acts_as [f; filterNot_apply f] [P; λ i, negb (P i)] bs (length bm))
      by (repeat constructor; done).
    f_equal. rewrite <- (keepRows_true bm) at 2. apply keepRows_ext. intros i _.
    unfold unionRows. simpl. by destruct (P i).
  - rewrite (filterNot_acts_as _ _ _ _
               (filterOr_acts_as [f; g] [P; Q] bs (length bm)
                  ltac:(repeat constructor; done))) by done.
    f_equal. apply keepRows_ext. intros i _.
    unfold unionRows. simpl. by destruct (P i), (Q i).
  - rewrite (filterNot_acts_as _ _ _ _
               (filterOr_acts_as [filterNot_apply f; filterNot_apply g]
                  [λ i, negb (P i); λ i, negb (Q i)] bs (length bm)
                  ltac:(repeat constructor; done))) by done.
    rewrite Hf by done. simpl. rewrite Hg by apply length_keepRows.
    f_equal. rewrite keepRows_keepRows. apply keepRows_ext. intros i _.
    unfold unionRows. simpl. by destruct (P i), (Q i).
Qed.

End Evaluator.

(** ** fieldsSet *)

Module FieldsSetFacts.
Import FieldsSet.

Lemma contains_star (fs : fieldsSet) : contains fs "*" = true ↔ "*" ∈ fs.
Proof.
  unfold contains. destruct (bool_decide_reflect ("*" ∈ fs)); naive_solver.
Qed.

Lemma contains_of_star (fs : fieldsSet) f : "*" ∈ fs → contains fs f = true.
Proof.
  intros Hstar. unfold contains.
  destruct (bool_decide_reflect (f ∈ fs)); simpl; [done |].
  by apply bool_decide_eq_true_2.
Qed.

Lemma add_of_star (fs : fieldsSet) f : "*" ∈ fs → add fs f = fs.
Proof. intros Hstar. unfold add. by rewrite (proj2 (contains_star fs) Hstar). Qed.

Lemma remove_of_star (fs : fieldsSet) f : "*" ∈ fs → f ≠ "*" → remove fs f = fs.
Proof.
  intros Hstar Hf. unfold remove.
  rewrite bool_decide_eq_false_2 by done.
  by rewrite (proj2 (contains_star fs) Hstar).
Qed.

Lemma remove_star (fs : fieldsSet) : remove fs "*" = ∅.
Proof. done. Qed.

Lemma contains_star_false (fs : fieldsSet) : "*" ∉ fs → contains fs "*" = false.
Proof.
  intros H. apply not_true_is_false. by rewrite contains_star.
Qed.

Lemma add_star_fresh (fs : fieldsSet) : "*" ∉ fs → add fs "*" = {["*"]}.
Proof.
  intros Hstar. unfold add, reset. rewrite contains_star_false by done.
  simpl. apply (right_id_L ∅ (∪)).
Qed.

Lemma star_alone_empty : star_alone ∅.
Proof. intros Hin. by apply not_elem_of_empty in Hin. Qed.

Lemma star_alone_add fs f : star_alone fs → star_alone (add fs f).
Proof.
  intros Hinv. unfold add, reset.
  destruct (contains fs "*") eqn:Hc; [done |].
  assert ("*" ∉ fs) as Hstar.
  { intros Hin. apply contains_star in Hin. congruence. }
  destruct (bool_decide_reflect (f = "*")) as [-> | Hf]; intros Hin.
  - apply (right_id_L ∅ (∪)).
  - apply elem_of_union in Hin as [Hin | Hin]; [| done].
    apply elem_of_singleton in Hin. congruence.
Qed.

Lemma star_alone_remove fs f : star_alone fs → star_alone (remove fs f).
Proof.
  intros Hinv. unfold remove, reset.
  destruct (bool_decide_reflect (f = "*")) as [-> | Hf]; [apply star_alone_empty |].
  destruct (contains fs "*") eqn:Hc; simpl; [done |].
  intros Hin. apply elem_of_difference in Hin as [Hin _].
  apply contains_star in Hin. congruence.
Qed.

Lemma star_alone_addAll fields : ∀ fs, star_alone fs → star_alone (foldl add fs fields).
Proof.
  induction fields as [| f rest IH]; intros fs Hinv; simpl; [done |].
  by apply IH, star_alone_add.
Qed.

Lemma built_star_alone fs : built fs → star_alone fs.
Proof.
  induction 1 as [| fs Hb IH | fs f Hb IH | fs f Hb IH | fs Hb IH].
  - apply star_alone_empty.
  - apply star_alone_empty.
  - by apply star_alone_add.
  - by apply star_alone_remove.
  - apply star_alone_addAll, star_alone_empty.
Qed.

Lemma built_addAll fs fields : built fs → built (addAll fs fields).
Proof.
  unfold addAll. revert fs.
  induction fields as [| f rest IH]; intros fs Hb; simpl; [done |].
  by apply IH, built_add.
Qed.

Lemma built_removeAll fs fields : built fs → built (removeAll fs fields).
Proof.
  unfold removeAll. revert fs.
  induction fields as [| f rest IH]; intros fs Hb; simpl; [done |].
  by apply IH, built_remove.
Qed.

(** C10 as amended: on a set that holds "*", [contains] answers true for
    every field, [add] changes nothing and [remove] of a field other than
    "*" changes nothing; [remove "*"] empties any set; [add "*"] makes the
    set the singleton of "*" when it did not hold "*" before, and on every
    set built from [newFieldsSet] through the methods. *)
Theorem fieldsSet_star_absorbs :
  (∀ fs : fieldsSet, "*" ∈ fs →
     (∀ f, contains fs f = true) ∧
     (∀ f, add fs f = fs) ∧
     (∀ f, f ≠ "*" → remove fs f = fs)) ∧
  (∀ fs : fieldsSet, remove fs "*" = ∅) ∧
  (∀ fs : fieldsSet, "*" ∉ fs → add fs "*" = {["*"]}) ∧
  (∀ fs : fieldsSet, built fs → add fs "*" = {["*"]}).
Proof.
  split; [| split; [| split]].
  - intros fs Hstar. split; [| split]; intros f.
    + by apply contains_of_star.
    + by apply add_of_star.
    + by apply remove_of_star.
  - apply remove_star.
  - apply add_star_fresh.
  - intros fs Hb. destruct (decide ("*" ∈ fs)) as [Hstar | Hstar].
    + rewrite add_of_star by done. by apply built_star_alone.
    + by apply add_star_fresh.
Qed.

(** C10, the claim as stated fails: a map that holds "*" beside another key
    is returned unchanged by [add "*"], so it is not the singleton. *)
Lemma fieldsSet_add_star_counterexample :
  "*" ∈ ({["*"; "a"]} : fieldsSet) ∧ add {["*"; "a"]} "*" ≠ {["*"]}.
Proof.
  assert ("*" ∈ ({["*"; "a"]} : fieldsSet)) as Hstar.
  { apply elem_of_union_l. by apply elem_of_singleton. }
  split; [exact Hstar |].
  rewrite add_of_star by exact Hstar. intros Heq.
  assert ("a" ∈ ({["*"]} : fieldsSet)) as Ha.
  { rewrite <- Heq. apply elem_of_union_r. by apply elem_of_singleton. }
  apply elem_of_singleton in Ha. discriminate.
Qed.

(** After [add "a"], [add "b"] and [add "*"] the set is the singleton of
    "*" and contains every field. *)
Lemma fieldsSet_star_absorbs_witness :
  built (add (add newFieldsSet "a") "b") ∧
  add (add (add newFieldsSet "a") "b") "*" = {["*"]} ∧
  contains (add (add (add newFieldsSet "a") "b") "*") "level" = true.
Proof.
  assert (built (add (add newFieldsSet "a") "b")) as Hb by (repeat constructor).
  destruct fieldsSet_star_absorbs as (Hstar & _ & _ & Hadd).
  split; [exact Hb |]. split; [exact (Hadd _ Hb) |].
  rewrite (Hadd _ Hb). apply (Hstar {["*"]}). by apply elem_of_singleton.
Defined.

End FieldsSetFacts.

(** ** count_empty on const columns *)

(** C2, the divergence: over fields [a] (const) and [b] (string column
    with values "x" and ""), [updateStatsForAllRows] adds the whole block
    (2 rows) when [a] is the empty constant, although one row has every
    field empty, and it counts the empty values of [b] (2) when [a] is a
    non-empty constant, although no row has every field empty.  The per-row
    method agrees with the row count on both blocks. *)
Lemma count_empty_all_rows_ignores_other_fields :
  CountEmpty.updateStatsForAllRows Example.formatTimestamp Example.formatTyped
    countEmpty_a_b 0 emptyConstResult = Some 2 ∧
  CountEmpty.updateStatsForEachRow Example.formatTimestamp Example.formatTyped
    countEmpty_a_b 0 emptyConstResult = Some 1 ∧
  CountEmpty.countEmptyRows Example.formatTimestamp Example.formatTyped
    ["a"; "b"]%string emptyConstResult = 1%nat ∧
  CountEmpty.updateStatsForAllRows Example.formatTimestamp Example.formatTyped
    countEmpty_a_b 0 nonEmptyConstResult = Some 2 ∧
  CountEmpty.updateStatsForEachRow Example.formatTimestamp Example.formatTyped
    countEmpty_a_b 0 nonEmptyConstResult = Some 0 ∧
  CountEmpty.countEmptyRows Example.formatTimestamp Example.formatTyped
    ["a"; "b"]%string nonEmptyConstResult = 0%nat.
Proof. repeat split; vm_compute; reflexivity. Qed.

(** ** String ranges on ipv4 columns *)

(** C5, the divergence: the address 9.0.0.1 has the canonical form
    "9.0.0.1", which lies in ["9.0", "9.9"); string_range("9.0", "9.9")
    keeps the row of a string column holding that text, and clears the row
    of the ipv4 column, because of the pre-check [minValue > "9"]. *)
Lemma string_range_ipv4_prefilter_drops_match :
  toIPv4StringExt (byteString [9; 0; 0; 1]%nat) = Some "9.0.0.1"%string ∧
  matchStringRange "9.0.0.1" "9.0" "9.9" = true ∧
  filterStringRange_apply Example.formatBits Example.formatBits
    {| fsr_fieldName := "ip"; fsr_minValue := "9.0"; fsr_maxValue := "9.9" |}
    ipTextBlock [true] = Some [true] ∧
  filterStringRange_apply Example.formatBits Example.formatBits
    {| fsr_fieldName := "ip"; fsr_minValue := "9.0"; fsr_maxValue := "9.9" |}
    ipBlock [true] = Some [false].
Proof. repeat split; vm_compute; reflexivity. Qed.

(** ** Closed instances *)

(** C8, the claim as stated fails: for minValue = 2^70 and maxValue = 2^65
    both bounds clamp to 2^64-1, so the stored value 2^64-1 satisfies
    maxValue ≥ 0 and clamp(ceil(minValue)) ≤ n ≤ clamp(floor(maxValue)),
    but [filterRange] clears the row because minValue > maxValue. *)
Lemma filterRange_uint_range_counterexample :
  uintAtRow maxUint64Block (uintColumnHeader "n" valueTypeUint64 maxUint64 maxUint64) 0
  = Some maxUint64 ∧
  inUintRange (f64_of_Z (2 ^ 70)) (f64_of_Z (2 ^ 65)) maxUint64 = true ∧
  filterRange_apply Example.tryParseFloat64 Example.uint64_unrepresentable
    {| fr_fieldName := "n"; fr_minValue := f64_of_Z (2 ^ 70);
       fr_maxValue := f64_of_Z (2 ^ 65); fr_stringRepr := "(2^70, 2^65)" |}
    maxUint64Block [true] = Some [false].
Proof. repeat split; vm_compute; reflexivity. Qed.

(** The filters over the example helpers. *)
Abbreviation exampleRange :=
  (filterRange_apply Example.tryParseFloat64 Example.uint64_unrepresentable).
Abbreviation exampleStringRange :=
  (filterStringRange_apply Example.formatBits Example.formatBits).
Abbreviation examplePhrase :=
  (filterAnyCasePhrase_apply Example.matchPhrase Example.toLower Example.toUpper
     Example.toLower Example.tokenizeStrings Example.typedPrescan Example.typedMatch).

Lemma example_toLower_empty s : Example.toLower s = EmptyString ↔ s = EmptyString.
Proof. by destruct s. Qed.

(** On the fruit column a string range acts as intersection with the rows
    in the range. *)
Lemma fruit_range_acts minValue maxValue :
  str_gt minValue maxValue = false →
  acts_as_intersection
    (exampleStringRange
       {| fsr_fieldName := "foo"; fsr_minValue := minValue; fsr_maxValue := maxValue |})
    fruitBlock 5
    (fruitRows minValue maxValue).
Proof.
  intros Hgt.
  by apply (filterStringRange_string_column Example.formatBits Example.formatBits
              {| fsr_fieldName := "foo"; fsr_minValue := minValue; fsr_maxValue := maxValue |}).
Qed.

(** An OR of a string range and a negated phrase over the fruit column. *)
Lemma filters_only_clear_bits_witness :
  filterOr_apply
    [exampleStringRange {| fsr_fieldName := "foo"; fsr_minValue := "m"; fsr_maxValue := "p" |};
     filterNot_apply
       (examplePhrase {| fp_fieldName := "foo"; fp_phrase := "A" |})]
    fruitBlock [true; true; true; false; true]
  = Some [false; true; true; false; true] ∧
  bits_subset [false; true; true; false; true] [true; true; true; false; true].
Proof.
  destruct (filters_only_clear_bits Example.tryParseFloat64 Example.uint64_unrepresentable
              Example.matchPhrase Example.toLower Example.toUpper Example.toLower
              Example.tokenizeStrings Example.formatBits Example.formatBits
              Example.typedPrescan Example.typedMatch)
    as (_ & Hsr & Hp & Hnot & Hor & _).
  assert (filterOr_apply
            [exampleStringRange
               {| fsr_fieldName := "foo"; fsr_minValue := "m"; fsr_maxValue := "p" |};
             filterNot_apply (examplePhrase {| fp_fieldName := "foo"; fp_phrase := "A" |})]
            fruitBlock [true; true; true; false; true]
          = Some [false; true; true; false; true]) as Heval by (vm_compute; reflexivity).
  split; [exact Heval |].
  refine (Hor _ _ _ _ _ Heval).
  apply Forall_cons_2; [apply Hsr |].
  apply Forall_cons_2; [apply Hnot, Hp | apply Forall_nil_2].
Defined.

(** string_range("m", "p") OR string_range("a", "b") over the fruit column:
    the loop and the full-copy scheme both keep rows 0, 1, 2 and 4. *)
Lemma filterOr_is_union_witness :
  filterOr_apply
    [exampleStringRange {| fsr_fieldName := "foo"; fsr_minValue := "m"; fsr_maxValue := "p" |};
     exampleStringRange {| fsr_fieldName := "foo"; fsr_minValue := "a"; fsr_maxValue := "b" |}]
    fruitBlock [true; true; true; true; true]
  = Some [true; true; true; false; true] ∧
  filterOr_full
    [exampleStringRange {| fsr_fieldName := "foo"; fsr_minValue := "m"; fsr_maxValue := "p" |};
     exampleStringRange {| fsr_fieldName := "foo"; fsr_minValue := "a"; fsr_maxValue := "b" |}]
    fruitBlock [true; true; true; true; true] (getBitmap 5)
  = Some [true; true; true; false; true].
Proof.
  destruct (filterOr_is_union
               [exampleStringRange
                  {| fsr_fieldName := "foo"; fsr_minValue := "m"; fsr_maxValue := "p" |};
                exampleStringRange
                  {| fsr_fieldName := "foo"; fsr_minValue := "a"; fsr_maxValue := "b" |}]
               [fruitRows "m" "p"; fruitRows "a" "b"]
               fruitBlock [true; true; true; true; true]) as [Hunion Hfull].
  { constructor; [by apply fruit_range_acts |].
    constructor; [by apply fruit_range_acts | constructor]. }
  assert (filterOr_apply
            [exampleStringRange
               {| fsr_fieldName := "foo"; fsr_minValue := "m"; fsr_maxValue := "p" |};
             exampleStringRange
               {| fsr_fieldName := "foo"; fsr_minValue := "a"; fsr_maxValue := "b" |}]
            fruitBlock [true; true; true; true; true]
          = Some [true; true; true; false; true]) as Heval.
  { rewrite Hunion. vm_compute. reflexivity. }
  split; [exact Heval |]. rewrite <- Heval. symmetry. exact Hfull.
Defined.

(** NOT NOT string_range("m", "p") over the fruit column with row 2 inactive. *)
Lemma filterNot_subtracts_and_is_involutive_witness :
  filterNot_apply
    (filterNot_apply
       (exampleStringRange
          {| fsr_fieldName := "foo"; fsr_minValue := "m"; fsr_maxValue := "p" |}))
    fruitBlock [true; true; false; true; true]
  = Some [false; true; false; false; true].
Proof.
  destruct filterNot_subtracts_and_is_involutive as [_ Hinv].
  rewrite (Hinv _ fruitBlock _ [true; true; false; true; true]
             (fruit_range_acts "m" "p" eq_refl)).
  vm_compute. reflexivity.
Defined.

(** The fruit block has no field "bar". *)
Lemma absent_column_is_empty_string_witness :
  getConstColumnValue fruitBlock "bar" = EmptyString ∧
  getColumnHeader fruitBlock "bar" = None ∧
  examplePhrase {| fp_fieldName := "bar"; fp_phrase := "" |} fruitBlock
    [true; false; true; true; true] = Some [true; false; true; true; true] ∧
  examplePhrase {| fp_fieldName := "bar"; fp_phrase := "Err" |} fruitBlock
    [true; false; true; true; true] = Some [false; false; false; false; false] ∧
  exampleStringRange {| fsr_fieldName := "bar"; fsr_minValue := ""; fsr_maxValue := "p" |}
    fruitBlock [true; false; true; true; true] = Some [true; false; true; true; true] ∧
  exampleRange {| fr_fieldName := "bar"; fr_minValue := f64_of_Z 0;
                  fr_maxValue := f64_of_Z 10; fr_stringRepr := "[0, 10]" |}
    fruitBlock [true; false; true; true; true] = Some [false; false; false; false; false].
Proof.
  destruct (absent_column_is_empty_string Example.tryParseFloat64
              Example.uint64_unrepresentable Example.matchPhrase Example.toLower
              Example.toUpper Example.toLower Example.tokenizeStrings
              Example.formatBits Example.formatBits Example.typedPrescan
              Example.typedMatch fruitBlock [true; false; true; true; true] "bar"
              example_toLower_empty eq_refl eq_refl eq_refl)
    as (Hp & Hsr & Hr).
  split; [reflexivity |]. split; [reflexivity |].
  split; [exact (proj2 (Hp {| fp_fieldName := "bar"; fp_phrase := "" |} eq_refl)) |].
  split; [exact (proj2 (Hp {| fp_fieldName := "bar"; fp_phrase := "Err" |} eq_refl)) |].
  split.
  - exact (proj1 (Hsr {| fsr_fieldName := "bar"; fsr_minValue := ""; fsr_maxValue := "p" |}
                    eq_refl)).
  - exact (proj2 (Hr {| fr_fieldName := "bar"; fr_minValue := f64_of_Z 0;
                        fr_maxValue := f64_of_Z 10; fr_stringRepr := "[0, 10]" |} eq_refl)).
Defined.

Lemma sizeBlock_column_ok :
  column_ok sizeBlock (uintColumnHeader "size" valueTypeUint8 5 200) 3.
Proof.
  split; [reflexivity |]. intros v w Hv [= <-].
  apply list_elem_of_In in Hv. simpl in Hv.
  destruct Hv as [<- | [<- | [<- | []]]]; reflexivity.
Qed.

Lemma sizeBlock_bounds v :
  v ∈ getValuesForColumn sizeBlock (uintColumnHeader "size" valueTypeUint8 5 200) →
  5 ≤ unmarshalUint v ≤ 200.
Proof.
  intros Hv. apply list_elem_of_In in Hv. simpl in Hv.
  destruct Hv as [<- | [<- | [<- | []]]]; vm_compute; split; discriminate.
Qed.

(** range[10.5, 200.5] and range[-7, -0.5] over the uint8 column 5, 200, 17. *)
Lemma filterRange_uint_range_witness :
  column_ok sizeBlock (uintColumnHeader "size" valueTypeUint8 5 200) 3 ∧
  exampleRange {| fr_fieldName := "size"; fr_minValue := Fin (21 # 2);
                  fr_maxValue := Fin (401 # 2); fr_stringRepr := "[10.5, 200.5]" |}
    sizeBlock [true; true; true] = Some [false; true; true] ∧
  exampleRange {| fr_fieldName := "size"; fr_minValue := f64_of_Z (-7);
                  fr_maxValue := Fin (-1 # 2); fr_stringRepr := "[-7, -0.5]" |}
    sizeBlock [true; true; true] = Some [false; false; false].
Proof.
  split; [exact sizeBlock_column_ok |]. split.
  - destruct (filterRange_uint_range Example.tryParseFloat64 Example.uint64_unrepresentable
                {| fr_fieldName := "size"; fr_minValue := Fin (21 # 2);
                   fr_maxValue := Fin (401 # 2); fr_stringRepr := "[10.5, 200.5]" |}
                sizeBlock (uintColumnHeader "size" valueTypeUint8 5 200)
                [true; true; true] eq_refl eq_refl eq_refl
                sizeBlock_column_ok sizeBlock_bounds) as (_ & _ & Hin).
    rewrite Hin; [vm_compute; reflexivity | reflexivity | discriminate | discriminate].
  - destruct (filterRange_uint_range Example.tryParseFloat64 Example.uint64_unrepresentable
                {| fr_fieldName := "size"; fr_minValue := f64_of_Z (-7);
                   fr_maxValue := Fin (-1 # 2); fr_stringRepr := "[-7, -0.5]" |}
                sizeBlock (uintColumnHeader "size" valueTypeUint8 5 200)
                [true; true; true] eq_refl eq_refl eq_refl
                sizeBlock_column_ok sizeBlock_bounds) as (Hneg & _).
    exact (Hneg eq_refl).
Defined.


(** ** count_empty, one row at a time *)

Section CountEmptyPerRow.
Import CountEmpty.

Context (formatTimestamp : Z → string).
Context (formatTyped : valueType → string → option string).

(** The string form of a timestamp and of a numeric value is never empty. *)
Hypothesis formatTimestamp_nonempty : ∀ ts, formatTimestamp ts ≠ EmptyString.
Hypothesis formatTyped_nonempty : ∀ vt v, formatTyped vt v ≠ Some EmptyString.

Lemma isEmptyString_decide v :
  isEmptyString v = bool_decide (Some v = Some EmptyString).
Proof. destruct v; done. Qed.

Lemma allEmptyAtRow_forallb cs br rowIdx ok :
  allEmptyAtRow formatTimestamp formatTyped cs br rowIdx = Some ok →
  ok = forallb (λ c, bool_decide
                       (getValueAtRow formatTimestamp formatTyped c br rowIdx
                        = Some EmptyString)) cs.
Proof.
  induction cs as [| c rest IH]; simpl; [by intros [= <-] |].
  destruct (getValueAtRow _ _ c br rowIdx) as [v |]; simpl; [| done].
  destruct v; simpl; [| by intros [= <-]]. apply IH.
Qed.

Lemma rowHasAllEmpty_map fields br rowIdx :
  rowHasAllEmpty formatTimestamp formatTyped fields br rowIdx
  = forallb (λ c, bool_decide
                    (getValueAtRow formatTimestamp formatTyped c br rowIdx
                     = Some EmptyString))
            (map (getColumnByName br) fields).
Proof.
  unfold rowHasAllEmpty. induction fields as [| f rest IH]; simpl; [done |].
  by rewrite IH.
Qed.

Lemma updateStatsForRow_single f sc rowsCount br rowIdx r :
  sc_containsStar sc = false → sc_fields sc = [f] →
  updateStatsForRow formatTimestamp formatTyped sc rowsCount br rowIdx = Some r →
  r = if rowHasAllEmpty formatTimestamp formatTyped [f] br rowIdx
      then wrap64 (rowsCount + 1) else rowsCount.
Proof.
  intros Hstar Hf. unfold updateStatsForRow, rowHasAllEmpty. rewrite Hstar, Hf. simpl.
  rewrite andb_true_r. unfold getValueAtRow.
  destruct (c_isConst (getColumnByName br f)).
  { destruct (c_encodedValues _ !! 0%nat) as [v0 |]; simpl; [| done].
    intros [= <-]. by rewrite isEmptyString_decide. }
  destruct (c_isTime (getColumnByName br f)).
  { intros [= <-]. rewrite bool_decide_eq_false_2; [done |].
    destruct (br_timestamps br !! rowIdx) as [ts |]; simpl; [| done].
    intros [= Heq]. by apply formatTimestamp_nonempty in Heq. }
  destruct (c_valueType (getColumnByName br f)) eqn:Hvt;
    try (intros [= <-]; rewrite bool_decide_eq_false_2; [done |];
         destruct (c_encodedValues _ !! rowIdx) as [v |]; simpl; [| done];
         apply formatTyped_nonempty).
  - destruct (c_encodedValues _ !! rowIdx) as [v |]; simpl; [| done].
    intros [= <-]. by rewrite isEmptyString_decide.
  - destruct (c_encodedValues _ !! rowIdx) as [e |]; simpl; [| done].
    destruct (firstByte e) as [dictIdx |]; simpl; [| done].
    destruct (c_dictValues _ !! dictIdx) as [v |]; simpl; [| done].
    intros [= <-]. by rewrite isEmptyString_decide.
Qed.

(** The per-row update of count_empty adds one to the count exactly when
    every listed field (every column, for [*]) is empty at the row. *)
Lemma updateStatsForRow_counts_empty_row sc rowsCount br rowIdx r :
  updateStatsForRow formatTimestamp formatTyped sc rowsCount br rowIdx = Some r →
  r = if (if sc_containsStar sc
          then rowHasAllColumnsEmpty formatTimestamp formatTyped br rowIdx
          else rowHasAllEmpty formatTimestamp formatTyped (sc_fields sc) br rowIdx)
      then wrap64 (rowsCount + 1) else rowsCount.
Proof.
  destruct (sc_containsStar sc) eqn:Hstar.
  - unfold updateStatsForRow. rewrite Hstar.
    destruct (allEmptyAtRow _ _ _ br rowIdx) as [ok |] eqn:Hok; simpl; [| done].
    intros [= <-]. apply allEmptyAtRow_forallb in Hok as ->. done.
  - destruct (sc_fields sc) as [| f [| g rest]] eqn:Hf.
    + unfold updateStatsForRow. rewrite Hstar, Hf. simpl. by intros [= <-].
    + by apply updateStatsForRow_single.
    + unfold updateStatsForRow. rewrite Hstar, Hf.
      destruct (allEmptyAtRow _ _ _ br rowIdx) as [ok |] eqn:Hok; simpl; [| done].
      intros [= <-]. apply allEmptyAtRow_forallb in Hok as ->.
      by rewrite rowHasAllEmpty_map.
Qed.

Lemma allEmptyAtRow_is_Some cs br rowIdx :
  Forall (λ c, is_Some (getValueAtRow formatTimestamp formatTyped c br rowIdx)) cs →
  is_Some (allEmptyAtRow formatTimestamp formatTyped cs br rowIdx).
Proof.
  induction 1 as [| c rest [v Hv] _ IH]; simpl; [done |].
  rewrite Hv. simpl. by destruct (str_nonempty v).
Qed.

Lemma updateStatsForRow_is_Some sc rowsCount br rowIdx :
  Forall (λ c, is_Some (getValueAtRow formatTimestamp formatTyped c br rowIdx))
         (countedColumns sc br) →
  is_Some (updateStatsForRow formatTimestamp formatTyped sc rowsCount br rowIdx).
Proof.
  unfold countedColumns, updateStatsForRow. intros Hread.
  destruct (sc_containsStar sc).
  { destruct (allEmptyAtRow_is_Some _ _ _ Hread) as [ok ->]. done. }
  destruct (sc_fields sc) as [| f [| g rest]] eqn:Hf.
  - done.
  - apply Forall_cons in Hread as [[v Hv] _]. unfold getValueAtRow in Hv.
    destruct (c_isConst (getColumnByName br f)); [by rewrite Hv |].
    destruct (c_isTime (getColumnByName br f)); [done |].
    destruct (c_valueType (getColumnByName br f)); try done.
    + by rewrite Hv.
    + destruct (c_encodedValues _ !! rowIdx) as [e |]; simpl in *; [| done].
      destruct (firstByte e) as [dictIdx |]; simpl in *; [| done].
      by rewrite Hv.
  - destruct (allEmptyAtRow_is_Some _ _ _ Hread) as [ok ->]. done.
Qed.

(** X3: the per-row update of count_empty, when the row holds a value for
    every counted column: it returns, and adds one to the count exactly when every
    listed field (every column, for [*]) is empty at the row. *)
Lemma updateStatsForRow_counts_empty_rows sc rowsCount br rowIdx :
  Forall (λ c, is_Some (getValueAtRow formatTimestamp formatTyped c br rowIdx))
         (countedColumns sc br) →
  updateStatsForRow formatTimestamp formatTyped sc rowsCount br rowIdx
  = Some (if (if sc_containsStar sc
              then rowHasAllColumnsEmpty formatTimestamp formatTyped br rowIdx
              else rowHasAllEmpty formatTimestamp formatTyped (sc_fields sc) br rowIdx)
          then wrap64 (rowsCount + 1) else rowsCount).
Proof.
  intros Hread.
  destruct (updateStatsForRow_is_Some sc rowsCount br rowIdx Hread) as [r Hr].
  rewrite Hr. f_equal. by apply updateStatsForRow_counts_empty_row.
Qed.

End CountEmptyPerRow.

(** ** Further closed instances *)

Lemma formatUint_nonempty n : formatUint n ≠ EmptyString.
Proof.
  unfold formatUint. destruct (N.to_uint (Z.to_N n)); done.
Qed.

Lemma example_formatTyped_nonempty vt v : Example.formatTyped vt v ≠ Some EmptyString.
Proof. unfold Example.formatTyped. intros [= H]. by apply formatUint_nonempty in H. Qed.

(** Rows 0 and 1 of the block with the empty constant [a]: only row 1 has
    [b] empty too. *)
Lemma updateStatsForRow_counts_empty_rows_witness :
  CountEmpty.updateStatsForRow Example.formatTimestamp Example.formatTyped
    countEmpty_a_b 0 emptyConstResult 0 = Some 0 ∧
  CountEmpty.updateStatsForRow Example.formatTimestamp Example.formatTyped
    countEmpty_a_b 0 emptyConstResult 1 = Some 1.
Proof.
  split.
  - rewrite (updateStatsForRow_counts_empty_rows Example.formatTimestamp
               Example.formatTyped formatUint_nonempty example_formatTyped_nonempty
               countEmpty_a_b 0 emptyConstResult 0);
      [vm_compute; reflexivity |].
    repeat (apply Forall_cons_2 || apply Forall_nil_2); vm_compute; eauto.
  - rewrite (updateStatsForRow_counts_empty_rows Example.formatTimestamp
               Example.formatTyped formatUint_nonempty example_formatTyped_nonempty
               countEmpty_a_b 0 emptyConstResult 1);
      [vm_compute; reflexivity |].
    repeat (apply Forall_cons_2 || apply Forall_nil_2); vm_compute; eauto.
Defined.

Lemma ipBlock_column_ok :
  column_ok ipBlock (uintColumnHeader "ip" valueTypeIPv4 150994945 150994945) 1.
Proof.
  split; [reflexivity |]. intros v w Hv [= <-].
  apply list_elem_of_In in Hv. simpl in Hv.
  destruct Hv as [<- | []]; reflexivity.
Qed.

(** Even range(-inf, inf) clears the row of the ipv4 column. *)
Lemma filterRange_clears_ipv4_iso8601_witness :
  exampleRange {| fr_fieldName := "ip"; fr_minValue := Inf true;
                  fr_maxValue := Inf false; fr_stringRepr := "(-inf, inf)" |}
    ipBlock [true] = Some [false].
Proof.
  exact (filterRange_clears_ipv4_iso8601 Example.tryParseFloat64
           Example.uint64_unrepresentable
           {| fr_fieldName := "ip"; fr_minValue := Inf true;
              fr_maxValue := Inf false; fr_stringRepr := "(-inf, inf)" |}
           ipBlock (uintColumnHeader "ip" valueTypeIPv4 150994945 150994945) [true]
           eq_refl eq_refl (or_introl eq_refl)).
Defined.

(** string_range("9", "9.9") passes the pre-check and keeps 9.0.0.1. *)
Lemma filterStringRange_ipv4_column_witness :
  exampleStringRange {| fsr_fieldName := "ip"; fsr_minValue := "9"; fsr_maxValue := "9.9" |}
    ipBlock [true] = Some [true].
Proof.
  rewrite (filterStringRange_ipv4_column Example.formatBits Example.formatBits
             {| fsr_fieldName := "ip"; fsr_minValue := "9"; fsr_maxValue := "9.9" |}
             ipBlock (uintColumnHeader "ip" valueTypeIPv4 150994945 150994945) [true]
             eq_refl eq_refl eq_refl ipBlock_column_ok eq_refl eq_refl eq_refl).
  vm_compute. reflexivity.
Defined.

(** ** Sanity checks of the helpers *)

Example unmarshalUint_two_bytes : unmarshalUint (byteString [1; 2]%nat) = 258.
Proof. reflexivity. Qed.

Example formatUint_65535 : formatUint 65535 = "65535"%string.
Proof. reflexivity. Qed.

(** 0x3FF0000000000000 is 1.0, decoded as 2^52 / 2^52. *)
Example float64frombits_one :
  math_Float64frombits 4607182418800017408
  = Fin (4503599627370496 # 4503599627370496) ∧
  f64_le (math_Float64frombits 4607182418800017408) (f64_of_Z 1) = true ∧
  f64_ge (math_Float64frombits 4607182418800017408) (f64_of_Z 1) = true.
Proof. repeat split; reflexivity. Qed.

(** 0xBFF8000000000000 is -1.5. *)
Example float64frombits_minus_three_halves :
  math_Float64frombits 13832806255468478464 = Fin (-6755399441055744 # 4503599627370496).
Proof. reflexivity. Qed.

Example float64frombits_inf : math_Float64frombits 9218868437227405312 = Inf false.
Proof. reflexivity. Qed.

Example float64frombits_nan : math_Float64frombits 9221120237041090560 = NaN.
Proof. reflexivity. Qed.

Example toUint64Clamp_two64 :
  toUint64Clamp Example.uint64_unrepresentable math_MaxUint64_f64 = 2 ^ 63.
Proof. reflexivity. Qed.

Example matchStringRange_left_closed : matchStringRange "m" "m" "p" = true.
Proof. reflexivity. Qed.

Example matchStringRange_right_open : matchStringRange "p" "m" "p" = false.
Proof. reflexivity. Qed.

(** ** fieldsSet: bulk operations, lookup after update, clone and getAll *)

Module FieldsSetMore.
Import FieldsSet FieldsSetFacts.

Lemma foldl_add_of_star fields : ∀ fs : fieldsSet, "*" ∈ fs → foldl add fs fields = fs.
Proof.
  induction fields as [| f rest IH]; intros fs Hstar; cbn [foldl]; [done |].
  rewrite add_of_star by done. by apply IH.
Qed.

Lemma add_plain (fs : fieldsSet) f : "*" ∉ fs → f ≠ "*" → add fs f = {[f]} ∪ fs.
Proof.
  intros Hstar Hf. unfold add. rewrite contains_star_false by done.
  by rewrite bool_decide_eq_false_2.
Qed.

Lemma addAll_eq (fs : fieldsSet) fields :
  addAll fs fields
  = if bool_decide ("*" ∈ fs) then fs
    else if bool_decide ("*" ∈ fields) then {["*"]}
    else fs ∪ list_to_set fields.
Proof.
  unfold addAll. revert fs.
  induction fields as [| f rest IH]; intros fs;
    cbn [foldl]; rewrite ?list_to_set_nil, ?list_to_set_cons.
  - destruct (bool_decide_reflect ("*" ∈ fs)); [done |].
    rewrite bool_decide_eq_false_2 by apply not_elem_of_nil.
    by rewrite (right_id_L ∅ (∪)).
  - destruct (bool_decide_reflect ("*" ∈ fs)) as [Hstar | Hstar].
    { rewrite add_of_star by done. by apply foldl_add_of_star. }
    destruct (decide (f = "*")) as [-> | Hf].
    + rewrite add_star_fresh by done.
      rewrite foldl_add_of_star by (by apply elem_of_singleton).
      rewrite bool_decide_eq_true_2 by left. done.
    + rewrite add_plain by done. rewrite IH.
      rewrite bool_decide_eq_false_2.
      2:{ intros [Hin%elem_of_singleton | Hin]%elem_of_union; congruence. }
      destruct (bool_decide_reflect ("*" ∈ rest)) as [Hr | Hr].
      * rewrite bool_decide_eq_true_2 by (by right). done.
      * rewrite bool_decide_eq_false_2.
        2:{ intros [Heq | Hin]%elem_of_cons; congruence. }
        rewrite (comm_L (∪) {[f]} fs). by rewrite (assoc_L (∪)).
Qed.

Lemma foldl_remove_empty fields : foldl remove (∅ : fieldsSet) fields = ∅.
Proof.
  induction fields as [| f rest IH]; cbn [foldl]; [done |].
  assert (remove (∅ : fieldsSet) f = ∅) as ->; [| done].
  unfold remove, reset. destruct (bool_decide (f = "*")); [done |].
  rewrite contains_star_false by apply not_elem_of_empty. simpl.
  apply set_eq. intros x. rewrite elem_of_difference.
  split; [by intros [? _] | by intros ?%not_elem_of_empty].
Qed.

Lemma remove_plain (fs : fieldsSet) f : "*" ∉ fs → f ≠ "*" → remove fs f = fs ∖ {[f]}.
Proof.
  intros Hstar Hf. unfold remove. rewrite bool_decide_eq_false_2 by done.
  by rewrite contains_star_false.
Qed.

Lemma removeAll_eq (fs : fieldsSet) fields :
  removeAll fs fields
  = if bool_decide ("*" ∈ fields) then ∅
    else if bool_decide ("*" ∈ fs) then fs
    else fs ∖ list_to_set fields.
Proof.
  unfold removeAll. revert fs.
  induction fields as [| f rest IH]; intros fs;
    cbn [foldl]; rewrite ?list_to_set_nil, ?list_to_set_cons.
  - rewrite bool_decide_eq_false_2 by apply not_elem_of_nil.
    destruct (bool_decide ("*" ∈ fs)); [done |].
    apply set_eq. intros x. rewrite elem_of_difference.
    split; [intros ?; split; [done | apply not_elem_of_empty] | by intros [? _]].
  - destruct (decide (f = "*")) as [-> | Hf].
    { rewrite remove_star, foldl_remove_empty.
      rewrite bool_decide_eq_true_2 by left. done. }
    rewrite IH.
    destruct (bool_decide_reflect ("*" ∈ rest)) as [Hr | Hr].
    { rewrite bool_decide_eq_true_2 by (by right). done. }
    rewrite (bool_decide_eq_false_2 ("*" ∈ f :: rest)).
    2:{ intros [Heq | Hin]%elem_of_cons; congruence. }
    destruct (bool_decide_reflect ("*" ∈ fs)) as [Hstar | Hstar].
    + rewrite remove_of_star by done. by rewrite bool_decide_eq_true_2.
    + rewrite remove_plain by done.
      rewrite bool_decide_eq_false_2.
      2:{ intros [Hin _]%elem_of_difference. done. }
      apply set_eq. intros x.
      rewrite !elem_of_difference, elem_of_union, elem_of_singleton. tauto.
Qed.

(** X12: [addAll] in closed form.  A set that holds "*" is left alone;
    otherwise a list that holds "*" makes the set the singleton of "*", and
    a list without "*" is united with the set.  The result therefore does
    not depend on the order or the repetitions of the list. *)
Theorem addAll_closed_form :
  (∀ (fs : fieldsSet) fields,
     addAll fs fields
     = if bool_decide ("*" ∈ fs) then fs
       else if bool_decide ("*" ∈ fields) then {["*"]}
       else fs ∪ list_to_set fields) ∧
  (∀ (fs : fieldsSet) fields fields',
     (∀ f, f ∈ fields ↔ f ∈ fields') → addAll fs fields = addAll fs fields') ∧
  (∀ (fs : fieldsSet) fields f,
     f ∈ fields → contains (addAll fs fields) f = true).
Proof.
  split; [apply addAll_eq |]. split.
  - intros fs fields fields' Hsame. rewrite !addAll_eq.
    assert (list_to_set fields = (list_to_set fields' : fieldsSet)) as ->.
    { apply set_eq. intros x. by rewrite !elem_of_list_to_set. }
    destruct (bool_decide ("*" ∈ fs)); [done |].
    destruct (bool_decide_reflect ("*" ∈ fields)) as [Hin | Hin].
    + rewrite (bool_decide_eq_true_2 ("*" ∈ fields')) by (by apply Hsame). done.
    + rewrite (bool_decide_eq_false_2 ("*" ∈ fields'))
        by (intros Hx; by apply Hsame in Hx). done.
  - intros fs fields f Hin. rewrite addAll_eq.
    destruct (bool_decide_reflect ("*" ∈ fs)) as [Hstar | Hstar].
    { by apply contains_of_star. }
    destruct (bool_decide_reflect ("*" ∈ fields)) as [Hr | Hr].
    { apply contains_of_star. by apply elem_of_singleton. }
    unfold contains. rewrite bool_decide_eq_true_2; [done |].
    apply elem_of_union_r. by apply elem_of_list_to_set.
Qed.

(** X13: [removeAll] in closed form.  A list that holds "*" empties the
    set; otherwise a set that holds "*" is left alone, and from a set
    without "*" the listed fields are taken away.  The result does not
    depend on the order or the repetitions of the list. *)
Theorem removeAll_closed_form :
  (∀ (fs : fieldsSet) fields,
     removeAll fs fields
     = if bool_decide ("*" ∈ fields) then ∅
       else if bool_decide ("*" ∈ fs) then fs
       else fs ∖ list_to_set fields) ∧
  (∀ (fs : fieldsSet) fields fields',
     (∀ f, f ∈ fields ↔ f ∈ fields') → removeAll fs fields = removeAll fs fields') ∧
  (∀ (fs : fieldsSet) fields f,
     "*" ∉ fs → f ∈ fields → contains (removeAll fs fields) f = false).
Proof.
  split; [apply removeAll_eq |]. split.
  - intros fs fields fields' Hsame. rewrite !removeAll_eq.
    assert (list_to_set fields = (list_to_set fields' : fieldsSet)) as ->.
    { apply set_eq. intros x. by rewrite !elem_of_list_to_set. }
    destruct (bool_decide_reflect ("*" ∈ fields)) as [Hin | Hin].
    + rewrite (bool_decide_eq_true_2 ("*" ∈ fields')) by (by apply Hsame). done.
    + rewrite (bool_decide_eq_false_2 ("*" ∈ fields'))
        by (intros Hx; by apply Hsame in Hx). done.
  - intros fs fields f Hstar Hin. rewrite removeAll_eq.
    destruct (bool_decide_reflect ("*" ∈ fields)) as [Hr | Hr].
    { unfold contains. by rewrite !bool_decide_eq_false_2 by apply not_elem_of_empty. }
    rewrite (bool_decide_eq_false_2 ("*" ∈ fs)) by done.
    unfold contains. rewrite !bool_decide_eq_false_2; [done | |].
    + intros [Hx _]%elem_of_difference. done.
    + intros [_ Hx]%elem_of_difference. apply Hx. by apply elem_of_list_to_set.
Qed.

(** X14: lookup after update.  After [add f] the set contains what it
    contained before and [f], and everything if [f] is "*"; after
    [remove f] it contains nothing if [f] is "*", everything if the set
    holds "*", and otherwise what it contained before except [f]. *)
Theorem contains_after_add_remove (fs : fieldsSet) f g :
  contains (add fs f) g
  = contains fs g || bool_decide (g = f) || bool_decide (f = "*") ∧
  contains (remove fs f) g
  = (if bool_decide (f = "*") then false
     else if bool_decide ("*" ∈ fs) then true
     else contains fs g && negb (bool_decide (g = f))).
Proof.
  split.
  - destruct (decide ("*" ∈ fs)) as [Hstar | Hstar].
    { rewrite add_of_star by done. by rewrite contains_of_star. }
    destruct (decide (f = "*")) as [-> | Hf].
    { rewrite add_star_fresh by done.
      rewrite contains_of_star by (by apply elem_of_singleton).
      by rewrite orb_true_r. }
    rewrite add_plain by done. rewrite (bool_decide_eq_false_2 (f = "*")) by done.
    rewrite orb_false_r. unfold contains.
    rewrite (bool_decide_eq_false_2 ("*" ∈ fs)) by done.
    rewrite (bool_decide_eq_false_2 ("*" ∈ {[f]} ∪ fs)).
    2:{ intros [Hin%elem_of_singleton | Hin]%elem_of_union; congruence. }
    destruct (bool_decide_reflect (g ∈ fs)) as [Hg | Hg]; simpl.
    + rewrite bool_decide_eq_true_2 by (by apply elem_of_union_r). done.
    + destruct (bool_decide_reflect (g = f)) as [-> | Hgf].
      * rewrite bool_decide_eq_true_2; [done |].
        apply elem_of_union_l. by apply elem_of_singleton.
      * rewrite bool_decide_eq_false_2; [done |].
        intros [Hin%elem_of_singleton | Hin]%elem_of_union; congruence.
  - destruct (bool_decide_reflect (f = "*")) as [-> | Hf].
    { rewrite remove_star. unfold contains.
      by rewrite !bool_decide_eq_false_2 by apply not_elem_of_empty. }
    destruct (bool_decide_reflect ("*" ∈ fs)) as [Hstar | Hstar].
    { rewrite remove_of_star by done. by apply contains_of_star. }
    rewrite remove_plain by done. unfold contains.
    rewrite (bool_decide_eq_false_2 ("*" ∈ fs)) by done.
    rewrite (bool_decide_eq_false_2 ("*" ∈ fs ∖ {[f]})).
    2:{ intros [Hin _]%elem_of_difference. done. }
    destruct (bool_decide_reflect (g ∈ fs)) as [Hg | Hg]; simpl.
    + destruct (bool_decide_reflect (g = f)) as [-> | Hgf]; simpl.
      * rewrite bool_decide_eq_false_2; [done |].
        intros [_ Hx]%elem_of_difference. apply Hx. by apply elem_of_singleton.
      * rewrite bool_decide_eq_true_2; [done |].
        apply elem_of_difference. split; [done |]. by rewrite elem_of_singleton.
    + rewrite bool_decide_eq_false_2; [done |].
      intros [Hx _]%elem_of_difference. done.
Qed.

#[local] Instance sortsBefore_total : Total sortsBefore.
Proof. intros a b. apply String.leb_total. Qed.

#[local] Instance sortsBefore_trans : Transitive sortsBefore.
Proof.
  intros a b c. unfold sortsBefore. rewrite !str_le_spec. apply bytes_le_trans.
Qed.

Lemma elem_of_getAll (fs : fieldsSet) f : f ∈ getAll fs ↔ f ∈ fs.
Proof. unfold getAll. by rewrite merge_sort_Permutation, elem_of_elements. Qed.

Lemma NoDup_getAll (fs : fieldsSet) : NoDup (getAll fs).
Proof. unfold getAll. rewrite merge_sort_Permutation. apply NoDup_elements. Qed.

Lemma list_to_set_getAll (fs : fieldsSet) : list_to_set (getAll fs) = fs.
Proof. apply set_eq. intros x. by rewrite elem_of_list_to_set, elem_of_getAll. Qed.

Lemma StronglySorted_strict (l : list string) :
  StronglySorted sortsBefore l → NoDup l → StronglySorted bytes_lt l.
Proof.
  induction 1 as [| a l Hs IH Hall]; intros Hnd; [constructor |].
  apply NoDup_cons in Hnd as [Ha Hnd]. constructor; [by apply IH |].
  apply Forall_forall. intros x Hx.
  pose proof (proj1 (Forall_forall _ _) Hall x Hx) as Hle.
  apply str_le_spec in Hle as [-> | Hlt]; [| done].
  done.
Qed.

(** X15: [getAll] lists exactly the members of the set, each once, in
    strictly increasing byte order; two sets with the same listing are the
    same set. *)
Theorem getAll_sorted_members :
  (∀ (fs : fieldsSet) f, f ∈ getAll fs ↔ f ∈ fs) ∧
  (∀ fs : fieldsSet, StronglySorted bytes_lt (getAll fs)) ∧
  (∀ fs : fieldsSet, length (getAll fs) = size fs) ∧
  (∀ fs fs' : fieldsSet, getAll fs = getAll fs' → fs = fs').
Proof.
  split; [apply elem_of_getAll |]. split; [| split].
  - intros fs. apply StronglySorted_strict; [| apply NoDup_getAll].
    apply Sorted_StronglySorted; [apply _ |].
    unfold getAll. apply (Sorted_merge_sort sortsBefore).
  - intros fs. unfold getAll. by rewrite merge_sort_Permutation.
  - intros fs fs' Heq. by rewrite <- (list_to_set_getAll fs), Heq, list_to_set_getAll.
Qed.

(** X16: [clone] copies a set built through the methods; of a set that
    holds "*" beside other keys it keeps only "*".  The clone contains
    exactly what the original contains. *)
Theorem clone_closed_form :
  (∀ fs : fieldsSet, clone fs = if bool_decide ("*" ∈ fs) then {["*"]} else fs) ∧
  (∀ fs : fieldsSet, built fs → clone fs = fs) ∧
  (∀ (fs : fieldsSet) f, contains (clone fs) f = contains fs f).
Proof.
  assert (∀ fs : fieldsSet, clone fs = if bool_decide ("*" ∈ fs) then {["*"]} else fs) as Hc.
  { intros fs. unfold clone. change (foldl add newFieldsSet (getAll fs))
      with (addAll ∅ (getAll fs)).
    rewrite addAll_eq. rewrite bool_decide_eq_false_2 by apply not_elem_of_empty.
    destruct (bool_decide_reflect ("*" ∈ fs)) as [Hstar | Hstar].
    - rewrite bool_decide_eq_true_2 by (by apply elem_of_getAll). done.
    - rewrite bool_decide_eq_false_2 by (by rewrite elem_of_getAll).
      by rewrite list_to_set_getAll, (left_id_L ∅ (∪)). }
  split; [exact Hc |]. split.
  - intros fs Hb. rewrite Hc.
    destruct (bool_decide_reflect ("*" ∈ fs)) as [Hstar | Hstar]; [| done].
    symmetry. by apply built_star_alone.
  - intros fs f. rewrite Hc.
    destruct (bool_decide_reflect ("*" ∈ fs)) as [Hstar | Hstar]; [| done].
    rewrite (contains_of_star fs) by done.
    apply contains_of_star. by apply elem_of_singleton.
Qed.

End FieldsSetMore.

(** ** count_empty over whole blocks *)

Lemma wrap64_add_l a b : wrap64 (wrap64 a + b) = wrap64 (a + b).
Proof. unfold wrap64. apply Zplus_mod_idemp_l. Qed.

Lemma wrap64_add_r a b : wrap64 (a + wrap64 b) = wrap64 (a + b).
Proof. unfold wrap64. apply Zplus_mod_idemp_r. Qed.

Lemma wrap64_small a : 0 ≤ a < 2 ^ 64 → wrap64 a = a.
Proof. intros H. unfold wrap64. by apply Z.mod_small. Qed.

Lemma wrap64_range a : 0 ≤ wrap64 a < 2 ^ 64.
Proof. unfold wrap64. by apply Z.mod_pos_bound. Qed.

Lemma forEachSetBit_keepRows f (g : nat → bool) bm :
  (∀ i, bm !! i = Some true → f i = Some (g i)) →
  forEachSetBit f bm = Some (keepRows g bm).
Proof.
  intros Hf.
  destruct (forEachSetBit_from_is_Some f bm 0) as [bm' H].
  { intros j Hj. simpl. by rewrite (Hf j Hj). }
  unfold forEachSetBit. rewrite H. f_equal.
  apply forEachSetBit_from_lookup in H as [Hlen Hj].
  apply list_eq. intros j. rewrite Hj, lookup_keepRows.
  destruct (bm !! j) as [[|] |] eqn:Hb; simpl; [| done | done].
  by rewrite (Hf j Hb).
Qed.

Section CountRows.
Import CountEmptyProcessor.

Lemma count_imap_seq (P : nat → bool) n : ∀ k,
  length (filter (λ b, b = true) (imap (λ i b, b && P (k + i)%nat) (replicate n true)))
  = length (filter (λ i, P i = true) (seq k n)).
Proof.
  induction n as [| n IH]; intros k; [done |].
  cbn [replicate seq imap]. rewrite !filter_cons.
  rewrite Nat.add_0_r. cbn [andb].
  rewrite (imap_ext _ (λ i b, b && P (S k + i)%nat)).
  2:{ intros i b _. simpl. by replace (k + S i)%nat with (S (k + i)) by lia. }
  destruct (decide (P k = true)); cbn [length]; by rewrite IH.
Qed.

Lemma onesCount_keepRows P n :
  onesCount (keepRows P (replicate n true)) = countRows P n.
Proof. apply (count_imap_seq P n 0). Qed.

Lemma countRows_false n : countRows (λ _, false) n = 0%nat.
Proof.
  unfold countRows.
  assert (∀ k, length (filter (λ _ : nat, false = true) (seq k n)) = 0%nat) as H; [| apply H].
  induction n as [| n IH]; intros k; [done |].
  cbn [seq]. rewrite filter_cons. rewrite decide_False by done. apply IH.
Qed.

Lemma countRows_true n : countRows (λ _, true) n = n.
Proof.
  unfold countRows.
  assert (∀ k, filter (λ _ : nat, true = true) (seq k n) = seq k n) as H;
    [| by rewrite H, length_seq].
  induction n as [| n IH]; intros k; [done |].
  cbn [seq]. rewrite filter_cons. rewrite decide_True by done. by rewrite IH.
Qed.

Lemma count_values_seq {A} (q : A → bool) (P : nat → bool) (l : list A) : ∀ k,
  (∀ i x, l !! i = Some x → P (k + i)%nat = q x) →
  length (filter (λ i, P i = true) (seq k (length l)))
  = length (filter (λ x, q x = true) l).
Proof.
  induction l as [| x l IH]; intros k H; [done |].
  simpl. rewrite !filter_cons.
  pose proof (H 0%nat x eq_refl) as H0. rewrite Nat.add_0_r in H0. rewrite H0.
  destruct (decide (q x = true)); cbn [length]; rewrite (IH (S k)); try done.
  all: intros i y Hy; rewrite <- (H (S i) y Hy); f_equal; lia.
Qed.

Lemma countRows_ext P Q n :
  (∀ i, (i < n)%nat → P i = Q i) → countRows P n = countRows Q n.
Proof.
  intros H. unfold countRows.
  rewrite <- (count_values_seq Q P (seq 0 n) 0); [by rewrite length_seq |].
  intros i x [-> Hi]%lookup_seq. by apply H.
Qed.

Lemma countRows_values {A} (q : A → bool) (P : nat → bool) (l : list A) :
  (∀ i x, l !! i = Some x → P i = q x) →
  countRows P (length l) = length (filter (λ x, q x = true) l).
Proof. intros H. by apply (count_values_seq q P l 0). Qed.

End CountRows.

Section CountEmptyAllRows.
Import CountEmpty CountEmptyProcessor.

Context (formatTimestamp : Z → string).
Context (formatTyped : valueType → string → option string).

(** The string form of a timestamp and of a numeric value is never empty. *)
Hypothesis formatTimestamp_nonempty : ∀ ts, formatTimestamp ts ≠ EmptyString.
Hypothesis formatTyped_nonempty : ∀ vt v, formatTyped vt v ≠ Some EmptyString.

Lemma updateStatsForRow_closed sc rowsCount br rowIdx :
  Forall (column_wf formatTimestamp formatTyped br) (countedColumns sc br) →
  (rowIdx < length (br_timestamps br))%nat →
  updateStatsForRow formatTimestamp formatTyped sc rowsCount br rowIdx
  = Some (if emptyRow formatTimestamp formatTyped sc br rowIdx
          then wrap64 (rowsCount + 1) else rowsCount).
Proof.
  intros Hwf Hi.
  destruct (updateStatsForRow_is_Some formatTimestamp formatTyped sc rowsCount br rowIdx)
    as [r Hr].
  { eapply Forall_impl; [exact Hwf |]. intros c (Hread & _). by apply Hread. }
  rewrite Hr. f_equal.
  by apply (updateStatsForRow_counts_empty_row formatTimestamp formatTyped
              formatTimestamp_nonempty formatTyped_nonempty) in Hr.
Qed.

Lemma foldl_rows_closed sc br (l : list nat) : ∀ rowsCount,
  Forall (column_wf formatTimestamp formatTyped br) (countedColumns sc br) →
  Forall (λ i, (i < length (br_timestamps br))%nat) l →
  0 ≤ rowsCount < 2 ^ 64 →
  foldl (λ acc i, n ← acc; updateStatsForRow formatTimestamp formatTyped sc n br i)
        (Some rowsCount) l
  = Some (wrap64 (rowsCount
                  + Z.of_nat (length (filter (λ i, emptyRow formatTimestamp formatTyped sc br i
                                                   = true) l)))).
Proof.
  induction l as [| i l IH]; intros rowsCount Hwf Hl Hrange.
  - simpl. by rewrite Z.add_0_r, wrap64_small.
  - apply Forall_cons in Hl as [Hi Hl]. cbn [foldl mbind option_bind].
    rewrite updateStatsForRow_closed by done. rewrite filter_cons.
    destruct (emptyRow formatTimestamp formatTyped sc br i) eqn:He.
    + rewrite decide_True by done. rewrite IH by (done || apply wrap64_range).
      cbn [length]. rewrite wrap64_add_l. f_equal. f_equal. lia.
    + rewrite decide_False by done. by rewrite IH.
Qed.

Lemma updateStatsForEachRow_closed sc rowsCount br :
  Forall (column_wf formatTimestamp formatTyped br) (countedColumns sc br) →
  0 ≤ rowsCount < 2 ^ 64 →
  updateStatsForEachRow formatTimestamp formatTyped sc rowsCount br
  = Some (wrap64 (rowsCount
                  + Z.of_nat (countRows (emptyRow formatTimestamp formatTyped sc br)
                                (length (br_timestamps br))))).
Proof.
  intros Hwf Hrange. unfold updateStatsForEachRow, countRows.
  apply foldl_rows_closed; [done | | done].
  apply Forall_forall. intros i Hi%elem_of_seq. lia.
Qed.

(** *** The star path *)

Lemma getValues_lookup c br :
  column_wf formatTimestamp formatTyped br c →
  ∃ values, getValues formatTimestamp formatTyped c br = Some values ∧
    ∀ i, (i < length (br_timestamps br))%nat →
         values !! i = getValueAtRow formatTimestamp formatTyped c br i.
Proof.
  intros (Hread & _). unfold getValues.
  destruct (mapM (getValueAtRow formatTimestamp formatTyped c br)
              (seq 0 (length (br_timestamps br)))) as [values |] eqn:Hm.
  - exists values. split; [done |]. intros i Hi.
    apply mapM_Some in Hm.
    destruct (Forall2_lookup_l _ _ _ i i Hm) as (v & Hv & Hget).
    { by apply lookup_seq. }
    by rewrite Hv, Hget.
  - exfalso. assert (is_Some (mapM (getValueAtRow formatTimestamp formatTyped c br)
                                (seq 0 (length (br_timestamps br))))) as [? Hx].
    { apply mapM_is_Some, Forall_forall. intros i Hi%elem_of_seq. apply Hread. lia. }
    congruence.
Qed.

Lemma starLoop_keepRows br cs : ∀ bm,
  Forall (column_wf formatTimestamp formatTyped br) cs →
  length bm = length (br_timestamps br) →
  starLoop formatTimestamp formatTyped cs br bm
  = Some (keepRows (λ i, forallb (emptyAt formatTimestamp formatTyped br i) cs) bm).
Proof.
  induction cs as [| c cs IH]; intros bm Hwf Hlen.
  - simpl. by rewrite keepRows_true.
  - apply Forall_cons in Hwf as [Hc Hwf]. cbn [starLoop].
    destruct (getValues_lookup c br Hc) as (values & -> & Hvalues).
    cbn [mbind option_bind].
    rewrite (forEachSetBit_keepRows _ (λ i, emptyAt formatTimestamp formatTyped br i c)).
    2:{ intros i Hi. apply lookup_lt_Some in Hi. rewrite Hlen in Hi.
        rewrite (Hvalues i Hi). unfold emptyAt.
        destruct Hc as (Hread & _). destruct (Hread i Hi) as [v ->].
        simpl. by rewrite isEmptyString_decide. }
    cbn [mbind option_bind]. rewrite IH by (done || by rewrite length_keepRows).
    by rewrite keepRows_keepRows.
Qed.

(** *** The single-field path *)

Lemma countEmptyValues_closed values : ∀ rowsCount,
  0 ≤ rowsCount < 2 ^ 64 →
  countEmptyValues rowsCount values
  = wrap64 (rowsCount + Z.of_nat (length (filter (λ v, isEmptyString v = true) values))).
Proof.
  unfold countEmptyValues.
  induction values as [| v values IH]; intros rowsCount Hrange.
  - simpl. by rewrite Z.add_0_r, wrap64_small.
  - cbn [foldl]. rewrite filter_cons. destruct (isEmptyString v).
    + rewrite decide_True by done. rewrite IH by apply wrap64_range.
      cbn [length]. rewrite wrap64_add_l. f_equal. lia.
    + rewrite decide_False by done. by apply IH.
Qed.

Lemma countDictIndex_None zeroDictIdx values :
  foldl (λ acc v,
           n ← acc;
           i ← firstByte v;
           Some (if decide (i = zeroDictIdx) then wrap64 (n + 1) else n))
        None values = None.
Proof. induction values as [| v values IH]; [done |]. apply IH. Qed.

Lemma countDictIndex_closed zeroDictIdx values : ∀ rowsCount,
  0 ≤ rowsCount < 2 ^ 64 →
  countDictIndex zeroDictIdx rowsCount values
  = (λ idxs, wrap64 (rowsCount
                     + Z.of_nat (length (filter (λ i, i = zeroDictIdx) idxs))))
      <$> mapM firstByte values.
Proof.
  unfold countDictIndex.
  induction values as [| v values IH]; intros rowsCount Hrange.
  - simpl. by rewrite Z.add_0_r, wrap64_small.
  - cbn [foldl mapM mbind option_bind].
    destruct (firstByte v) as [i |]; cbn [mbind option_bind].
    2:{ by rewrite countDictIndex_None. }
    destruct (decide (i = zeroDictIdx)) as [-> | Hne].
    + rewrite IH by apply wrap64_range.
      destruct (mapM firstByte values) as [idxs |]; [| done].
      cbn [fmap option_fmap option_map mret option_ret mbind option_bind].
      rewrite filter_cons, decide_True by done. cbn [length].
      rewrite wrap64_add_l. f_equal. f_equal. lia.
    + rewrite IH by done.
      destruct (mapM firstByte values) as [idxs |]; [| done].
      cbn [fmap option_fmap option_map mret option_ret mbind option_bind].
      by rewrite filter_cons, decide_False.
Qed.

Lemma indexOfEmpty_Some values : ∀ k z,
  indexOfEmpty k values = Some z →
  ∃ j, z = (k + j)%nat ∧ values !! j = Some EmptyString.
Proof.
  induction values as [| v values IH]; intros k z H; [done |].
  cbn [indexOfEmpty] in H. destruct v as [| a v]; simpl in H.
  - injection H as <-. exists 0%nat. split; [lia | done].
  - apply IH in H as (j & -> & Hj). exists (S j). split; [lia | done].
Qed.

Lemma indexOfEmpty_None values : ∀ k,
  indexOfEmpty k values = None → EmptyString ∉ values.
Proof.
  induction values as [| v values IH]; intros k H; [apply not_elem_of_nil |].
  cbn [indexOfEmpty] in H. destruct v as [| a v]; simpl in H; [done |].
  intros [Heq | Hin]%elem_of_cons; [done |]. by apply (IH _ H).
Qed.

Lemma emptyRow_single f sc br i :
  sc_containsStar sc = false → sc_fields sc = [f] →
  emptyRow formatTimestamp formatTyped sc br i
  = emptyAt formatTimestamp formatTyped br i (getColumnByName br f).
Proof.
  intros Hstar Hf. unfold emptyRow, rowHasAllEmpty, emptyAt. rewrite Hstar, Hf.
  simpl. by rewrite andb_true_r.
Qed.

Lemma emptyAt_time br i c :
  c_isConst c = false → c_isTime c = true →
  emptyAt formatTimestamp formatTyped br i c = false.
Proof.
  intros Hc Ht. unfold emptyAt, getValueAtRow. rewrite Hc, Ht.
  apply bool_decide_eq_false_2.
  destruct (br_timestamps br !! i) as [ts |]; simpl; [| done].
  intros [= Heq]. by apply formatTimestamp_nonempty in Heq.
Qed.

Lemma emptyAt_typed br i c :
  c_isConst c = false → c_isTime c = false →
  c_valueType c ≠ valueTypeString → c_valueType c ≠ valueTypeDict →
  emptyAt formatTimestamp formatTyped br i c = false.
Proof.
  intros Hc Ht Hs Hd. unfold emptyAt, getValueAtRow. rewrite Hc, Ht.
  apply bool_decide_eq_false_2.
  destruct (c_valueType c); try done;
    (destruct (c_encodedValues c !! i) as [v |]; simpl; [| done];
     apply formatTyped_nonempty).
Qed.

Lemma emptyAt_string br i c :
  c_isConst c = false → c_isTime c = false → c_valueType c = valueTypeString →
  emptyAt formatTimestamp formatTyped br i c
  = default false (isEmptyString <$> c_encodedValues c !! i).
Proof.
  intros Hc Ht Hs. unfold emptyAt, getValueAtRow. rewrite Hc, Ht, Hs.
  destruct (c_encodedValues c !! i) as [v |]; simpl; [| done].
  by rewrite isEmptyString_decide.
Qed.

Lemma emptyAt_dict br i c :
  c_isConst c = false → c_isTime c = false → c_valueType c = valueTypeDict →
  emptyAt formatTimestamp formatTyped br i c
  = bool_decide ((v ← c_encodedValues c !! i; dictIdx ← firstByte v;
                  c_dictValues c !! dictIdx) = Some EmptyString).
Proof.
  intros Hc Ht Hd. unfold emptyAt, getValueAtRow. by rewrite Hc, Ht, Hd.
Qed.

Lemma emptyAt_const br i c v0 :
  c_isConst c = true → c_encodedValues c !! 0%nat = Some v0 →
  emptyAt formatTimestamp formatTyped br i c = isEmptyString v0.
Proof.
  intros Hc Hv. unfold emptyAt, getValueAtRow. rewrite Hc, Hv.
  by rewrite isEmptyString_decide.
Qed.

Lemma const_value c :
  length (c_encodedValues c) = 1%nat → ∃ v0, c_encodedValues c !! 0%nat = Some v0.
Proof. destruct (c_encodedValues c) as [| v0 [| ? ?]]; [done | by exists v0 | done]. Qed.

Lemma single_field_closed f sc rowsCount br :
  sc_containsStar sc = false → sc_fields sc = [f] →
  column_wf formatTimestamp formatTyped br (getColumnByName br f) →
  0 ≤ rowsCount < 2 ^ 64 →
  updateStatsForAllRows formatTimestamp formatTyped sc rowsCount br
  = Some (wrap64 (rowsCount
                  + Z.of_nat (countRows (emptyRow formatTimestamp formatTyped sc br)
                                (length (br_timestamps br))))).
Proof.
  intros Hstar Hf (Hread & Hconst & Hlen & Hnd) Hrange.
  rewrite (countRows_ext _ _ _ (λ i _, emptyRow_single f sc br i Hstar Hf)).
  unfold updateStatsForAllRows. rewrite Hstar, Hf.
  set (c := getColumnByName br f) in *.
  destruct (c_isConst c) eqn:Hc.
  { destruct (const_value c (Hconst eq_refl)) as [v0 Hv0]. rewrite Hv0.
    cbn [mbind option_bind].
    rewrite (countRows_ext _ (λ _, isEmptyString v0))
      by (intros i _; by apply emptyAt_const).
    destruct (isEmptyString v0).
    - by rewrite countRows_true.
    - by rewrite countRows_false, Z.add_0_r, wrap64_small. }
  destruct (c_isTime c) eqn:Ht.
  { rewrite (countRows_ext _ (λ _, false)) by (intros i _; by apply emptyAt_time).
    by rewrite countRows_false, Z.add_0_r, wrap64_small. }
  specialize (Hlen eq_refl eq_refl).
  destruct (c_valueType c) eqn:Hvt;
    try (rewrite (countRows_ext _ (λ _, false))
           by (intros i _; apply emptyAt_typed; congruence);
         by rewrite countRows_false, Z.add_0_r, wrap64_small).
  - rewrite countEmptyValues_closed by done. rewrite <- Hlen.
    rewrite (countRows_values isEmptyString _ (c_encodedValues c)); [done |].
    intros i v Hv. rewrite emptyAt_string by done. by rewrite Hv.
  - destruct (indexOfEmpty 0 (c_dictValues c)) as [z |] eqn:Hz.
    + apply indexOfEmpty_Some in Hz as (j & -> & Hj). simpl.
      rewrite countDictIndex_closed by done.
      destruct (mapM firstByte (c_encodedValues c)) as [idxs |] eqn:Hm.
      2:{ exfalso. assert (is_Some (mapM firstByte (c_encodedValues c))) as [? Hx];
            [| congruence].
          apply mapM_is_Some, Forall_forall. intros v Hv.
          apply list_elem_of_lookup_1 in Hv as [i Hi].
          pose proof (lookup_lt_Some _ _ _ Hi) as Hlt. rewrite Hlen in Hlt.
          destruct (Hread i Hlt) as [x Hx]. unfold getValueAtRow in Hx.
          rewrite Hc, Ht, Hvt, Hi in Hx. simpl in Hx. simpl.
          by destruct (firstByte v). }
      simpl.
      pose proof (length_mapM _ _ _ Hm) as Hlen'. apply mapM_Some in Hm.
      rewrite <- Hlen, Hlen'.
      rewrite (countRows_values (λ i, bool_decide (i = j)) _ idxs).
      * do 5 f_equal. apply list_filter_iff. intros x. by rewrite bool_decide_eq_true.
      * intros i x Hx. rewrite emptyAt_dict by done.
        destruct (Forall2_lookup_r _ _ _ i x Hm Hx) as (v & Hv & Hfb).
        rewrite Hv. simpl. rewrite Hfb. simpl.
        destruct (bool_decide_reflect (x = j)) as [-> | Hne].
        -- by apply bool_decide_eq_true_2.
        -- apply bool_decide_eq_false_2. intros Hx'. apply Hne.
           by apply (NoDup_lookup (c_dictValues c) x j EmptyString).
    + apply indexOfEmpty_None in Hz.
      rewrite (countRows_ext _ (λ _, false)).
      { by rewrite countRows_false, Z.add_0_r, wrap64_small. }
      intros i _. rewrite emptyAt_dict by done. apply bool_decide_eq_false_2.
      destruct (c_encodedValues c !! i) as [v |]; simpl; [| done].
      destruct (firstByte v) as [dictIdx |]; simpl; [| done].
      intros Hx. by apply list_elem_of_lookup_2 in Hx.
Qed.

(** *** The slow path *)

Lemma rowHasAllEmpty_cons f fields br i :
  rowHasAllEmpty formatTimestamp formatTyped (f :: fields) br i
  = emptyAt formatTimestamp formatTyped br i (getColumnByName br f)
    && rowHasAllEmpty formatTimestamp formatTyped fields br i.
Proof. done. Qed.

Lemma countRows_narrowed_none (Q P R : nat → bool) n :
  (∀ i, P i = false) → countRows (λ i, Q i && (P i && R i)) n = 0%nat.
Proof.
  intros H. rewrite (countRows_ext _ (λ _, false)); [apply countRows_false |].
  intros i _. by rewrite H, andb_false_r.
Qed.

Lemma slowLoop_closed br fields : ∀ rowsCount Q,
  Forall (λ f, column_wf formatTimestamp formatTyped br (getColumnByName br f)
               ∧ c_isConst (getColumnByName br f) = false) fields →
  0 ≤ rowsCount < 2 ^ 64 →
  slowLoop fields br rowsCount (keepRows Q (replicate (length (br_timestamps br)) true))
  = Some (wrap64 (rowsCount
                  + Z.of_nat (countRows
                                (λ i, Q i && rowHasAllEmpty formatTimestamp formatTyped
                                                fields br i)
                                (length (br_timestamps br))))).
Proof.
  induction fields as [| f fields IH]; intros rowsCount Q Hwf Hrange.
  - cbn [slowLoop]. rewrite onesCount_keepRows. do 4 f_equal.
    apply countRows_ext. intros i _. by rewrite andb_true_r.
  - apply Forall_cons in Hwf as [[(Hread & _ & _ & _) Hc] Hwf].
    cbn [slowLoop]. set (c := getColumnByName br f) in *. rewrite Hc.
    rewrite (countRows_ext _ _ _ (λ i _, f_equal (andb (Q i)) (rowHasAllEmpty_cons f fields br i))).
    fold c.
    assert (∀ i, keepRows Q (replicate (length (br_timestamps br)) true) !! i = Some true →
                 (i < length (br_timestamps br))%nat) as Hrow.
    { intros i Hi%lookup_lt_Some. by rewrite length_keepRows, length_replicate in Hi. }
    assert (∀ g : nat → bool,
              slowLoop fields br rowsCount
                (keepRows g (keepRows Q (replicate (length (br_timestamps br)) true)))
              = Some (wrap64 (rowsCount
                              + Z.of_nat (countRows
                                            (λ i, Q i && (g i && rowHasAllEmpty formatTimestamp
                                                                   formatTyped fields br i))
                                            (length (br_timestamps br)))))) as Hnext.
    { intros g. rewrite keepRows_keepRows, IH by done. do 4 f_equal.
      apply countRows_ext. intros i _. by rewrite andb_assoc. }
    destruct (c_isTime c) eqn:Ht.
    { rewrite countRows_narrowed_none by (intros i; by apply emptyAt_time).
      by rewrite Z.add_0_r, wrap64_small. }
    destruct (c_valueType c) eqn:Hvt;
      try (rewrite countRows_narrowed_none
             by (intros i; apply emptyAt_typed; congruence);
           by rewrite Z.add_0_r, wrap64_small).
    + rewrite (forEachSetBit_keepRows _ (λ i, emptyAt formatTimestamp formatTyped br i c)).
      { cbn [mbind option_bind]. apply Hnext. }
      intros i Hi. rewrite emptyAt_string by done.
      destruct (Hread i (Hrow i Hi)) as [v Hv]. unfold getValueAtRow in Hv.
      rewrite Hc, Ht, Hvt in Hv. by rewrite Hv.
    + destruct (bool_decide_reflect (EmptyString ∈ c_dictValues c)) as [Hin | Hin];
        cbn [negb].
      * rewrite (forEachSetBit_keepRows _ (λ i, emptyAt formatTimestamp formatTyped br i c)).
        { cbn [mbind option_bind]. apply Hnext. }
        intros i Hi. rewrite emptyAt_dict by done.
        destruct (Hread i (Hrow i Hi)) as [d Hd]. unfold getValueAtRow in Hd.
        rewrite Hc, Ht, Hvt in Hd.
        destruct (c_encodedValues c !! i) as [v |]; simpl in *; [| done].
        destruct (firstByte v) as [dictIdx |]; simpl in *; [| done].
        rewrite Hd. simpl. by rewrite isEmptyString_decide.
      * rewrite countRows_narrowed_none; [by rewrite Z.add_0_r, wrap64_small |].
        intros i. rewrite emptyAt_dict by done. apply bool_decide_eq_false_2.
        destruct (c_encodedValues c !! i) as [v |]; simpl; [| done].
        destruct (firstByte v) as [dictIdx |]; simpl; [| done].
        intros Hx. by apply list_elem_of_lookup_2 in Hx.
Qed.

Lemma setBits_getBitmap n : setBits (getBitmap n) = replicate n true.
Proof. unfold setBits, bitsLen, getBitmap. by rewrite length_replicate. Qed.

Lemma updateStatsForAllRows_closed sc rowsCount br :
  0 ≤ rowsCount < 2 ^ 64 →
  Forall (column_wf formatTimestamp formatTyped br) (countedColumns sc br) →
  (sc_containsStar sc = false → length (sc_fields sc) ≠ 1%nat →
   Forall (λ c, c_isConst c = false) (countedColumns sc br)) →
  updateStatsForAllRows formatTimestamp formatTyped sc rowsCount br
  = Some (wrap64 (rowsCount
                  + Z.of_nat (countRows (emptyRow formatTimestamp formatTyped sc br)
                                (length (br_timestamps br))))).
Proof.
  intros Hrange Hwf Hconst.
  destruct (sc_containsStar sc) eqn:Hstar.
  - unfold updateStatsForAllRows, countedColumns, emptyRow in *. rewrite Hstar in *.
    rewrite setBits_getBitmap.
    rewrite starLoop_keepRows by (done || by rewrite length_replicate).
    cbn [mbind option_bind]. by rewrite onesCount_keepRows.
  - destruct (sc_fields sc) as [| f [| g rest]] eqn:Hf.
    + unfold updateStatsForAllRows, emptyRow. rewrite Hstar, Hf.
      rewrite setBits_getBitmap, <- (keepRows_true (replicate _ true)).
      rewrite slowLoop_closed by done. done.
    + apply single_field_closed with f; [done | done | | done].
      unfold countedColumns in Hwf. rewrite Hstar, Hf in Hwf.
      by apply Forall_cons in Hwf as [? _].
    + specialize (Hconst eq_refl ltac:(done)).
      unfold countedColumns in Hwf, Hconst. rewrite Hstar, Hf in Hwf, Hconst.
      unfold updateStatsForAllRows, emptyRow. rewrite Hstar, Hf.
      rewrite setBits_getBitmap, <- (keepRows_true (replicate _ true)).
      rewrite slowLoop_closed; [done | | done].
      apply Forall_forall. intros x Hx.
      assert (getColumnByName br x ∈ map (getColumnByName br) (f :: g :: rest)) as Hin
        by (by apply list_elem_of_In, in_map, list_elem_of_In).
      split.
      * by apply (proj1 (Forall_forall _ _) Hwf).
      * by apply (proj1 (Forall_forall _ _) Hconst).
Qed.

(** X17: [updateStatsForAllRows] against the rows.  On a block that
    satisfies the data-model invariants, and, when two or more fields (or
    none) are listed, has no const column among them, the whole-block
    update adds to the count the number of rows where every counted column
    is empty, which is what [updateStatsForRow] adds when it is called for
    every row in turn. *)
Theorem updateStatsForAllRows_counts_empty_rows sc rowsCount br :
  0 ≤ rowsCount < 2 ^ 64 →
  Forall (column_wf formatTimestamp formatTyped br) (countedColumns sc br) →
  (sc_containsStar sc = false → length (sc_fields sc) ≠ 1%nat →
   Forall (λ c, c_isConst c = false) (countedColumns sc br)) →
  updateStatsForAllRows formatTimestamp formatTyped sc rowsCount br
  = Some (wrap64 (rowsCount
                  + Z.of_nat (countRows (emptyRow formatTimestamp formatTyped sc br)
                                (length (br_timestamps br))))) ∧
  updateStatsForAllRows formatTimestamp formatTyped sc rowsCount br
  = updateStatsForEachRow formatTimestamp formatTyped sc rowsCount br.
Proof.
  intros Hrange Hwf Hconst.
  rewrite updateStatsForAllRows_closed by done.
  by rewrite updateStatsForEachRow_closed.
Qed.

End CountEmptyAllRows.

(** ** count_empty: the state between blocks *)

Section CountEmptyMerge.
Import CountEmpty CountEmptyProcessor.

Context (formatTimestamp : Z → string).
Context (formatTyped : valueType → string → option string).

Lemma mergeState_fresh n : 0 ≤ n < 2 ^ 64 → mergeState n 0 = n.
Proof. intros H. unfold mergeState. by rewrite Z.add_0_r, wrap64_small. Qed.

Lemma mergeState_wrap n k : mergeState n (wrap64 k) = wrap64 (n + k).
Proof. unfold mergeState. by rewrite wrap64_add_r. Qed.

Ltac reduce_option := cbn [fmap option_fmap option_map mbind option_bind].

Ltac merge_done :=
  reduce_option;
  rewrite ?Z.add_0_l, ?mergeState_wrap; rewrite ?mergeState_fresh by done; done.

Lemma slowLoop_merge br fields : ∀ n bm,
  0 ≤ n < 2 ^ 64 →
  slowLoop fields br n bm = mergeState n <$> slowLoop fields br 0 bm.
Proof.
  induction fields as [| f fields IH]; intros n bm Hn; cbn [slowLoop].
  - reduce_option. merge_done.
  - destruct (c_isConst (getColumnByName br f)).
    { destruct (c_encodedValues (getColumnByName br f) !! 0%nat) as [v0 |]; reduce_option; [| done].
      destruct (isEmptyString v0); [merge_done | by apply IH]. }
    destruct (c_isTime (getColumnByName br f)); [merge_done |].
    destruct (c_valueType (getColumnByName br f));
      try (merge_done).
    + destruct (forEachSetBit _ bm) as [bm' |]; reduce_option; [by apply IH | done].
    + destruct (negb _); [merge_done |].
      destruct (forEachSetBit _ bm) as [bm' |]; reduce_option; [by apply IH | done].
Qed.

Lemma updateStatsForAllRows_merge sc n br :
  0 ≤ n < 2 ^ 64 →
  updateStatsForAllRows formatTimestamp formatTyped sc n br
  = mergeState n <$> updateStatsForAllRows formatTimestamp formatTyped sc newStatsProcessor br.
Proof.
  intros Hn. unfold updateStatsForAllRows, newStatsProcessor.
  destruct (sc_containsStar sc).
  { destruct (starLoop _ _ _ _ _) as [bm |]; reduce_option; [| done]. merge_done. }
  destruct (sc_fields sc) as [| f [| g rest]]; [by apply slowLoop_merge | | by apply slowLoop_merge].
  destruct (c_isConst (getColumnByName br f)).
  { destruct (c_encodedValues (getColumnByName br f) !! 0%nat) as [v0 |]; reduce_option; [| done].
    destruct (isEmptyString v0); [merge_done | merge_done]. }
  destruct (c_isTime (getColumnByName br f)); [merge_done |].
  destruct (c_valueType (getColumnByName br f));
    try (merge_done).
  - reduce_option. rewrite (countEmptyValues_closed _ n), (countEmptyValues_closed _ 0) by done.
    merge_done.
  - destruct (indexOfEmpty 0 _) as [z |]; [| merge_done].
    rewrite (countDictIndex_closed _ _ n), (countDictIndex_closed _ _ 0) by done.
    destruct (mapM firstByte _) as [idxs |]; reduce_option; [| done].
    merge_done.
Qed.

Lemma updateStatsForRow_merge sc n br rowIdx :
  0 ≤ n < 2 ^ 64 →
  updateStatsForRow formatTimestamp formatTyped sc n br rowIdx
  = mergeState n
      <$> updateStatsForRow formatTimestamp formatTyped sc newStatsProcessor br rowIdx.
Proof.
  intros Hn. unfold updateStatsForRow, newStatsProcessor.
  assert (∀ ok : bool,
            (if ok then wrap64 (n + 1) else n)
            = mergeState n (if ok then wrap64 (0 + 1) else 0)) as Hstep.
  { intros [|]; [merge_done | merge_done]. }
  destruct (sc_containsStar sc).
  { destruct (allEmptyAtRow _ _ _ _ _) as [ok |]; reduce_option; [| done]. by rewrite Hstep. }
  destruct (sc_fields sc) as [| f [| g rest]].
  - reduce_option. by rewrite (Hstep true).
  - destruct (c_isConst (getColumnByName br f)).
    { destruct (c_encodedValues (getColumnByName br f) !! 0%nat) as [v0 |]; reduce_option; [| done].
      by rewrite Hstep. }
    destruct (c_isTime (getColumnByName br f)); [merge_done |].
    destruct (c_valueType (getColumnByName br f));
      try (merge_done).
    + destruct (c_encodedValues _ !! rowIdx) as [v |]; reduce_option; [| done]. by rewrite Hstep.
    + destruct (c_encodedValues _ !! rowIdx) as [e |]; reduce_option; [| done].
      destruct (firstByte e) as [dictIdx |]; reduce_option; [| done].
      destruct (c_dictValues _ !! dictIdx) as [v |]; reduce_option; [| done]. by rewrite Hstep.
  - destruct (allEmptyAtRow _ _ _ _ _) as [ok |]; reduce_option; [| done]. by rewrite Hstep.
Qed.

(** X18: the processor's state is a counter modulo 2^64 that may be split
    and merged.  [mergeState] is commutative and associative with the
    fresh processor as unit; updating a processor with a block (or a row)
    gives the state obtained by updating a fresh processor with it and
    merging; and [finalizeStats] prints distinct counts differently. *)
Theorem count_empty_state_merges :
  (∀ a b, mergeState a b = mergeState b a) ∧
  (∀ a b c, mergeState (mergeState a b) c = mergeState a (mergeState b c)) ∧
  (∀ a, 0 ≤ a < 2 ^ 64 → mergeState a newStatsProcessor = a) ∧
  (∀ a b, 0 ≤ mergeState a b < 2 ^ 64) ∧
  (∀ sc n br, 0 ≤ n < 2 ^ 64 →
     updateStatsForAllRows formatTimestamp formatTyped sc n br
     = mergeState n
         <$> updateStatsForAllRows formatTimestamp formatTyped sc newStatsProcessor br) ∧
  (∀ sc n br rowIdx, 0 ≤ n < 2 ^ 64 →
     updateStatsForRow formatTimestamp formatTyped sc n br rowIdx
     = mergeState n
         <$> updateStatsForRow formatTimestamp formatTyped sc newStatsProcessor br rowIdx) ∧
  (∀ a b, 0 ≤ a → 0 ≤ b → finalizeStats a = finalizeStats b → a = b).
Proof.
  split; [| split; [| split; [| split; [| split; [| split]]]]].
  - intros a b. unfold mergeState. by rewrite Z.add_comm.
  - intros a b c. unfold mergeState. rewrite wrap64_add_l, wrap64_add_r. by rewrite Z.add_assoc.
  - apply mergeState_fresh.
  - intros a b. apply wrap64_range.
  - apply updateStatsForAllRows_merge.
  - apply updateStatsForRow_merge.
  - intros a b Ha Hb. unfold finalizeStats, formatUint. intros Heq.
    assert (∀ n, NilZero.uint_of_string (NilZero.string_of_uint (N.to_uint n))
                 = Some (N.to_uint n)) as Husu.
    { intros n. apply NilZero.usu. destruct n; [done |].
      apply DecimalPos.Unsigned.to_uint_nonnil. }
    apply (f_equal NilZero.uint_of_string) in Heq. rewrite !Husu in Heq.
    injection Heq as Heq. apply DecimalN.Unsigned.to_uint_inj in Heq. lia.
Qed.

End CountEmptyMerge.

(** ** Closed instances of the column paths *)

(** The const column [level] holds "Error": string_range("A", "Z") keeps
    the bitmap, the phrase i(warn) and range[0, 10] clear it. *)
Lemma const_column_is_one_match_witness :
  exampleStringRange {| fsr_fieldName := "level"; fsr_minValue := "A"; fsr_maxValue := "Z" |}
    levelBlock [true; false; true] = Some [true; false; true] ∧
  examplePhrase {| fp_fieldName := "level"; fp_phrase := "warn" |}
    levelBlock [true; false; true] = Some [false; false; false] ∧
  exampleRange {| fr_fieldName := "level"; fr_minValue := f64_of_Z 0;
                  fr_maxValue := f64_of_Z 10; fr_stringRepr := "[0, 10]" |}
    levelBlock [true; false; true] = Some [false; false; false].
Proof.
  destruct (const_column_is_one_match Example.tryParseFloat64
              Example.uint64_unrepresentable Example.matchPhrase Example.toLower
              Example.toUpper Example.toLower Example.tokenizeStrings
              Example.formatBits Example.formatBits Example.typedPrescan
              Example.typedMatch levelBlock [true; false; true] "level" eq_refl)
    as (Hr & Hsr & Hp).
  split; [| split].
  - rewrite (Hsr {| fsr_fieldName := "level"; fsr_minValue := "A"; fsr_maxValue := "Z" |}
               eq_refl).
    vm_compute. reflexivity.
  - rewrite (Hp {| fp_fieldName := "level"; fp_phrase := "warn" |} eq_refl).
    vm_compute. reflexivity.
  - rewrite (Hr {| fr_fieldName := "level"; fr_minValue := f64_of_Z 0;
                   fr_maxValue := f64_of_Z 10; fr_stringRepr := "[0, 10]" |} eq_refl).
    vm_compute. reflexivity.
Defined.

(** string_range("m", "p") and i(PEAR) over the fruit column, row 3 and
    row 4 inactive in turn. *)
Lemma string_column_is_typed_scan_witness :
  exampleStringRange {| fsr_fieldName := "foo"; fsr_minValue := "m"; fsr_maxValue := "p" |}
    fruitBlock [true; true; true; true; false] = Some [false; true; true; false; false] ∧
  examplePhrase {| fp_fieldName := "foo"; fp_phrase := "PEAR" |}
    fruitBlock [true; true; true; true; false] = Some [false; false; false; true; false].
Proof.
  destruct (string_column_is_typed_scan Example.tryParseFloat64
              Example.uint64_unrepresentable Example.matchPhrase Example.toLower
              Example.toUpper Example.toLower Example.tokenizeStrings
              Example.formatBits Example.formatBits Example.typedPrescan
              Example.typedMatch fruitBlock (stringColumnHeader "foo")
              [true; true; true; true; false] "foo" eq_refl eq_refl eq_refl eq_refl)
    as (_ & Hsr & Hp).
  split.
  - rewrite (Hsr {| fsr_fieldName := "foo"; fsr_minValue := "m"; fsr_maxValue := "p" |}
               eq_refl).
    vm_compute. reflexivity.
  - rewrite (Hp {| fp_fieldName := "foo"; fp_phrase := "PEAR" |} eq_refl).
    vm_compute. reflexivity.
Defined.

Lemma dictBlock_column_ok : column_ok dictBlock dictHeader 4.
Proof.
  split; [reflexivity |]. intros v w Hv [= <-].
  apply list_elem_of_In in Hv. simpl in Hv.
  destruct Hv as [<- | [<- | [<- | [<- | []]]]]; reflexivity.
Qed.

Lemma dictBlock_indices i :
  [true; true; true; true] !! i = Some true → is_Some (dictValueAt dictBlock dictHeader i).
Proof.
  destruct i as [| [| [| [| i]]]]; intros Hi; try (vm_compute; eauto); done.
Qed.

(** The dict column holds "10", "", "abc", "10": range[5, 20] keeps rows 0
    and 3. *)
Lemma dict_column_matches_entries_witness :
  exampleRange {| fr_fieldName := "code"; fr_minValue := f64_of_Z 5;
                  fr_maxValue := f64_of_Z 20; fr_stringRepr := "[5, 20]" |}
    dictBlock [true; true; true; true] = Some [true; false; false; true].
Proof.
  destruct (dict_column_matches_entries Example.tryParseFloat64
              Example.uint64_unrepresentable Example.matchPhrase Example.toLower
              Example.toUpper Example.toLower Example.tokenizeStrings
              Example.formatBits Example.formatBits Example.typedPrescan
              Example.typedMatch dictBlock dictHeader [true; true; true; true] "code"
              eq_refl eq_refl eq_refl dictBlock_column_ok ltac:(simpl; lia)
              dictBlock_indices)
    as (Hr & _).
  rewrite (Hr {| fr_fieldName := "code"; fr_minValue := f64_of_Z 5;
                 fr_maxValue := f64_of_Z 20; fr_stringRepr := "[5, 20]" |} eq_refl).
  vm_compute. reflexivity.
Defined.

Lemma floatBlock_column_ok : column_ok floatBlock floatHeader 2.
Proof.
  split; [reflexivity |]. intros v w Hv [= <-].
  apply list_elem_of_In in Hv. simpl in Hv.
  destruct Hv as [<- | [<- | []]]; reflexivity.
Qed.

Lemma floatBlock_bounds i f :
  floatAtRow floatBlock floatHeader i = Some f →
  f64_le (math_Float64frombits (ch_minValue floatHeader)) f = true ∧
  f64_le f (math_Float64frombits (ch_maxValue floatHeader)) = true.
Proof.
  destruct i as [| [| i]]; intros [= <-]; split; vm_compute; reflexivity.
Qed.

(** The float64 column holds 1.0 and -1.5: range[0, 2] keeps row 0. *)
Lemma filterRange_float64_column_witness :
  exampleRange {| fr_fieldName := "ratio"; fr_minValue := f64_of_Z 0;
                  fr_maxValue := f64_of_Z 2; fr_stringRepr := "[0, 2]" |}
    floatBlock [true; true] = Some [true; false].
Proof.
  rewrite (filterRange_float64_column Example.tryParseFloat64
             Example.uint64_unrepresentable
             {| fr_fieldName := "ratio"; fr_minValue := f64_of_Z 0;
                fr_maxValue := f64_of_Z 2; fr_stringRepr := "[0, 2]" |}
             floatBlock floatHeader [true; true]
             eq_refl eq_refl eq_refl floatBlock_column_ok floatBlock_bounds).
  vm_compute. reflexivity.
Defined.

(** The uint8 column holds 5, 200 and 17: string_range("1", "3") keeps
    "200" and "17". *)
Lemma filterStringRange_uint_column_witness :
  exampleStringRange {| fsr_fieldName := "size"; fsr_minValue := "1"; fsr_maxValue := "3" |}
    sizeBlock [true; true; true] = Some [false; true; true].
Proof.
  rewrite (filterStringRange_uint_column Example.formatBits Example.formatBits
             {| fsr_fieldName := "size"; fsr_minValue := "1"; fsr_maxValue := "3" |}
             sizeBlock (uintColumnHeader "size" valueTypeUint8 5 200) [true; true; true]
             eq_refl eq_refl eq_refl sizeBlock_column_ok eq_refl).
  vm_compute. reflexivity.
Defined.

(** ** Closed instances of the composition laws *)

Lemma fruit_ranges_act :
  Forall (λ f : filter_apply,
            ∃ P, acts_as_intersection f fruitBlock
                   (length [true; true; true; true; true]) P)
    [exampleStringRange {| fsr_fieldName := "foo"; fsr_minValue := "m"; fsr_maxValue := "p" |};
     exampleStringRange {| fsr_fieldName := "foo"; fsr_minValue := "a"; fsr_maxValue := "b" |}].
Proof.
  apply Forall_cons_2; [eexists; by apply fruit_range_acts |].
  apply Forall_cons_2; [eexists; by apply fruit_range_acts | apply Forall_nil_2].
Qed.

(** string_range("m", "p") OR string_range("a", "b") over the fruit column. *)
Lemma filterOr_keeps_rows_of_some_branch_witness :
  ∃ bm',
    filterOr_apply
      [exampleStringRange
         {| fsr_fieldName := "foo"; fsr_minValue := "m"; fsr_maxValue := "p" |};
       exampleStringRange
         {| fsr_fieldName := "foo"; fsr_minValue := "a"; fsr_maxValue := "b" |}]
      fruitBlock [true; true; true; true; true] = Some bm' ∧
    bm' = [true; true; true; false; true].
Proof.
  destruct (filterOr_keeps_rows_of_some_branch _ fruitBlock [true; true; true; true; true]
              fruit_ranges_act) as (bm' & Hor & _).
  exists bm'. split; [exact Hor |].
  assert (Some bm' = Some [true; true; true; false; true]) as [= ->]; [| reflexivity].
  rewrite <- Hor. vm_compute. reflexivity.
Defined.

(** The two branches in the other order give the same bitmap. *)
Lemma filterOr_order_and_nesting_witness :
  filterOr_apply
    [exampleStringRange {| fsr_fieldName := "foo"; fsr_minValue := "m"; fsr_maxValue := "p" |};
     exampleStringRange {| fsr_fieldName := "foo"; fsr_minValue := "a"; fsr_maxValue := "b" |}]
    fruitBlock [true; true; true; true; true]
  = filterOr_apply
      [exampleStringRange {| fsr_fieldName := "foo"; fsr_minValue := "a"; fsr_maxValue := "b" |};
       exampleStringRange {| fsr_fieldName := "foo"; fsr_minValue := "m"; fsr_maxValue := "p" |}]
      fruitBlock [true; true; true; true; true].
Proof.
  destruct (filterOr_order_and_nesting _ fruitBlock [true; true; true; true; true]
              fruit_ranges_act) as (Hperm & _).
  apply Hperm. apply Permutation_swap.
Defined.

(** string_range("m", "p") against string_range("a", "n") over the fruit
    column: NOT (NOT f OR NOT g) keeps "mango" and "m", the rows both keep. *)
Lemma filterNot_filterOr_laws_witness :
  filterNot_apply
    (filterOr_apply
       [filterNot_apply
          (exampleStringRange
             {| fsr_fieldName := "foo"; fsr_minValue := "m"; fsr_maxValue := "p" |});
        filterNot_apply
          (exampleStringRange
             {| fsr_fieldName := "foo"; fsr_minValue := "a"; fsr_maxValue := "n" |})])
    fruitBlock [true; true; true; true; true]
  = Some [false; true; false; false; true].
Proof.
  destruct (filterNot_filterOr_laws
              (exampleStringRange
                 {| fsr_fieldName := "foo"; fsr_minValue := "m"; fsr_maxValue := "p" |})
              (exampleStringRange
                 {| fsr_fieldName := "foo"; fsr_minValue := "a"; fsr_maxValue := "n" |})
              (fruitRows "m" "p") (fruitRows "a" "n")
              fruitBlock [true; true; true; true; true]
              (fruit_range_acts "m" "p" eq_refl) (fruit_range_acts "a" "n" eq_refl))
    as (_ & _ & Hand).
  rewrite Hand. vm_compute. reflexivity.
Defined.

(** ** A closed instance of count_empty over a block *)

Lemma mixedResult_wf :
  Forall (CountEmptyProcessor.column_wf Example.formatTimestamp Example.formatTyped
            mixedResult)
    (CountEmpty.countedColumns countEmpty_msg_level mixedResult).
Proof.
  apply Forall_cons_2; [| apply Forall_cons_2; [| apply Forall_nil_2]].
  - split; [| split; [| split]].
    + intros [| [| [| [| i]]]] Hi; try (vm_compute; eauto). simpl in Hi. lia.
    + discriminate.
    + reflexivity.
    + apply NoDup_nil_2.
  - split; [| split; [| split]].
    + intros [| [| [| [| i]]]] Hi; try (vm_compute; eauto). simpl in Hi. lia.
    + discriminate.
    + reflexivity.
    + apply NoDup_cons_2; [| apply NoDup_cons_2; [apply not_elem_of_nil | apply NoDup_nil_2]].
      intros Hin%list_elem_of_In. simpl in Hin. destruct Hin as [Heq | []]. discriminate.
Qed.

(** Fields [msg] and [level] are both empty at rows 0 and 3 of the mixed
    block: the whole-block update and the row-by-row updates count 2. *)
Lemma updateStatsForAllRows_counts_empty_rows_witness :
  CountEmpty.updateStatsForAllRows Example.formatTimestamp Example.formatTyped
    countEmpty_msg_level 0 mixedResult = Some 2 ∧
  CountEmpty.updateStatsForEachRow Example.formatTimestamp Example.formatTyped
    countEmpty_msg_level 0 mixedResult = Some 2.
Proof.
  destruct (updateStatsForAllRows_counts_empty_rows Example.formatTimestamp
              Example.formatTyped formatUint_nonempty example_formatTyped_nonempty
              countEmpty_msg_level 0 mixedResult ltac:(lia) mixedResult_wf)
    as [Hall Heach].
  { intros _ _. apply Forall_cons_2; [reflexivity |].
    apply Forall_cons_2; [reflexivity | apply Forall_nil_2]. }
  assert (CountEmpty.updateStatsForAllRows Example.formatTimestamp Example.formatTyped
            countEmpty_msg_level 0 mixedResult = Some 2) as H2.
  { rewrite Hall. vm_compute. reflexivity. }
  split; [exact H2 |]. rewrite <- Heach. exact H2.
Defined.

(** ** The OpenTelemetry logs stream parser *)

Section OtelStreamFacts.
Import OtelStream.

Context {AnyValue : Type}.
Context (FormatString : AnyValue → string).

Lemma nonNil_Some {A} (l : list (option A)) :
  Forall is_Some l → l = map Some (nonNil l).
Proof.
  induction 1 as [| x l [a ->] _ IH]; [done |].
  unfold nonNil in *. simpl. f_equal. exact IH.
Qed.

Lemma nil_entry_or_none {A} (l : list (option A)) : Forall is_Some l ∨ None ∈ l.
Proof.
  induction l as [| [a |] l [IH | IH]].
  - left. constructor.
  - left. constructor; [by eexists | done].
  - right. by right.
  - right. by left.
  - right. by left.
Qed.

Lemma nonNil_map_Some {A} (l : list A) : nonNil (map Some l) = l.
Proof. unfold nonNil. induction l as [| a l IH]; [done |]. simpl. f_equal. exact IH. Qed.

Lemma appendAttributes_loop_nil_entry attributes : ∀ i useForStream dst streamFields,
  None ∈ attributes →
  appendAttributes_loop FormatString i attributes useForStream dst streamFields = None.
Proof.
  induction attributes as [| at_ rest IH]; intros i b dst sf Hin.
  - by apply elem_of_nil in Hin.
  - cbn [appendAttributes_loop]. destruct at_ as [kv |]; [| done].
    cbn [mbind option_bind]. apply IH.
    apply elem_of_cons in Hin as [? | ?]; done.
Qed.

Lemma appendAttributes_loop_plain attrs : ∀ i dst streamFields,
  appendAttributes_loop FormatString i (map Some attrs) false dst streamFields
  = Some (dst ++ map (attrField FormatString) attrs, streamFields).
Proof.
  induction attrs as [| kv attrs IH]; intros i dst sf.
  - simpl. by rewrite app_nil_r.
  - cbn [map appendAttributes_loop mbind option_bind]. rewrite IH.
    by rewrite <- app_assoc.
Qed.

Lemma appendAttributes_loop_stream attrs : ∀ i dst (filled pending : list string),
  length filled = i → (length attrs ≤ length pending)%nat →
  appendAttributes_loop FormatString i (map Some attrs) true dst (filled ++ pending)
  = Some (dst ++ map (attrField FormatString) attrs,
          filled ++ map kv_Key attrs ++ drop (length attrs) pending).
Proof.
  induction attrs as [| kv attrs IH]; intros i dst filled pending Hi Hlen.
  - simpl. by rewrite app_nil_r.
  - cbn [map appendAttributes_loop mbind option_bind].
    destruct pending as [| p pending]; [simpl in Hlen; lia |].
    rewrite insert_app_r_alt by lia.
    replace (i - length filled)%nat with 0%nat by lia.
    change (<[0%nat:=kv_Key kv]> (p :: pending)) with (kv_Key kv :: pending).
    rewrite (cons_middle (kv_Key kv) filled pending), app_assoc.
    rewrite (IH (S i)).
    + rewrite <- !app_assoc. done.
    + rewrite length_app. simpl. lia.
    + simpl in Hlen. lia.
Qed.

Lemma appendAttributesToFields_plain dst attrs useForStream :
  appendAttributesToFields FormatString dst (map Some attrs) useForStream
  = Some (dst ++ map (attrField FormatString) attrs,
          if useForStream then map kv_Key attrs else []).
Proof.
  unfold appendAttributesToFields. rewrite length_map. destruct useForStream.
  - change (replicate (length attrs) EmptyString)
      with ([] ++ replicate (length attrs) EmptyString).
    rewrite appendAttributes_loop_stream; [| done | by rewrite length_replicate].
    rewrite drop_replicate, Nat.sub_diag. simpl. by rewrite app_nil_r.
  - apply appendAttributes_loop_plain.
Qed.

Lemma appendAttributesToFields_closed dst attributes useForStream :
  Forall is_Some attributes →
  appendAttributesToFields FormatString dst attributes useForStream
  = Some (dst ++ map (attrField FormatString) (nonNil attributes),
          if useForStream then map kv_Key (nonNil attributes) else []).
Proof.
  intros Hwf. pose proof (nonNil_Some _ Hwf) as Heq.
  remember (nonNil attributes) as attrs. rewrite Heq.
  apply appendAttributesToFields_plain.
Qed.

(** X19: [appendAttributesToFields].  Over attributes none of which is nil
    it appends one field per attribute, in order, with the attribute's key
    as name and the formatted value as value, and returns the keys in
    order as stream fields when they are asked for and none otherwise; a
    nil attribute makes it panic. *)
Theorem appendAttributesToFields_spec :
  (∀ dst attributes useForStream,
     Forall is_Some attributes →
     appendAttributesToFields FormatString dst attributes useForStream
     = Some (dst ++ map (attrField FormatString) (nonNil attributes),
             if useForStream then map kv_Key (nonNil attributes) else [])) ∧
  (∀ dst attributes useForStream,
     None ∈ attributes →
     appendAttributesToFields FormatString dst attributes useForStream = None) ∧
  (∀ dst attributes useForStream fields streamFields,
     appendAttributesToFields FormatString dst attributes useForStream
     = Some (fields, streamFields) →
     length fields = (length dst + length attributes)%nat ∧
     length streamFields = (if useForStream then length attributes else 0)%nat).
Proof.
  split; [apply appendAttributesToFields_closed |]. split.
  - intros dst attributes b Hin. by apply appendAttributes_loop_nil_entry.
  - intros dst attributes b fields streamFields H.
    destruct (nil_entry_or_none attributes) as [Hwf | Hin].
    2:{ unfold appendAttributesToFields in H.
        by rewrite appendAttributes_loop_nil_entry in H. }
    rewrite appendAttributesToFields_closed in H by done. injection H as <- <-.
    assert (length (nonNil attributes) = length attributes) as Hn.
    { rewrite (nonNil_Some attributes Hwf) at 2. by rewrite length_map. }
    rewrite length_app, length_map, Hn.
    split; [done |]. destruct b; [by rewrite length_map | done].
Qed.

(** *** The calls of a request *)

Lemma processEvents_cons fields base lr recs :
  processEvents FormatString fields base (lr :: recs)
  = Process (int64_of_uint64 (lr_Timestamp lr))
      ((fields ++ recordFields FormatString lr) ++ base)
    :: processEvents FormatString (fields ++ recordFields FormatString lr) base recs.
Proof.
  unfold processEvents. cbn [imap]. f_equal.
  - f_equal. cbn [take map concat]. by rewrite app_nil_r, app_assoc.
  - apply imap_ext. intros k lr' _. simpl. f_equal.
    by rewrite <- !app_assoc.
Qed.

Lemma processEvents_app base recs1 : ∀ fields recs2,
  processEvents FormatString fields base (recs1 ++ recs2)
  = processEvents FormatString fields base recs1
    ++ processEvents FormatString
         (fields ++ concat (map (recordFields FormatString) recs1)) base recs2.
Proof.
  induction recs1 as [| lr recs1 IH]; intros fields recs2.
  - simpl. by rewrite app_nil_r.
  - rewrite <- app_comm_cons, !processEvents_cons, IH.
    cbn [map concat]. by rewrite <- !app_assoc.
Qed.

Lemma length_processEvents fields base recs :
  length (processEvents FormatString fields base recs) = length recs.
Proof. unfold processEvents. apply length_imap. Qed.

Lemma pushRecords_closed recs : ∀ wr trace,
  Forall (λ lr, Forall is_Some (lr_Attributes lr)) recs →
  pushRecords FormatString recs wr trace
  = Some ({| wr_bb := wr_bb wr;
             wr_fields := wr_fields wr ++ concat (map (recordFields FormatString) recs);
             wr_baseFields := wr_baseFields wr |},
          trace ++ processEvents FormatString (wr_fields wr) (wr_baseFields wr) recs).
Proof.
  induction recs as [| lr recs IH]; intros wr trace Hwf.
  - simpl. rewrite !app_nil_r. by destruct wr.
  - apply Forall_cons in Hwf as [Hlr Hwf]. cbn [pushRecords].
    rewrite appendAttributesToFields_closed by done. cbn [mbind option_bind].
    assert ((if str_nonempty (lr_Severity lr)
             then (wr_fields wr ++ map (attrField FormatString) (nonNil (lr_Attributes lr)))
                  ++ [{| f_Name := "severity"; f_Value := lr_Severity lr |}]
             else wr_fields wr ++ map (attrField FormatString) (nonNil (lr_Attributes lr)))
            ++ [{| f_Name := "_msg"; f_Value := FormatString (lr_Body lr) |}]
            = wr_fields wr ++ recordFields FormatString lr) as ->.
    { unfold recordFields. destruct (str_nonempty (lr_Severity lr)).
      - by rewrite <- !app_assoc.
      - by rewrite <- !app_assoc. }
    rewrite IH by done. cbn [wr_bb wr_fields wr_baseFields].
    rewrite processEvents_cons. cbn [map concat].
    by rewrite <- !app_assoc.
Qed.

Lemma pushScopes_closed scs : ∀ wr trace count,
  Forall (λ lr, Forall is_Some (lr_Attributes lr)) (concat (map sc_LogRecords scs)) →
  pushScopes FormatString (map Some scs) wr trace count
  = Some ({| wr_bb := wr_bb wr;
             wr_fields := wr_fields wr
                          ++ concat (map (recordFields FormatString)
                                       (concat (map sc_LogRecords scs)));
             wr_baseFields := wr_baseFields wr |},
          trace ++ processEvents FormatString (wr_fields wr) (wr_baseFields wr)
                     (concat (map sc_LogRecords scs)),
          (count + length (concat (map sc_LogRecords scs)))%nat).
Proof.
  induction scs as [| sc scs IH]; intros wr trace count Hwf.
  - simpl. rewrite !app_nil_r, Nat.add_0_r. by destruct wr.
  - cbn [map concat] in Hwf. apply Forall_app in Hwf as [Hsc Hwf].
    cbn [map pushScopes]. unfold pushFieldsFromScopeLogs. cbn [mbind option_bind].
    rewrite pushRecords_closed by done. cbn [mbind option_bind].
    rewrite IH by done. cbn [wr_bb wr_fields wr_baseFields map concat].
    rewrite processEvents_app, map_app, concat_app, length_app.
    rewrite <- !app_assoc. do 2 f_equal. lia.
Qed.

Lemma resourceEvents_cons fields rl rls :
  resourceEvents FormatString fields (rl :: rls)
  = (GetStream (map kv_Key (resourceAttrs rl))
     :: processEvents FormatString fields
          (map (attrField FormatString) (resourceAttrs rl)) (recordsOf rl)
     ++ [Push])
    ++ resourceEvents FormatString
         (fields ++ concat (map (recordFields FormatString) (recordsOf rl))) rls.
Proof.
  unfold resourceEvents. cbn [imap concat]. f_equal.
  - cbn [take map concat]. by rewrite app_nil_r.
  - f_equal. apply imap_ext. intros j rl' _. simpl.
    by rewrite map_app, concat_app, app_assoc.
Qed.

Lemma last_cons_default {A} (x : A) (l : list A) (d : A) :
  default d (last (x :: l)) = default x (last l).
Proof. destruct l as [| y l]; [done |]. rewrite last_cons. by destruct (last (y :: l)). Qed.

Lemma parseResources_closed rls : ∀ wr trace count,
  Forall (wf_resource) rls →
  parseResources FormatString rls wr trace count
  = Some ({| wr_bb := wr_bb wr;
             wr_fields := wr_fields wr
                          ++ concat (map (recordFields FormatString)
                                       (concat (map recordsOf rls)));
             wr_baseFields :=
               default (wr_baseFields wr)
                 ((λ rl, map (attrField FormatString) (resourceAttrs rl)) <$> last rls) |},
          trace ++ resourceEvents FormatString (wr_fields wr) rls,
          (count + length (concat (map recordsOf rls)))%nat).
Proof.
  induction rls as [| rl rls IH]; intros wr trace count Hwf.
  - simpl. rewrite !app_nil_r, Nat.add_0_r. by destruct wr.
  - apply Forall_cons in Hwf as [(Hres & Hscs & Hrecs) Hwf]. cbn [parseResources].
    assert (appendAttributesToFields FormatString []
              match rl_Resource rl with
              | Some res => res_Attributes res
              | None => []
              end true
            = Some (map (attrField FormatString) (resourceAttrs rl),
                    map kv_Key (resourceAttrs rl))) as ->.
    { unfold resourceAttrs. destruct (rl_Resource rl) as [res |].
      - by rewrite appendAttributesToFields_closed by by apply Hres.
      - done. }
    cbn [mbind option_bind].
    rewrite (nonNil_Some (rl_ScopeLogs rl) Hscs).
    rewrite pushScopes_closed by exact Hrecs. cbn [mbind option_bind].
    rewrite IH by done. cbn [wr_bb wr_fields wr_baseFields map concat].
    fold (recordsOf rl) in *.
    change (concat (map sc_LogRecords (nonNil (rl_ScopeLogs rl)))) with (recordsOf rl).
    rewrite resourceEvents_cons, map_app, concat_app, length_app.
    rewrite <- !app_assoc, Nat.add_assoc. cbn [app]. rewrite <- !app_assoc. cbn [app].
    rewrite last_cons. by destruct (last rls).
Qed.

Lemma countEvents_app kind t1 t2 :
  countEvents kind (t1 ++ t2) = (countEvents kind t1 + countEvents kind t2)%nat.
Proof. unfold countEvents. by rewrite filter_app, length_app. Qed.

Lemma countEvents_processEvents fields base recs :
  countEvents isGetStream (processEvents FormatString fields base recs) = 0%nat ∧
  countEvents isProcess (processEvents FormatString fields base recs) = length recs ∧
  countEvents isPush (processEvents FormatString fields base recs) = 0%nat.
Proof.
  revert fields. induction recs as [| lr recs IH]; intros fields; [done |].
  rewrite processEvents_cons. destruct (IH (fields ++ recordFields FormatString lr))
    as (Hg & Hp & Hq).
  unfold countEvents in *. rewrite !filter_cons. simpl.
  rewrite Hg, Hp, Hq. done.
Qed.

Lemma countEvents_resourceEvents rls : ∀ fields,
  countEvents isGetStream (resourceEvents FormatString fields rls) = length rls ∧
  countEvents isProcess (resourceEvents FormatString fields rls)
  = length (concat (map recordsOf rls)) ∧
  countEvents isPush (resourceEvents FormatString fields rls) = length rls.
Proof.
  induction rls as [| rl rls IH]; intros fields; [done |].
  rewrite resourceEvents_cons.
  destruct (IH (fields ++ concat (map (recordFields FormatString) (recordsOf rl))))
    as (Hg & Hp & Hq).
  destruct (countEvents_processEvents fields
              (map (attrField FormatString) (resourceAttrs rl)) (recordsOf rl))
    as (Hg' & Hp' & Hq').
  rewrite !countEvents_app, Hg, Hp, Hq. rewrite app_comm_cons, !countEvents_app.
  cbn [map concat]. rewrite length_app.
  unfold countEvents in *. rewrite !filter_cons. simpl.
  rewrite Hg', Hp', Hq'. simpl. repeat split; lia.
Qed.

(** X20: [parseLogsRequest] over a request without nil pointers.  It
    returns the number of log records of the request.  For every resource
    it calls [getStream] with the keys of the resource attributes, then
    [processFn] once per record, then [pushFn].  The fields of a
    [processFn] call are what [wr.fields] held when the request began,
    then the fields of all the records of the request up to and including
    this one (each record contributing its attributes, [severity] if it is
    not empty, and [_msg]), then the base fields of the record's resource:
    [wr.fields] is never truncated between records. *)
Theorem parseLogsRequest_calls wr req :
  wf_request req →
  parseLogsRequest FormatString wr req
  = Some ({| wr_bb := wr_bb wr;
             wr_fields := wr_fields wr
                          ++ concat (map (recordFields FormatString) (allRecords req));
             wr_baseFields :=
               default (wr_baseFields wr)
                 ((λ rl, map (attrField FormatString) (resourceAttrs rl))
                    <$> last (req_ResourceLogs req)) |},
          resourceEvents FormatString (wr_fields wr) (req_ResourceLogs req),
          length (allRecords req)) ∧
  countEvents isProcess (resourceEvents FormatString (wr_fields wr) (req_ResourceLogs req))
  = length (allRecords req) ∧
  countEvents isGetStream (resourceEvents FormatString (wr_fields wr) (req_ResourceLogs req))
  = length (req_ResourceLogs req) ∧
  countEvents isPush (resourceEvents FormatString (wr_fields wr) (req_ResourceLogs req))
  = length (req_ResourceLogs req).
Proof.
  intros Hwf. split.
  - unfold parseLogsRequest. rewrite parseResources_closed by exact Hwf. done.
  - destruct (countEvents_resourceEvents (req_ResourceLogs req) (wr_fields wr))
      as (Hg & Hp & Hq).
    done.
Qed.

(** *** Nil pointers *)

Lemma pushRecords_returns recs : ∀ wr trace r,
  pushRecords FormatString recs wr trace = Some r →
  Forall (λ lr, Forall is_Some (lr_Attributes lr)) recs.
Proof.
  induction recs as [| lr recs IH]; intros wr trace r H; [constructor |].
  cbn [pushRecords] in H.
  destruct (nil_entry_or_none (lr_Attributes lr)) as [Hwf | Hnil].
  - rewrite appendAttributesToFields_closed in H by done.
    cbn [mbind option_bind] in H. constructor; [done |]. by eapply IH.
  - unfold appendAttributesToFields in H.
    by rewrite appendAttributes_loop_nil_entry in H.
Qed.

Lemma pushScopes_returns scopes : ∀ wr trace count r,
  pushScopes FormatString scopes wr trace count = Some r →
  Forall is_Some scopes ∧
  Forall (λ lr, Forall is_Some (lr_Attributes lr))
    (concat (map sc_LogRecords (nonNil scopes))).
Proof.
  induction scopes as [| sc scopes IH]; intros wr trace count r H.
  - split; constructor.
  - cbn [pushScopes] in H. destruct sc as [sc |]; [| done].
    unfold pushFieldsFromScopeLogs in H. cbn [mbind option_bind] in H.
    destruct (pushRecords FormatString (sc_LogRecords sc) wr trace)
      as [[wr1 trace1] |] eqn:Hrecs; [| done].
    cbn [mbind option_bind] in H. apply IH in H as [Hscs Hrest].
    apply pushRecords_returns in Hrecs. split.
    + constructor; [by eexists | done].
    + change (nonNil (Some sc :: scopes)) with (sc :: nonNil scopes).
      cbn [map concat]. by apply Forall_app.
Qed.

Lemma parseResources_returns rls : ∀ wr trace count r,
  parseResources FormatString rls wr trace count = Some r → Forall wf_resource rls.
Proof.
  induction rls as [| rl rls IH]; intros wr trace count r H; [constructor |].
  cbn [parseResources] in H.
  destruct (appendAttributesToFields FormatString [] _ true)
    as [[baseFields streamFields] |] eqn:Hattrs; [| done].
  cbn [mbind option_bind] in H.
  destruct (pushScopes FormatString (rl_ScopeLogs rl) _ _ count)
    as [[[wr1 trace1] count1] |] eqn:Hscopes; [| done].
  cbn [mbind option_bind] in H. apply IH in H.
  apply pushScopes_returns in Hscopes as [Hscs Hrecs].
  constructor; [| done]. split; [| split; [done | done]].
  intros res Hres. rewrite Hres in Hattrs.
  destruct (nil_entry_or_none (res_Attributes res)) as [Hwf | Hnil]; [done |].
  unfold appendAttributesToFields in Hattrs.
  by rewrite appendAttributes_loop_nil_entry in Hattrs.
Qed.

Lemma parseLogsRequest_returns_iff_aux wr req :
  is_Some (parseLogsRequest FormatString wr req) → wf_request req.
Proof. intros [r H]. by apply parseResources_returns in H. Qed.

(** X21: [parseLogsRequest] returns exactly on the requests without nil
    pointers: a nil attribute (of a resource or of a record) or a nil
    scope makes it panic, and nothing else does. *)
Theorem parseLogsRequest_returns_iff wr req :
  is_Some (parseLogsRequest FormatString wr req) ↔ wf_request req.
Proof.
  split.
  - intros [r H]. by apply parseResources_returns in H.
  - intros Hwf. unfold parseLogsRequest.
    rewrite parseResources_closed by exact Hwf. by eexists.
Qed.

(** *** The stream as a whole *)

Context {reader error : Type}.
Context (GetGzipReader : reader → reader + error).
Context (ReadFrom : reader → string * option error).
Context (json_Unmarshal UnmarshalProtobuf
         : string → ExportLogsServiceRequest AnyValue + error).


End OtelStreamFacts.

(** ** Closed instances of the stream parser *)

Lemma exampleRequest_wf : OtelStream.wf_request exampleRequest.
Proof.
  apply Forall_cons_2; [| apply Forall_nil_2]. split; [| split].
  - intros res [= <-]. apply Forall_cons_2; [by eexists | apply Forall_nil_2].
  - apply Forall_cons_2; [by eexists | apply Forall_nil_2].
  - apply Forall_cons_2; [| apply Forall_cons_2; [| apply Forall_nil_2]].
    + apply Forall_cons_2; [by eexists | apply Forall_nil_2].
    + apply Forall_nil_2.
Qed.

(** The two records of [exampleRequest], parsed with a reset context: the
    second [processFn] call carries the fields of the first record too. *)
Lemma parseLogsRequest_calls_witness :
  OtelStream.parseLogsRequest id
    {| OtelStream.wr_bb := ""; OtelStream.wr_fields := []; OtelStream.wr_baseFields := [] |}
    exampleRequest
  = Some ({| OtelStream.wr_bb := "";
             OtelStream.wr_fields :=
               [{| OtelStream.f_Name := "k"; OtelStream.f_Value := "v" |};
                {| OtelStream.f_Name := "severity"; OtelStream.f_Value := "warn" |};
                {| OtelStream.f_Name := "_msg"; OtelStream.f_Value := "first" |};
                {| OtelStream.f_Name := "_msg"; OtelStream.f_Value := "second" |}];
             OtelStream.wr_baseFields :=
               [{| OtelStream.f_Name := "host"; OtelStream.f_Value := "a1" |}] |},
          [OtelStream.GetStream ["host"];
           OtelStream.Process 1
             [{| OtelStream.f_Name := "k"; OtelStream.f_Value := "v" |};
              {| OtelStream.f_Name := "severity"; OtelStream.f_Value := "warn" |};
              {| OtelStream.f_Name := "_msg"; OtelStream.f_Value := "first" |};
              {| OtelStream.f_Name := "host"; OtelStream.f_Value := "a1" |}];
           OtelStream.Process 2
             [{| OtelStream.f_Name := "k"; OtelStream.f_Value := "v" |};
              {| OtelStream.f_Name := "severity"; OtelStream.f_Value := "warn" |};
              {| OtelStream.f_Name := "_msg"; OtelStream.f_Value := "first" |};
              {| OtelStream.f_Name := "_msg"; OtelStream.f_Value := "second" |};
              {| OtelStream.f_Name := "host"; OtelStream.f_Value := "a1" |}];
           OtelStream.Push],
          2%nat).
Proof.
  destruct (parseLogsRequest_calls id
              {| OtelStream.wr_bb := ""; OtelStream.wr_fields := [];
                 OtelStream.wr_baseFields := [] |}
              exampleRequest exampleRequest_wf) as [Hcalls _].
  rewrite Hcalls. vm_compute. reflexivity.
Defined.

